(** * The DMA-fed circular log queue of [Core/Src/log.c]

    A shallow embedding of the logger of the NUCLEO-F103RB firmware: the
    ring of [LOG_DMA_BUFFER_SIZE] bytes shared between [logmsg] (the
    producer) and the USART transmit DMA (the consumer), with its head and
    tail indices, the transmit pump [restart_dma] and the transfer-complete
    callback [HAL_UART_TxCpltCallback].

    The globals of the module become the fields of a record that every
    function takes and returns.  The C integer types are kept: the three
    indices are [uint16_t], so every store into them is reduced modulo
    2^16, and the arithmetic in between is done on [int] after the usual
    promotion. *)

From Stdlib Require Import ZArith Ascii String Lia.
From stdpp Require Import base option list.

Local Open Scope Z_scope.

(** [lia] is used on index arithmetic modulo the (constant) ring size. *)
Ltac Zify.zify_post_hook ::= Z.to_euclidean_division_equations.

(** ** Configuration constants ([log.h]) *)

Definition LOG_ITEM_MAX_SIZE : Z := 128.
Definition LOG_MAX_TEXT : Z := LOG_ITEM_MAX_SIZE.
Definition LOG_DMA_BUFFER_SIZE : Z := 4096.

Definition HAL_OK : Z := 0.

(** ** Machine integers *)

(** Conversion to [uint16_t]: reduction modulo 2^16. *)
Definition uint16_t (z : Z) : Z := z mod 65536.

(** Result of an [int] operation on the 32-bit target.  The operands that
    occur in [log.c] are far from the limits; the wrap-around is written
    out so that the embedding does not depend on that. *)
Definition int (z : Z) : Z := (z + 2147483648) mod 4294967296 - 2147483648.

Definition INT_MAX : Z := 2147483647.

(** ** Memory *)

Definition NUL : ascii := "000"%char.
Definition LF : ascii := "010"%char.

Definition sizeof (a : list ascii) : Z := Z.of_nat (length a).

(** [a[i] = c].  An index outside the array is undefined behaviour:
    [None]. *)
Definition store (a : list ascii) (i : Z) (c : ascii) : option (list ascii) :=
  if (0 <=? i) && (i <? sizeof a) then Some (<[Z.to_nat i := c]> a) else None.

(** The bytes [bs] written to [a] from index [off] on. *)
Definition write (a : list ascii) (off : Z) (bs : list ascii) : option (list ascii) :=
  if (0 <=? off) && (off + sizeof bs <=? sizeof a)
  then Some (take (Z.to_nat off) a ++ bs ++ drop (Z.to_nat (off + sizeof bs)) a)
  else None.

(** [memcpy(&dst[doff], &src[soff], n)]. *)
Definition memcpy (dst : list ascii) (doff : Z) (src : list ascii) (soff n : Z)
  : option (list ascii) :=
  if (0 <=? soff) && (0 <=? n) && (soff + n <=? sizeof src)
  then write dst doff (take (Z.to_nat n) (drop (Z.to_nat soff) src))
  else None.

(** ** The renderer *)

(** The value a [printf]-like function returns for the expansion [s]: its
    length, or a negative value when that is not an [int]. *)
Definition c_strlen (s : list ascii) : Z :=
  if sizeof s <=? INT_MAX then sizeof s else -1.

(** [snprintf(&a[off], cap, ...)] and [vsnprintf] of the C library,
    where the format and its arguments expand to [s]: at most [cap - 1]
    characters of [s] are stored, followed by the terminator; the value
    returned is the length of [s], whether it was cut or not (line 149 of
    [log.c] converts it "into actual length"). *)
Definition snprintf (a : list ascii) (off cap : Z) (s : list ascii)
  : option (list ascii * Z) :=
  if cap <=? 0 then (if cap =? 0 then Some (a, c_strlen s) else None)
  else a' ← write a off (take (Z.to_nat (cap - 1)) s ++ [NUL]);
       Some (a', c_strlen s).

Definition digit (d : Z) : ascii := ascii_of_nat (Z.to_nat (48 + d)).

(** Decimal digits of [n], most significant first, [fuel] digits at most. *)
Fixpoint utoa (fuel : nat) (n : Z) (acc : list ascii) : list ascii :=
  match fuel with
  | O => acc
  | S fuel' =>
      let acc' := digit (n mod 10) :: acc in
      if n / 10 =? 0 then acc' else utoa fuel' (n / 10) acc'
  end.

(** The expansion of ["(%lu) "] for the 32-bit tick counter, the value
    of [HAL_GetTick()]. *)
Definition timestamp (tick : Z) : list ascii :=
  "("%char :: utoa 10 (tick mod 4294967296) [] ++ [")"%char; " "%char].

(** The value of [log_length] after line 154, which depends on the two
    values returned by the renderer only. *)
Definition item_length (tick : Z) (text : list ascii) : Z :=
  let ts_len := uint16_t (c_strlen (timestamp tick)) in
  let log_length := uint16_t (c_strlen text) in
  let log_length :=
    if log_length >=? LOG_MAX_TEXT then LOG_MAX_TEXT - 1 else log_length in
  let log_length := uint16_t (log_length + 1) in
  uint16_t (log_length + ts_len).

(** The bytes of an item: the time stamp, the text (as many characters
    of it as the computed length accounts for) and the line feed. *)
Definition item_bytes (tick : Z) (text : list ascii) : list ascii :=
  timestamp tick
  ++ take (Z.to_nat (item_length tick text - sizeof (timestamp tick) - 1)) text
  ++ [LF].

(** The item lies inside the compose buffer. *)
Definition item_fits (tick : Z) (text : list ascii) : bool :=
  item_length tick text <=? LOG_ITEM_MAX_SIZE.

(** ** The transfer engine *)

(** Modelled from the spec: the state of the transfer engine, which is
    the UART handle [huart2] of [main.c] as far as the logger observes
    it: ready, or busy with the one transmit request it has accepted
    (offset into the ring and byte count). *)
Inductive UART_HandleTypeDef : Type :=
  | HAL_UART_STATE_READY
  | HAL_UART_STATE_BUSY_TX (offset count : Z).

(** Modelled from the spec: the engine's [is_ready], which is the test
    [HAL_UART_GetState(&huart2) == HAL_UART_STATE_READY]. *)
Definition HAL_UART_GetState_ready (h : UART_HandleTypeDef) : bool :=
  match h with
  | HAL_UART_STATE_READY => true
  | HAL_UART_STATE_BUSY_TX _ _ => false
  end.

(** ** The globals of [log.c] *)

Record state : Type := mkState {
  _usart2_tx_dma_buffer : list ascii;   (* char [LOG_DMA_BUFFER_SIZE] *)
  _log_compose_buffer : list ascii;     (* char [LOG_ITEM_MAX_SIZE] *)
  _queue_tail : Z;                      (* volatile uint16_t *)
  _queue_head : Z;                      (* volatile uint16_t *)
  _last_dma_count : Z;                  (* volatile uint16_t *)
  huart2 : UART_HandleTypeDef;         (* main.c *)
  ld2 : bool                           (* the LED on LD2_Pin *)
}.

Definition set_dma_buffer (st : state) (b : list ascii) : state :=
  mkState b (_log_compose_buffer st) (_queue_tail st) (_queue_head st)
          (_last_dma_count st) (huart2 st) (ld2 st).

Definition set_compose_buffer (st : state) (b : list ascii) : state :=
  mkState (_usart2_tx_dma_buffer st) b (_queue_tail st) (_queue_head st)
          (_last_dma_count st) (huart2 st) (ld2 st).

Definition set_queue_tail (st : state) (z : Z) : state :=
  mkState (_usart2_tx_dma_buffer st) (_log_compose_buffer st) z (_queue_head st)
          (_last_dma_count st) (huart2 st) (ld2 st).

Definition set_queue_head (st : state) (z : Z) : state :=
  mkState (_usart2_tx_dma_buffer st) (_log_compose_buffer st) (_queue_tail st) z
          (_last_dma_count st) (huart2 st) (ld2 st).

Definition set_last_dma_count (st : state) (z : Z) : state :=
  mkState (_usart2_tx_dma_buffer st) (_log_compose_buffer st) (_queue_tail st)
          (_queue_head st) z (huart2 st) (ld2 st).

Definition set_huart2 (st : state) (h : UART_HandleTypeDef) : state :=
  mkState (_usart2_tx_dma_buffer st) (_log_compose_buffer st) (_queue_tail st)
          (_queue_head st) (_last_dma_count st) h (ld2 st).

Definition HAL_GPIO_TogglePin (st : state) : state :=
  mkState (_usart2_tx_dma_buffer st) (_log_compose_buffer st) (_queue_tail st)
          (_queue_head st) (_last_dma_count st) (huart2 st) (negb (ld2 st)).

(** ** [log_init] *)

Definition log_init (st : state) : state * Z :=
  let st := set_queue_tail st 0 in
  let st := set_queue_head st 0 in
  let st := set_last_dma_count st 0 in
  (st, HAL_OK).

(** ** [queue_space_available] *)

Definition queue_space_available (head tail : Z) : Z :=
  if head >? tail
  then int (int (LOG_DMA_BUFFER_SIZE - int (head - tail)) - 1)
  else int (int (tail - head) - 1).

(** The availability expression that [logmsg] evaluates in line, on the
    promoted indices, stored into a [uint16_t]. *)
Definition log_space_available (st : state) : Z :=
  uint16_t (if _queue_head st <=? _queue_tail st
            then LOG_DMA_BUFFER_SIZE - (_queue_tail st - _queue_head st) - 1
            else _queue_head st - _queue_tail st - 1).

(** The formula of the specification. *)
Definition space_formula (head tail : Z) : Z :=
  LOG_DMA_BUFFER_SIZE - 1
  - ((tail - head + LOG_DMA_BUFFER_SIZE) mod LOG_DMA_BUFFER_SIZE).

Section Logger.

(** Whether the engine takes a request for zero bytes (and later signals
    its completion) or turns it down.  [restart_dma] issues such a request
    when the queue is empty; nothing in [log.c] depends on the answer. *)
Variable zero_count_accepted : bool.

(** Modelled from the spec: the transfer engine's [start_transfer], which
    is [HAL_UART_Transmit_DMA] of the vendor library.  A busy engine turns
    the request down and is left as it is; a ready engine becomes busy
    with the request. *)
Definition HAL_UART_Transmit_DMA (h : UART_HandleTypeDef) (offset count : Z)
  : UART_HandleTypeDef :=
  match h with
  | HAL_UART_STATE_BUSY_TX _ _ => h
  | HAL_UART_STATE_READY =>
      if (count =? 0) && negb zero_count_accepted
      then HAL_UART_STATE_READY
      else HAL_UART_STATE_BUSY_TX offset count
  end.

(** ** [restart_dma] *)

Definition dma_bytes (st : state) : Z :=
  uint16_t (if _queue_head st <=? _queue_tail st
            then _queue_tail st - _queue_head st
            else LOG_DMA_BUFFER_SIZE - (_queue_head st - _queue_tail st)).

Definition qty_to_send (st : state) : Z :=
  uint16_t (if dma_bytes st >? LOG_DMA_BUFFER_SIZE - _queue_head st
            then LOG_DMA_BUFFER_SIZE - _queue_head st
            else dma_bytes st).

Definition restart_dma (st : state) : state * Z :=
  if negb (HAL_UART_GetState_ready (huart2 st)) then (st, 0)
  else
    let st := set_last_dma_count st (qty_to_send st) in
    let st := set_huart2 st (HAL_UART_Transmit_DMA (huart2 st) (_queue_head st)
                                                   (_last_dma_count st)) in
    (st, _last_dma_count st).

(** ** [logmsg] *)

(** Lines 146 to 154: the time stamp and the text are rendered into the
    compose buffer and the length of the item is computed. *)
Definition render_item (cb : list ascii) (tick : Z) (text : list ascii)
  : option (list ascii * Z) :=
  '(cb, r) ← snprintf cb 0 LOG_MAX_TEXT (timestamp tick);
  let ts_len := uint16_t r in
  '(cb, r) ← snprintf cb ts_len (LOG_MAX_TEXT - ts_len) text;
  let log_length := uint16_t r in
  let log_length :=
    if log_length >=? LOG_MAX_TEXT then LOG_MAX_TEXT - 1 else log_length in
  let log_length := uint16_t (log_length + 1) in
  let log_length := uint16_t (log_length + ts_len) in
  Some (cb, log_length).

(** Lines 168 to 177: the first [log_length] bytes of the compose buffer
    are copied to the ring at the tail, in two parts when they reach the
    end of the ring. *)
Definition enqueue (st : state) (log_length : Z) : option state :=
  if _queue_tail st + log_length >=? LOG_DMA_BUFFER_SIZE then
    let len_1 := uint16_t (LOG_DMA_BUFFER_SIZE - _queue_tail st) in
    ring ← memcpy (_usart2_tx_dma_buffer st) (_queue_tail st)
                  (_log_compose_buffer st) 0 len_1;
    ring ← memcpy ring 0 (_log_compose_buffer st) len_1 (log_length - len_1);
    Some (set_queue_tail (set_dma_buffer st ring) (uint16_t (log_length - len_1)))
  else
    ring ← memcpy (_usart2_tx_dma_buffer st) (_queue_tail st)
                  (_log_compose_buffer st) 0 log_length;
    Some (set_queue_tail (set_dma_buffer st ring)
                         (uint16_t (_queue_tail st + log_length))).

(** [logmsg], with the tick counter read by [HAL_GetTick] and the
    expansion [text] of the format as inputs.  [None] is an access
    outside an array. *)
Definition logmsg (st : state) (tick : Z) (text : list ascii)
  : option (state * Z) :=
  '(cb, log_length) ← render_item (_log_compose_buffer st) tick text;
  let st := set_compose_buffer st cb in
  if log_length >? log_space_available st then Some (st, -1)
  else
    cb ← store (_log_compose_buffer st) (log_length - 1) LF;
    let st := set_compose_buffer st cb in
    st ← enqueue st log_length;
    Some (fst (restart_dma st), log_length).

(** ** [HAL_UART_TxCpltCallback] *)

Definition HAL_UART_TxCpltCallback (st : state) : state :=
  if _queue_head st =? _queue_tail st then st
  else
    let st := set_queue_head st (uint16_t (_queue_head st + _last_dma_count st)) in
    let st := if _queue_head st >=? LOG_DMA_BUFFER_SIZE
              then set_queue_head st (uint16_t (_queue_head st - LOG_DMA_BUFFER_SIZE))
              else st in
    let st := set_last_dma_count st 0 in
    let st := fst (restart_dma st) in
    HAL_GPIO_TogglePin st.

(** ** The logger and the engine together *)

(** Besides the globals, what the engine has put on the transmit line so
    far and what [logmsg] has copied into the ring so far. *)
Record world : Type := mkWorld {
  mcu : state;
  tx_line : list ascii;
  enqueued : list ascii
}.

Inductive event : Type :=
  | ev_logmsg (tick : Z) (text : list ascii)
  | ev_tx_complete.

(** The bytes of a request, as the engine reads them from the ring. *)
Definition dma_read (ring : list ascii) (offset count : Z) : list ascii :=
  take (Z.to_nat count) (drop (Z.to_nat offset) ring).

(** The bytes of the request the engine is busy with. *)
Definition in_flight (st : state) : list ascii :=
  match huart2 st with
  | HAL_UART_STATE_READY => []
  | HAL_UART_STATE_BUSY_TX offset count =>
      dma_read (_usart2_tx_dma_buffer st) offset count
  end.

(** A call of [logmsg]; or the completion interrupt: the bytes of the
    request in progress are on the line, the handle is ready again and
    the callback runs.  (With a ready engine there is no request and no
    interrupt; the event then stands for a spurious one, which puts
    nothing on the line.)  [None] is an access outside an array in
    [logmsg]. *)
Definition step (w : world) (e : event) : option world :=
  match e with
  | ev_logmsg tick text =>
      '(st, ret) ← logmsg (mcu w) tick text;
      Some (mkWorld st (tx_line w)
              (if ret <? 0 then enqueued w
               else enqueued w ++ take (Z.to_nat ret) (_log_compose_buffer st)))
  | ev_tx_complete =>
      Some (mkWorld
              (HAL_UART_TxCpltCallback (set_huart2 (mcu w) HAL_UART_STATE_READY))
              (tx_line w ++ in_flight (mcu w))
              (enqueued w))
  end.

Fixpoint run (w : world) (evs : list event) : option world :=
  match evs with
  | [] => Some w
  | e :: evs => w' ← step w e; run w' evs
  end.

(** The items of the calls of [logmsg] in [evs] that return a length,
    one after the other. *)
Fixpoint accepted_items (w : world) (evs : list event) : list ascii :=
  match evs with
  | [] => []
  | e :: evs =>
      match step w e with
      | None => []
      | Some w' =>
          match e with
          | ev_logmsg tick text =>
              match logmsg (mcu w) tick text with
              | Some (_, ret) => if ret <? 0 then [] else item_bytes tick text
              | None => []
              end
          | ev_tx_complete => []
          end ++ accepted_items w' evs
      end
  end.

Definition event_fits (e : event) : bool :=
  match e with
  | ev_logmsg tick text => item_fits tick text
  | ev_tx_complete => true
  end.

(** The world after [log_init], with a ready engine and nothing sent. *)
Definition power_on (ring cb : list ascii) : world :=
  mkWorld (fst (log_init (mkState ring cb 0 0 0 HAL_UART_STATE_READY false))) [] [].

(** ** The operations one at a time, in any order *)

Inductive operation : Type :=
  | op_log_init
  | op_logmsg (tick : Z) (text : list ascii)
  | op_restart_dma
  | op_tx_cplt_callback
  | op_engine_ready.

Definition operation_fits (op : operation) : bool :=
  match op with
  | op_logmsg tick text => item_fits tick text
  | _ => true
  end.

Definition perform (st : state) (op : operation) : option state :=
  match op with
  | op_log_init => Some (fst (log_init st))
  | op_logmsg tick text => fst <$> logmsg st tick text
  | op_restart_dma => Some (fst (restart_dma st))
  | op_tx_cplt_callback => Some (HAL_UART_TxCpltCallback st)
  | op_engine_ready => Some (set_huart2 st HAL_UART_STATE_READY)
  end.

Fixpoint perform_all (st : state) (ops : list operation) : option state :=
  match ops with
  | [] => Some st
  | op :: ops => st' ← perform st op; perform_all st' ops
  end.

End Logger.

(** ** The queue as a sequence of bytes *)

(** [n] bytes of the ring from index [start] on, wrapping at the end. *)
Definition ring_read (ring : list ascii) (start : Z) (n : Z) : list ascii :=
  take (Z.to_nat n) (drop (Z.to_nat start) (ring ++ ring)).

(** Number of bytes between head and tail. *)
Definition pending (st : state) : Z :=
  (_queue_tail st - _queue_head st) mod LOG_DMA_BUFFER_SIZE.

Definition queued (st : state) : list ascii :=
  ring_read (_usart2_tx_dma_buffer st) (_queue_head st) (pending st).

(** [ring'] is [ring] with the first [n] bytes of [cb] at the indices
    [tail], [tail + 1], ... taken modulo the size of the ring. *)
Definition copied_at (ring : list ascii) (tail : Z) (cb : list ascii) (n : Z)
    (ring' : list ascii) : Prop :=
  sizeof ring' = LOG_DMA_BUFFER_SIZE /\
  forall j : nat, Z.of_nat j < LOG_DMA_BUFFER_SIZE ->
    ring' !! j =
    if decide ((Z.of_nat j - tail) mod LOG_DMA_BUFFER_SIZE < n)
    then cb !! Z.to_nat ((Z.of_nat j - tail) mod LOG_DMA_BUFFER_SIZE)
    else ring !! j.

(** The two calls of [memcpy] of the wrapping branch: [LOG_DMA_BUFFER_SIZE
    - tail] bytes to the end of the ring, the others to its front. *)
Definition two_copies (ring : list ascii) (tail : Z) (cb : list ascii) (n : Z)
    (ring' : list ascii) : Prop :=
  exists ring1,
    memcpy ring tail cb 0 (LOG_DMA_BUFFER_SIZE - tail) = Some ring1 /\
    memcpy ring1 0 cb (LOG_DMA_BUFFER_SIZE - tail)
           (n - (LOG_DMA_BUFFER_SIZE - tail)) = Some ring'.

(** ** Well-formed states *)

(** The two arrays have their declared sizes. *)
Definition mem_ok (st : state) : Prop :=
  sizeof (_usart2_tx_dma_buffer st) = LOG_DMA_BUFFER_SIZE /\
  sizeof (_log_compose_buffer st) = LOG_ITEM_MAX_SIZE.

(** The invariant of the data model. *)
Definition index_ok (st : state) : Prop :=
  0 <= _queue_head st < LOG_DMA_BUFFER_SIZE /\
  0 <= _queue_tail st < LOG_DMA_BUFFER_SIZE.

(** The request recorded in [_last_dma_count] ends inside the ring. *)
Definition count_ok (st : state) : Prop :=
  0 <= _last_dma_count st <= LOG_DMA_BUFFER_SIZE - _queue_head st.

(** What the handle says agrees with the globals: a ready engine means an
    empty queue, a busy one works on a request that starts at the head,
    has the recorded length, ends inside the ring and covers queued bytes
    only. *)
Definition engine_ok (st : state) : Prop :=
  match huart2 st with
  | HAL_UART_STATE_READY => _queue_head st = _queue_tail st
  | HAL_UART_STATE_BUSY_TX offset count =>
      offset = _queue_head st /\ count = _last_dma_count st /\
      0 <= count <= pending st /\ count <= LOG_DMA_BUFFER_SIZE - _queue_head st
  end.

(** What every operation maintains. *)
Definition state_ok (st : state) : Prop :=
  mem_ok st /\ index_ok st /\ count_ok st.

(** A bound on the work left to the engine, which every completion
    lowers: nothing for a ready engine; for a busy one, the queued bytes
    count twice, plus one for the request in progress, plus one if that
    request was issued before bytes were added that it could have
    covered. *)
Definition backlog (st : state) : Z :=
  match huart2 st with
  | HAL_UART_STATE_READY => 0
  | HAL_UART_STATE_BUSY_TX _ count =>
      1 + 2 * pending st
      + (if count =? Z.min (pending st) (LOG_DMA_BUFFER_SIZE - _queue_head st)
         then 0 else 1)
  end.

Definition world_ok (w : world) : Prop :=
  mem_ok (mcu w) /\ index_ok (mcu w) /\ engine_ok (mcu w) /\
  enqueued w = tx_line w ++ queued (mcu w).

(** The length of the request in progress, 0 for a ready engine. *)
Definition request_count (st : state) : Z :=
  match huart2 st with
  | HAL_UART_STATE_READY => 0
  | HAL_UART_STATE_BUSY_TX _ count => count
  end.

(** The availability expression of lines 156 to 158 when the completion
    interrupt is served between the test [_queue_head <= _queue_tail] and
    the operand it selects: the indices are [volatile], the test reads
    them in [st], the operand reads them again, in [st'] as the callback
    has left them. *)
Definition log_space_available_preempted (st st' : state) : Z :=
  uint16_t (if _queue_head st <=? _queue_tail st
            then LOG_DMA_BUFFER_SIZE - (_queue_tail st' - _queue_head st') - 1
            else _queue_head st' - _queue_tail st' - 1).

(** ** [hexdump] ([Core/Src/hexdump.c]) *)

(** Conversion to [unsigned]: reduction modulo 2^32. *)
Definition unsigned (z : Z) : Z := z mod 4294967296.

(** The value of a byte read through [unsigned char *]. *)
Definition uchar (c : ascii) : Z := Z.of_nat (nat_of_ascii c).

Definition hex_digit (d : Z) : ascii :=
  if d <? 10 then ascii_of_nat (Z.to_nat (48 + d))
  else ascii_of_nat (Z.to_nat (55 + d)).

(** Hexadecimal digits of [n], most significant first, [fuel] digits at
    most. *)
Fixpoint utox (fuel : nat) (n : Z) (acc : list ascii) : list ascii :=
  match fuel with
  | O => acc
  | S fuel' =>
      let acc' := hex_digit (n mod 16) :: acc in
      if n / 16 =? 0 then acc' else utox fuel' (n / 16) acc'
  end.

(** The expansion of ["%0wX"] for a 32-bit value: its digits, filled with
    zeros on the left up to [width] characters. *)
Definition fmt_0X (width : nat) (n : Z) : list ascii :=
  let digits := utox 8 (unsigned n) [] in
  replicate (width - length digits) "0"%char ++ digits.

(** The first [for] loop of a row, from index [i] on with [n] iterations
    to go: two digits and a space for [data[i]], one more space after the
    eighth byte.  Reading past the end of [data] is undefined: [None]. *)
Fixpoint hex_cells (data : list ascii) (i n : nat) : option (list ascii) :=
  match n with
  | O => Some []
  | S n' =>
      c ← data !! i;
      rest ← hex_cells data (S i) n';
      Some (fmt_0X 2 (uchar c) ++ " "%char
            :: (if Nat.eqb i 7 then [" "%char] else []) ++ rest)
  end.

(** The last [for] loop of a row: the byte itself when it is printable,
    a dot otherwise. *)
Fixpoint ascii_cells (data : list ascii) (i n : nat) : option (list ascii) :=
  match n with
  | O => Some []
  | S n' =>
      c ← data !! i;
      rest ← ascii_cells data (S i) n';
      Some ((if (uchar " " <=? uchar c) && (uchar c <=? uchar "~")
             then c else "."%char) :: rest)
  end.

(** The spaces written when the row is not complete. *)
Definition hex_padding (thisline : Z) : list ascii :=
  if thisline <? 16
  then mjoin (replicate (Z.to_nat (16 - thisline)) [" "; " "; " "]%char)
       ++ (if thisline <? 8 then [" "%char] else [])
  else [].

(** One turn of the [while] loop: the row for the first [thisline] bytes
    of [data]. *)
Definition hexdump_row (data : list ascii) (thisline displayaddr : Z)
  : option (list ascii) :=
  cells ← hex_cells data 0 (Z.to_nat thisline);
  chars ← ascii_cells data 0 (Z.to_nat thisline);
  Some (fmt_0X 8 displayaddr ++ [" "; " "]%char
        ++ cells ++ hex_padding thisline
        ++ [" "; " "; "|"]%char ++ chars ++ ["|"%char; LF]).

(** The [while] loop, with [data] the memory from the current pointer
    on.  Every turn takes at least one byte, so [remaining] turns are
    enough; the fuel is not reached before [remaining] is 0. *)
Fixpoint hexdump_loop (fuel : nat) (data : list ascii)
    (remaining displayaddr : Z) : option (list ascii) :=
  match fuel with
  | O => Some []
  | S fuel' =>
      if remaining =? 0 then Some []
      else
        let thisline := if remaining <? 16 then remaining else 16 in
        row ← hexdump_row data thisline displayaddr;
        rest ← hexdump_loop fuel' (drop (Z.to_nat thisline) data)
                 (unsigned (remaining - thisline))
                 (unsigned (displayaddr + thisline));
        Some (row ++ rest)
  end.

(** [hexdump(address, count)], with [data] the memory from [address] on;
    the result is what it prints. *)
Definition hexdump (data : list ascii) (count : Z) : option (list ascii) :=
  hexdump_loop (Z.to_nat (unsigned count)) data (unsigned count) 0.

(** A character that shows on a terminal. *)
Definition printable (c : ascii) : Prop := 32 <= uchar c <= 126.

(** * Properties *)

Ltac unfold_consts :=
  unfold LOG_MAX_TEXT, LOG_ITEM_MAX_SIZE, LOG_DMA_BUFFER_SIZE, INT_MAX, HAL_OK in *.

Ltac unfold_ints := unfold uint16_t, int in *.

(** Projections of updated states. *)
Ltac simpl_state :=
  cbn [_usart2_tx_dma_buffer _log_compose_buffer _queue_tail _queue_head
       _last_dma_count huart2 ld2 set_dma_buffer set_compose_buffer
       set_queue_tail set_queue_head set_last_dma_count set_huart2
       HAL_GPIO_TogglePin] in *.

(** Case analysis on every boolean comparison of integers in the goal. *)
Ltac case_cmp :=
  repeat match goal with
  | |- context [?a <=? ?b] => destruct (Z.leb_spec a b)
  | |- context [?a <? ?b] => destruct (Z.ltb_spec a b)
  | |- context [?a >=? ?b] => rewrite (Z.geb_leb a b)
  | |- context [?a >? ?b] => rewrite (Z.gtb_ltb a b)
  | |- context [?a =? ?b] => destruct (Z.eqb_spec a b)
  end.

Lemma bind_Some {A B : Type} (f : A -> option B) (x : A) :
  (Some x ≫= f) = f x.
Proof. reflexivity. Qed.

Lemma bind_None {A B : Type} (f : A -> option B) : (None ≫= f) = None.
Proof. reflexivity. Qed.

(** One step of a computation in the option monad whose first part has
    been rewritten to its result. *)
Ltac bind_step := rewrite bind_Some; cbv beta iota zeta.

(** ** The model on small inputs *)

Example timestamp_0 : timestamp 0 = ["("; "0"; ")"; " "]%char.
Proof. reflexivity. Qed.

Example timestamp_265407628 :
  timestamp 265407628
  = ["("; "2"; "6"; "5"; "4"; "0"; "7"; "6"; "2"; "8"; ")"; " "]%char.
Proof. reflexivity. Qed.

Example timestamp_max :
  timestamp 4294967295
  = ["("; "4"; "2"; "9"; "4"; "9"; "6"; "7"; "2"; "9"; "5"; ")"; " "]%char.
Proof. reflexivity. Qed.

Example item_length_hello : item_length 42 ["h"; "e"; "l"; "l"; "o"]%char = 11.
Proof. reflexivity. Qed.

(** The first message after [log_init]: 11 bytes are copied to the front
    of the ring and a request for them is issued at once. *)
Example logmsg_hello :
  let st := mkState (replicate 4096 NUL) (replicate 128 NUL) 0 0 0
                    HAL_UART_STATE_READY false in
  (fun r => (take 12 (_usart2_tx_dma_buffer (fst r)), _queue_tail (fst r),
             _queue_head (fst r), _last_dma_count (fst r), huart2 (fst r),
             snd r))
    <$> logmsg false st 42 ["h"; "e"; "l"; "l"; "o"]%char
  = Some (["("; "4"; "2"; ")"; " "; "h"; "e"; "l"; "l"; "o"; LF; NUL]%char,
          11, 0, 11, HAL_UART_STATE_BUSY_TX 0 11, 11).
Proof. vm_compute. reflexivity. Qed.

(** The scenario of the specification, at the end of this ring: 8 bytes
    are queued from index 4090 on; the first request is for the 6 bytes
    up to the end of the ring, the second one for the 2 at its front. *)
Example wrapped_queue_two_requests :
  let st := mkState (replicate 4096 NUL) (replicate 128 NUL) 2 4090 0
                    HAL_UART_STATE_READY false in
  let st1 := fst (restart_dma false st) in
  let st2 := HAL_UART_TxCpltCallback false (set_huart2 st1 HAL_UART_STATE_READY) in
  huart2 st1 = HAL_UART_STATE_BUSY_TX 4090 6 /\
  _queue_head st2 = 0 /\
  huart2 st2 = HAL_UART_STATE_BUSY_TX 0 2.
Proof. vm_compute. repeat split; reflexivity. Qed.

(** ** Space accounting *)

Lemma space_formula_range (head tail : Z) :
  0 <= space_formula head tail <= LOG_DMA_BUFFER_SIZE - 1.
Proof. unfold space_formula; unfold_consts; lia. Qed.

Lemma space_formula_empty (head tail : Z) :
  0 <= head < LOG_DMA_BUFFER_SIZE -> 0 <= tail < LOG_DMA_BUFFER_SIZE ->
  space_formula head tail = LOG_DMA_BUFFER_SIZE - 1 <-> head = tail.
Proof. unfold space_formula; unfold_consts; lia. Qed.

(** The expression in [logmsg] is the formula of the specification. *)
Lemma log_space_available_formula (st : state) :
  index_ok st ->
  log_space_available st = space_formula (_queue_head st) (_queue_tail st).
Proof.
  unfold index_ok, log_space_available, space_formula; unfold_consts; unfold_ints.
  intros [Hh Ht]; case_cmp; lia.
Qed.

(** The stand-alone function is the formula with the two indices
    exchanged, except on an empty queue, where it is negative. *)
Lemma queue_space_available_exchanged (head tail : Z) :
  0 <= head < LOG_DMA_BUFFER_SIZE -> 0 <= tail < LOG_DMA_BUFFER_SIZE ->
  head <> tail ->
  queue_space_available head tail = space_formula tail head.
Proof.
  unfold queue_space_available, space_formula; unfold_consts; unfold_ints.
  intros Hh Ht Hne; case_cmp; lia.
Qed.

Lemma queue_space_available_empty (i : Z) :
  0 <= i < LOG_DMA_BUFFER_SIZE -> queue_space_available i i = -1.
Proof.
  unfold queue_space_available; unfold_consts; unfold_ints.
  intros Hi; case_cmp; lia.
Qed.

(** The part of C2 that holds: the expression in [logmsg] is between 0
    and [C - 1], and is [C - 1] exactly on an empty queue. *)
Lemma log_space_available_range (st : state) :
  index_ok st ->
  0 <= log_space_available st <= LOG_DMA_BUFFER_SIZE - 1 /\
  (log_space_available st = LOG_DMA_BUFFER_SIZE - 1
   <-> _queue_head st = _queue_tail st).
Proof.
  intros Hi. rewrite (log_space_available_formula _ Hi).
  split; [apply space_formula_range|apply space_formula_empty; apply Hi].
Qed.

(** C2 (the code departs from the claim).  On the empty queue at index 0
    the specification's formula and the expression inside [logmsg] both
    give [LOG_DMA_BUFFER_SIZE - 1] bytes, as the comment above
    [queue_space_available] announces, while the function itself
    returns -1, which is not in the range from 0 to
    [LOG_DMA_BUFFER_SIZE - 1]. *)
Theorem queue_space_available_empty_queue :
  let st := mkState (replicate 4096 NUL) (replicate 128 NUL) 0 0 0
                    HAL_UART_STATE_READY false in
  queue_space_available (_queue_head st) (_queue_tail st) = -1 /\
  space_formula (_queue_head st) (_queue_tail st) = LOG_DMA_BUFFER_SIZE - 1 /\
  log_space_available st = LOG_DMA_BUFFER_SIZE - 1 /\
  ~ (0 <= queue_space_available (_queue_head st) (_queue_tail st)).
Proof.
  intros st. split; [reflexivity|]. split; [reflexivity|].
  split; [reflexivity|].
  change (queue_space_available (_queue_head st) (_queue_tail st)) with (-1).
  lia.
Qed.

(** ** The transmit pump *)

Lemma dma_bytes_pending (st : state) :
  index_ok st -> dma_bytes st = pending st.
Proof.
  unfold index_ok, dma_bytes, pending; unfold_consts; unfold_ints.
  intros [Hh Ht]; case_cmp; lia.
Qed.

Lemma qty_to_send_min (st : state) :
  index_ok st ->
  qty_to_send st = Z.min (pending st) (LOG_DMA_BUFFER_SIZE - _queue_head st).
Proof.
  intros Hi. unfold qty_to_send. rewrite (dma_bytes_pending _ Hi).
  destruct Hi as [Hh Ht]. unfold pending; unfold_consts; unfold_ints.
  case_cmp; lia.
Qed.

Lemma restart_dma_busy (za : bool) (st : state) :
  HAL_UART_GetState_ready (huart2 st) = false -> restart_dma za st = (st, 0).
Proof. intros Hb. unfold restart_dma. now rewrite Hb. Qed.

Lemma restart_dma_ready (za : bool) (st : state) :
  HAL_UART_GetState_ready (huart2 st) = true ->
  restart_dma za st =
  (set_huart2 (set_last_dma_count st (qty_to_send st))
     (HAL_UART_Transmit_DMA za (huart2 st) (_queue_head st) (qty_to_send st)),
   qty_to_send st).
Proof. intros Hr. unfold restart_dma. now rewrite Hr. Qed.

(** C5.  With both indices inside the ring: a busy engine makes
    [restart_dma] return 0 and leave every global as it is; a ready one
    is asked for [runnable = min (pending, C - head)] bytes from offset
    [head], where [pending] is [tail - head] or [C - (head - tail)];
    [runnable] is stored in [_last_dma_count] and returned, it is at most
    [C - head], and when it is not zero the engine is busy with exactly
    that request afterwards. *)
Theorem restart_dma_spec (za : bool) (st : state) :
  0 <= _queue_head st < LOG_DMA_BUFFER_SIZE ->
  0 <= _queue_tail st < LOG_DMA_BUFFER_SIZE ->
  let pending := if _queue_head st <=? _queue_tail st
                 then _queue_tail st - _queue_head st
                 else LOG_DMA_BUFFER_SIZE - (_queue_head st - _queue_tail st) in
  let runnable := Z.min pending (LOG_DMA_BUFFER_SIZE - _queue_head st) in
  (HAL_UART_GetState_ready (huart2 st) = false -> restart_dma za st = (st, 0)) /\
  (HAL_UART_GetState_ready (huart2 st) = true ->
   restart_dma za st =
   (set_huart2 (set_last_dma_count st runnable)
      (HAL_UART_Transmit_DMA za (huart2 st) (_queue_head st) runnable),
    runnable) /\
   _last_dma_count (fst (restart_dma za st)) = runnable /\
   0 <= runnable <= LOG_DMA_BUFFER_SIZE - _queue_head st /\
   (runnable <> 0 ->
    huart2 (fst (restart_dma za st)) =
    HAL_UART_STATE_BUSY_TX (_queue_head st) runnable)).
Proof.
  intros Hh Ht pend runnable.
  assert (Hq : qty_to_send st = runnable).
  { rewrite qty_to_send_min by (split; assumption).
    subst runnable pend. unfold pending. unfold_consts. case_cmp; lia. }
  split; [apply restart_dma_busy|].
  intros Hr. rewrite (restart_dma_ready _ _ Hr), Hq. cbn.
  split; [reflexivity|]. split; [reflexivity|].
  split; [subst runnable pend; unfold_consts; case_cmp; lia|].
  intros Hnz. destruct (huart2 st); [|discriminate]. cbn.
  destruct (Z.eqb_spec runnable 0); [contradiction|reflexivity].
Qed.

Lemma restart_dma_spec_witness :
  let st := mkState (replicate 4096 NUL) (replicate 128 NUL) 2 4090 0
                    HAL_UART_STATE_READY false in
  restart_dma false st =
  (mkState (replicate 4096 NUL) (replicate 128 NUL) 2 4090 6
           (HAL_UART_STATE_BUSY_TX 4090 6) false, 6).
Proof.
  intros st.
  destruct (restart_dma_spec false st) as [_ H];
    [subst st; cbn; unfold_consts; lia | subst st; cbn; unfold_consts; lia |].
  destruct (H eq_refl) as [E _]. exact E.
Defined.

(** ** The completion callback *)

(** On an empty queue the callback returns at once. *)
Lemma tx_cplt_callback_noop (za : bool) (st : state) :
  _queue_head st = _queue_tail st -> HAL_UART_TxCpltCallback za st = st.
Proof.
  intros He. unfold HAL_UART_TxCpltCallback.
  rewrite He, Z.eqb_refl. reflexivity.
Qed.

(** C9.  Called on an empty queue ([head == tail]), the callback returns
    at once and the state is as it was: head, tail and [_last_dma_count]
    are unchanged, the engine is not asked for anything and the LED is
    not toggled. *)
Theorem tx_cplt_callback_empty (za : bool) (st : state) :
  _queue_head st = _queue_tail st ->
  let st' := HAL_UART_TxCpltCallback za st in
  st' = st /\
  _queue_head st' = _queue_head st /\
  _queue_tail st' = _queue_tail st /\
  _last_dma_count st' = _last_dma_count st /\
  huart2 st' = huart2 st /\
  ld2 st' = ld2 st.
Proof.
  intros He st'. subst st'. rewrite (tx_cplt_callback_noop za st He).
  repeat split; reflexivity.
Qed.

Lemma tx_cplt_callback_empty_witness :
  let st := mkState (replicate 4096 NUL) (replicate 128 NUL) 7 7 5
                    HAL_UART_STATE_READY false in
  HAL_UART_TxCpltCallback false st = st.
Proof.
  intros st. apply (tx_cplt_callback_empty false st). reflexivity.
Defined.

Lemma restart_dma_head_tail (za : bool) (st : state) :
  _queue_head (fst (restart_dma za st)) = _queue_head st /\
  _queue_tail (fst (restart_dma za st)) = _queue_tail st /\
  _usart2_tx_dma_buffer (fst (restart_dma za st)) = _usart2_tx_dma_buffer st /\
  _log_compose_buffer (fst (restart_dma za st)) = _log_compose_buffer st.
Proof.
  unfold restart_dma.
  destruct (HAL_UART_GetState_ready (huart2 st)); cbn; repeat split; reflexivity.
Qed.

(** The steps of the callback on a non-empty queue, when the recorded
    request ends inside the ring. *)
Lemma tx_cplt_callback_steps (za : bool) (st : state) :
  0 <= _queue_head st < LOG_DMA_BUFFER_SIZE ->
  count_ok st ->
  _queue_head st <> _queue_tail st ->
  HAL_UART_TxCpltCallback za st =
  HAL_GPIO_TogglePin
    (fst (restart_dma za
       (set_last_dma_count
          (set_queue_head st
             ((_queue_head st + _last_dma_count st) mod LOG_DMA_BUFFER_SIZE)) 0))).
Proof.
  intros Hh Hc Hne. unfold HAL_UART_TxCpltCallback.
  destruct (Z.eqb_spec (_queue_head st) (_queue_tail st)); [contradiction|].
  unfold count_ok in Hc. cbn.
  assert (Hu : uint16_t (_queue_head st + _last_dma_count st)
               = _queue_head st + _last_dma_count st)
    by (unfold_consts; unfold_ints; lia).
  rewrite Hu.
  destruct (Z.geb_spec (_queue_head st + _last_dma_count st) LOG_DMA_BUFFER_SIZE);
    cbn; do 4 f_equal; unfold set_queue_head; cbn; f_equal;
    unfold_consts; unfold_ints; lia.
Qed.

(** C6 (as amended).  On a non-empty queue, with the head inside the ring
    and a recorded request that ends inside the ring (every request
    [restart_dma] records does), the callback moves the head to
    [(head + _last_dma_count) mod C], leaves the tail alone, clears
    [_last_dma_count] and then calls [restart_dma]: on return
    [_last_dma_count] is the length of the request issued for the next
    run of bytes if the engine was ready, and 0 if it was busy. *)
Theorem tx_cplt_callback_advances_head (za : bool) (st : state) :
  0 <= _queue_head st < LOG_DMA_BUFFER_SIZE ->
  count_ok st ->
  _queue_head st <> _queue_tail st ->
  let head' := (_queue_head st + _last_dma_count st) mod LOG_DMA_BUFFER_SIZE in
  let st' := HAL_UART_TxCpltCallback za st in
  _queue_head st' = head' /\
  _queue_tail st' = _queue_tail st /\
  _last_dma_count st' =
    (if HAL_UART_GetState_ready (huart2 st)
     then qty_to_send (set_queue_head st head') else 0).
Proof.
  intros Hh Hc Hne head' st'. subst st'.
  rewrite (tx_cplt_callback_steps za st Hh Hc Hne). fold head'.
  unfold restart_dma. cbn.
  destruct (HAL_UART_GetState_ready (huart2 st)); cbn; repeat split; reflexivity.
Qed.

Lemma tx_cplt_callback_advances_head_witness :
  let st := mkState (replicate 4096 NUL) (replicate 128 NUL) 2 4090 6
                    HAL_UART_STATE_READY false in
  _queue_head (HAL_UART_TxCpltCallback false st) = 0 /\
  _queue_tail (HAL_UART_TxCpltCallback false st) = 2 /\
  _last_dma_count (HAL_UART_TxCpltCallback false st) = 2.
Proof.
  intros st.
  apply (tx_cplt_callback_advances_head false st);
    subst st; unfold count_ok; cbn; unfold_consts; lia.
Defined.

(** C6 (as stated, refuted).  Two items of five bytes were enqueued and
    the request for the first one has completed: the callback moves the
    head from 0 to 5 and returns with [_last_dma_count] equal to 5, the
    length of the request it has just issued for the second item, not 0. *)
Lemma tx_cplt_callback_count_not_reset :
  let st := mkState (replicate 4096 NUL) (replicate 128 NUL) 10 0 5
                    HAL_UART_STATE_READY false in
  _queue_head st <> _queue_tail st /\
  _queue_head (HAL_UART_TxCpltCallback false st) = 5 /\
  _last_dma_count (HAL_UART_TxCpltCallback false st) = 5 /\
  _last_dma_count (HAL_UART_TxCpltCallback false st) <> 0.
Proof. vm_compute. repeat split; discriminate. Qed.

(** The state of that lemma arises after [log_init] from two calls of
    [logmsg] with an empty text at tick 0 and the completion of the first
    request. *)
Example count_not_reset_in_a_run :
  (fun w => (_queue_head (mcu w), _queue_tail (mcu w),
             _last_dma_count (mcu w), huart2 (mcu w)))
    <$> run false (power_on (replicate 4096 NUL) (replicate 128 NUL))
          [ev_logmsg 0 []; ev_logmsg 0 []; ev_tx_complete]
  = Some (5, 10, 5, HAL_UART_STATE_BUSY_TX 5 5).
Proof. vm_compute. reflexivity. Qed.

(** ** Memory *)

Lemma sizeof_app (a b : list ascii) : sizeof (a ++ b) = sizeof a + sizeof b.
Proof. unfold sizeof. rewrite length_app. lia. Qed.

Lemma sizeof_take (a : list ascii) (n : Z) :
  sizeof (take (Z.to_nat n) a) = Z.min (Z.max 0 n) (sizeof a).
Proof. unfold sizeof. rewrite length_take. lia. Qed.

Lemma sizeof_drop (a : list ascii) (n : Z) :
  sizeof (drop (Z.to_nat n) a) = Z.max 0 (sizeof a - Z.max 0 n).
Proof. unfold sizeof. rewrite length_drop. lia. Qed.

Lemma sizeof_nonneg (a : list ascii) : 0 <= sizeof a.
Proof. unfold sizeof. lia. Qed.

Lemma write_Some (a : list ascii) (off : Z) (bs : list ascii) :
  0 <= off -> off + sizeof bs <= sizeof a ->
  write a off bs =
  Some (take (Z.to_nat off) a ++ bs ++ drop (Z.to_nat (off + sizeof bs)) a).
Proof.
  intros H0 H1. unfold write.
  destruct (Z.leb_spec 0 off); [|lia].
  destruct (Z.leb_spec (off + sizeof bs) (sizeof a)); [|lia]. reflexivity.
Qed.

Lemma write_inv (a : list ascii) (off : Z) (bs a' : list ascii) :
  write a off bs = Some a' ->
  0 <= off /\ off + sizeof bs <= sizeof a /\
  a' = take (Z.to_nat off) a ++ bs ++ drop (Z.to_nat (off + sizeof bs)) a.
Proof.
  unfold write.
  destruct (Z.leb_spec 0 off); [|discriminate].
  destruct (Z.leb_spec (off + sizeof bs) (sizeof a)); [|discriminate].
  cbn. intros [= <-]. auto.
Qed.

Lemma write_sizeof (a : list ascii) (off : Z) (bs a' : list ascii) :
  write a off bs = Some a' -> sizeof a' = sizeof a.
Proof.
  intros (H0 & H1 & ->)%write_inv.
  pose proof (sizeof_nonneg bs).
  rewrite !sizeof_app, sizeof_take, sizeof_drop. lia.
Qed.

(** A write changes the bytes it covers and no other. *)
Lemma write_lookup (a : list ascii) (off : Z) (bs a' : list ascii) (i : nat) :
  write a off bs = Some a' ->
  a' !! i = if decide (off <= Z.of_nat i < off + sizeof bs)
            then bs !! Z.to_nat (Z.of_nat i - off) else a !! i.
Proof.
  intros (H0 & H1 & ->)%write_inv. unfold sizeof in *.
  destruct (decide (Z.of_nat i < off)) as [Hlt|Hge].
  - rewrite decide_False by lia.
    rewrite lookup_app_l by (rewrite length_take; lia).
    apply lookup_take_lt. lia.
  - rewrite lookup_app_r by (rewrite length_take; lia).
    rewrite length_take.
    replace (i - Z.to_nat off `min` length a)%nat
      with (Z.to_nat (Z.of_nat i - off)) by lia.
    case_decide as Hin.
    + apply lookup_app_l. lia.
    + rewrite lookup_app_r by lia. rewrite lookup_drop. f_equal. lia.
Qed.

Lemma memcpy_inv (dst : list ascii) (doff : Z) (src : list ascii) (soff n : Z)
    (dst' : list ascii) :
  memcpy dst doff src soff n = Some dst' ->
  0 <= soff /\ 0 <= n /\ soff + n <= sizeof src /\
  0 <= doff /\ doff + n <= sizeof dst /\
  write dst doff (take (Z.to_nat n) (drop (Z.to_nat soff) src)) = Some dst'.
Proof.
  unfold memcpy.
  destruct (Z.leb_spec 0 soff); [|discriminate].
  destruct (Z.leb_spec 0 n); [|discriminate].
  destruct (Z.leb_spec (soff + n) (sizeof src)); [|discriminate].
  cbn. intros Hw. pose proof (write_inv _ _ _ _ Hw) as (H2 & H3 & _).
  rewrite sizeof_take, sizeof_drop in H3. repeat split; auto; lia.
Qed.

Lemma memcpy_Some (dst : list ascii) (doff : Z) (src : list ascii) (soff n : Z) :
  0 <= soff -> 0 <= n -> soff + n <= sizeof src ->
  0 <= doff -> doff + n <= sizeof dst ->
  exists dst', memcpy dst doff src soff n = Some dst'.
Proof.
  intros. unfold memcpy.
  destruct (Z.leb_spec 0 soff); [|lia].
  destruct (Z.leb_spec 0 n); [|lia].
  destruct (Z.leb_spec (soff + n) (sizeof src)); [|lia].
  cbn. rewrite write_Some; [eauto|lia|].
  rewrite sizeof_take, sizeof_drop. lia.
Qed.

Lemma memcpy_sizeof (dst : list ascii) (doff : Z) (src : list ascii) (soff n : Z)
    (dst' : list ascii) :
  memcpy dst doff src soff n = Some dst' -> sizeof dst' = sizeof dst.
Proof. intros (_ & _ & _ & _ & _ & Hw)%memcpy_inv. eapply write_sizeof, Hw. Qed.

(** After [memcpy], byte [doff + k] of the destination is byte [soff + k]
    of the source for [k < n]; the other bytes are as before. *)
Lemma memcpy_lookup (dst : list ascii) (doff : Z) (src : list ascii) (soff n : Z)
    (dst' : list ascii) (i : nat) :
  memcpy dst doff src soff n = Some dst' ->
  dst' !! i = if decide (doff <= Z.of_nat i < doff + n)
              then src !! Z.to_nat (soff + (Z.of_nat i - doff)) else dst !! i.
Proof.
  intros (H0 & H1 & H2 & H3 & H4 & Hw)%memcpy_inv.
  rewrite (write_lookup _ _ _ _ i Hw), sizeof_take, sizeof_drop.
  replace (Z.min (Z.max 0 n) (Z.max 0 (sizeof src - Z.max 0 soff))) with n by lia.
  repeat case_decide; try lia; [|reflexivity].
  rewrite lookup_take_lt by lia. rewrite lookup_drop. f_equal. lia.
Qed.

Lemma store_inv (a : list ascii) (i : Z) (c : ascii) (a' : list ascii) :
  store a i c = Some a' ->
  0 <= i < sizeof a /\ a' = <[Z.to_nat i := c]> a.
Proof.
  unfold store.
  destruct (Z.leb_spec 0 i); [|discriminate].
  destruct (Z.ltb_spec i (sizeof a)); [|discriminate].
  cbn. intros [= <-]. auto.
Qed.

Lemma store_sizeof (a : list ascii) (i : Z) (c : ascii) (a' : list ascii) :
  store a i c = Some a' -> sizeof a' = sizeof a.
Proof. intros [_ ->]%store_inv. unfold sizeof. now rewrite length_insert. Qed.

(** ** The renderer *)

Lemma utoa_length (fuel : nat) (n : Z) (acc : list ascii) :
  (length acc <= length (utoa fuel n acc) <= fuel + length acc)%nat /\
  (0 < fuel -> length acc < length (utoa fuel n acc))%nat.
Proof.
  revert n acc. induction fuel as [|fuel IH]; intros n acc; cbn.
  - lia.
  - destruct (n / 10 =? 0); cbn.
    + lia.
    + specialize (IH (n / 10) (digit (n mod 10) :: acc)). cbn in IH. lia.
Qed.

(** Ten digits are enough for a 32-bit value: more fuel prints the
    same. *)
Lemma utoa_fuel (fuel k : nat) (n : Z) (acc : list ascii) :
  (0 < fuel)%nat -> 0 <= n < 10 ^ Z.of_nat fuel ->
  utoa (fuel + k) n acc = utoa fuel n acc.
Proof.
  revert n acc. induction fuel as [|fuel IH]; intros n acc Hf Hn; [lia|].
  cbn [utoa Nat.add].
  destruct (Z.eqb_spec (n / 10) 0) as [Hz|Hnz]; [reflexivity|].
  rewrite Nat2Z.inj_succ, Z.pow_succ_r in Hn by lia.
  destruct fuel as [|fuel].
  - change (10 ^ Z.of_nat 0) with 1 in Hn. lia.
  - apply IH; [lia|]. set (p := 10 ^ Z.of_nat (S fuel)) in *. lia.
Qed.

Lemma timestamp_all_digits (tick : Z) (k : nat) :
  utoa (10 + k) (tick mod 4294967296) [] = utoa 10 (tick mod 4294967296) [].
Proof.
  apply utoa_fuel; [lia|]. change (10 ^ Z.of_nat 10) with 10000000000. lia.
Qed.

(** The time stamp has between 4 and 13 characters. *)
Lemma timestamp_sizeof (tick : Z) : 4 <= sizeof (timestamp tick) <= 13.
Proof.
  unfold timestamp, sizeof. cbn [length]. rewrite length_app. cbn [length].
  pose proof (utoa_length 10 (tick mod 4294967296) []) as [H1 H2].
  cbn [length] in *. lia.
Qed.

Lemma c_strlen_timestamp (tick : Z) :
  uint16_t (c_strlen (timestamp tick)) = sizeof (timestamp tick).
Proof.
  pose proof (timestamp_sizeof tick). unfold c_strlen; unfold_consts; unfold_ints.
  case_cmp; lia.
Qed.

(** The item is longer than the time stamp and at most 128 bytes longer. *)
Lemma item_length_range (tick : Z) (text : list ascii) :
  sizeof (timestamp tick) + 1 <= item_length tick text
  <= sizeof (timestamp tick) + LOG_MAX_TEXT.
Proof.
  unfold item_length. rewrite c_strlen_timestamp.
  pose proof (timestamp_sizeof tick).
  unfold_consts; unfold_ints. case_cmp; lia.
Qed.

Lemma snprintf_Some (a : list ascii) (off cap : Z) (s : list ascii) :
  0 <= off -> 0 < cap -> off + cap <= sizeof a ->
  exists a', snprintf a off cap s = Some (a', c_strlen s) /\ sizeof a' = sizeof a.
Proof.
  intros H0 H1 H2. unfold snprintf.
  destruct (Z.leb_spec cap 0); [lia|].
  assert (Hs : sizeof (take (Z.to_nat (cap - 1)) s ++ [NUL]) <= cap).
  { rewrite sizeof_app, sizeof_take. unfold sizeof at 2. cbn. lia. }
  pose proof (write_Some a off (take (Z.to_nat (cap - 1)) s ++ [NUL])) as Hw.
  rewrite Hw by lia. cbn. eexists; split; [reflexivity|].
  eapply write_sizeof, Hw; lia.
Qed.

(** The renderer stays inside the compose buffer and the length computed
    from its results is [item_length]. *)
Lemma render_item_Some (cb : list ascii) (tick : Z) (text : list ascii) :
  sizeof cb = LOG_ITEM_MAX_SIZE ->
  exists cb', render_item cb tick text = Some (cb', item_length tick text) /\
              sizeof cb' = LOG_ITEM_MAX_SIZE.
Proof.
  intros Hcb. unfold render_item.
  destruct (snprintf_Some cb 0 LOG_MAX_TEXT (timestamp tick))
    as (cb1 & -> & Hcb1); [lia|unfold_consts; lia|unfold_consts; lia|].
  bind_step. pose proof (timestamp_sizeof tick) as Hts.
  destruct (snprintf_Some cb1 (uint16_t (c_strlen (timestamp tick)))
              (LOG_MAX_TEXT - uint16_t (c_strlen (timestamp tick))) text)
    as (cb2 & -> & Hcb2);
    [rewrite c_strlen_timestamp; lia
    |rewrite c_strlen_timestamp; unfold_consts; lia
    |rewrite c_strlen_timestamp; unfold_consts; lia|].
  bind_step. exists cb2. split; [reflexivity|congruence].
Qed.

(** An item whose text fits behind the time stamp has the length of the
    time stamp, the text and the line feed. *)
Lemma item_length_fits (tick : Z) (text : list ascii) :
  sizeof (timestamp tick) + sizeof text < LOG_MAX_TEXT ->
  item_length tick text = sizeof (timestamp tick) + sizeof text + 1.
Proof.
  intros Hfit. unfold item_length. rewrite c_strlen_timestamp.
  pose proof (timestamp_sizeof tick). pose proof (sizeof_nonneg text).
  unfold c_strlen; unfold_consts; unfold_ints. case_cmp; lia.
Qed.

(** A text that the renderer has to cut gives an item length beyond the
    size of the compose buffer: the length returned by [vsnprintf] is
    compared with [LOG_MAX_TEXT], not with the room it was given. *)
Lemma item_length_cut (tick : Z) (text : list ascii) :
  LOG_MAX_TEXT - sizeof (timestamp tick) <= sizeof text <= 65535 ->
  item_length tick text > LOG_ITEM_MAX_SIZE.
Proof.
  intros Hcut. unfold item_length. rewrite c_strlen_timestamp.
  pose proof (timestamp_sizeof tick).
  unfold c_strlen; unfold_consts; unfold_ints. case_cmp; lia.
Qed.

(** The two outcomes of [logmsg] after the renderer. *)
Lemma logmsg_unfold (za : bool) (st : state) (tick : Z) (text : list ascii) :
  sizeof (_log_compose_buffer st) = LOG_ITEM_MAX_SIZE ->
  exists cb, render_item (_log_compose_buffer st) tick text
             = Some (cb, item_length tick text) /\
    sizeof cb = LOG_ITEM_MAX_SIZE /\
    logmsg za st tick text =
    if item_length tick text >? log_space_available st
    then Some (set_compose_buffer st cb, -1)
    else
      cb' ← store cb (item_length tick text - 1) LF;
      st' ← enqueue (set_compose_buffer st cb') (item_length tick text);
      Some (fst (restart_dma za st'), item_length tick text).
Proof.
  intros Hcb. destruct (render_item_Some _ tick text Hcb) as (cb & Hr & Hs).
  exists cb. split; [exact Hr|]. split; [exact Hs|].
  unfold logmsg. rewrite Hr. bind_step. reflexivity.
Qed.

(** An item longer than the space available is turned down. *)
Lemma logmsg_no_room (za : bool) (st : state) (tick : Z) (text : list ascii) :
  sizeof (_log_compose_buffer st) = LOG_ITEM_MAX_SIZE ->
  item_length tick text > log_space_available st ->
  exists cb, sizeof cb = LOG_ITEM_MAX_SIZE /\
             logmsg za st tick text = Some (set_compose_buffer st cb, -1).
Proof.
  intros Hcb Hgt.
  destruct (logmsg_unfold za st tick text Hcb) as (cb & _ & Hs & ->).
  rewrite (proj2 (Z.gtb_gt _ _)) by exact Hgt.
  exists cb. split; [exact Hs|reflexivity].
Qed.

(** C4.  When the length of the item exceeds the space available,
    [logmsg] returns -1 and only the compose buffer has changed: the ring,
    head, tail, the recorded count, the engine and the LED are as
    before. *)
Theorem logmsg_rejects_atomically (za : bool) (st : state) (tick : Z)
    (text : list ascii) :
  sizeof (_log_compose_buffer st) = LOG_ITEM_MAX_SIZE ->
  item_length tick text > log_space_available st ->
  exists st', logmsg za st tick text = Some (st', -1) /\
    _usart2_tx_dma_buffer st' = _usart2_tx_dma_buffer st /\
    _queue_head st' = _queue_head st /\
    _queue_tail st' = _queue_tail st /\
    _last_dma_count st' = _last_dma_count st /\
    huart2 st' = huart2 st /\
    ld2 st' = ld2 st.
Proof.
  intros Hcb Hgt.
  destruct (logmsg_no_room za st tick text Hcb Hgt) as (cb & _ & ->).
  exists (set_compose_buffer st cb). repeat split; reflexivity.
Qed.

Lemma logmsg_rejects_atomically_witness :
  let st := mkState (replicate 4096 NUL) (replicate 128 NUL) 4095 0 0
                    HAL_UART_STATE_READY false in
  item_length 0 [] = 5 /\ log_space_available st = 0 /\
  exists st', logmsg false st 0 [] = Some (st', -1) /\
    _usart2_tx_dma_buffer st' = _usart2_tx_dma_buffer st /\
    _queue_head st' = _queue_head st /\
    _queue_tail st' = _queue_tail st /\
    _last_dma_count st' = _last_dma_count st /\
    huart2 st' = huart2 st /\
    ld2 st' = ld2 st.
Proof.
  intros st. split; [reflexivity|]. split; [reflexivity|].
  apply (logmsg_rejects_atomically false st 0 []); reflexivity.
Defined.

(** When there is room in the ring for an item longer than the compose
    buffer, the line feed is stored outside the buffer. *)
Lemma logmsg_overrun (za : bool) (st : state) (tick : Z) (text : list ascii) :
  sizeof (_log_compose_buffer st) = LOG_ITEM_MAX_SIZE ->
  item_length tick text > LOG_ITEM_MAX_SIZE ->
  item_length tick text <= log_space_available st ->
  logmsg za st tick text = None.
Proof.
  intros Hcb Hlong Hroom.
  destruct (logmsg_unfold za st tick text Hcb) as (cb & _ & Hs & ->).
  destruct (Z.gtb_spec (item_length tick text) (log_space_available st)); [lia|].
  unfold store. rewrite Hs.
  destruct (Z.ltb_spec (item_length tick text - 1) LOG_ITEM_MAX_SIZE); [lia|].
  rewrite andb_false_r. reflexivity.
Qed.

(** C3 (the code departs from the claim).  At tick 0 the time stamp has 4
    characters; with a text of 124 characters the length computed for the
    item is 129, one more than [LOG_ITEM_MAX_SIZE], and on the empty queue
    [logmsg] then stores the line feed at index 128 of the compose
    buffer, outside the array. *)
Theorem item_length_exceeds_compose_buffer :
  let text := replicate 124 "a"%char in
  let st := mkState (replicate 4096 NUL) (replicate 128 NUL) 0 0 0
                    HAL_UART_STATE_READY false in
  sizeof (timestamp 0) = 4 /\
  item_length 0 text = 129 /\
  item_length 0 text > LOG_ITEM_MAX_SIZE /\
  item_length 0 text <= log_space_available st /\
  (forall cb, sizeof cb = LOG_ITEM_MAX_SIZE ->
              store cb (item_length 0 text - 1) LF = None) /\
  logmsg false st 0 text = None /\
  logmsg true st 0 text = None.
Proof.
  intros text st.
  split; [reflexivity|]. split; [reflexivity|]. split; [reflexivity|].
  split; [vm_compute; discriminate|].
  split.
  - intros cb Hcb. change (item_length 0 text - 1) with 128.
    unfold store. rewrite Hcb. reflexivity.
  - split; vm_compute; reflexivity.
Qed.

(** ** The ring *)

Lemma ring_read_length (ring : list ascii) (start n : Z) :
  sizeof ring = LOG_DMA_BUFFER_SIZE ->
  0 <= start < LOG_DMA_BUFFER_SIZE -> 0 <= n <= LOG_DMA_BUFFER_SIZE ->
  sizeof (ring_read ring start n) = n.
Proof.
  intros Hs Hst Hn. unfold ring_read.
  rewrite sizeof_take, sizeof_drop, sizeof_app. lia.
Qed.

(** Byte [k] of a read from [start] is the byte of the ring at index
    [(start + k) mod C]. *)
Lemma ring_read_lookup (ring : list ascii) (start n : Z) (k : nat) :
  sizeof ring = LOG_DMA_BUFFER_SIZE ->
  0 <= start < LOG_DMA_BUFFER_SIZE -> 0 <= n <= LOG_DMA_BUFFER_SIZE ->
  Z.of_nat k < n ->
  ring_read ring start n !! k
  = ring !! Z.to_nat ((start + Z.of_nat k) mod LOG_DMA_BUFFER_SIZE).
Proof.
  intros Hs Hst Hn Hk. unfold ring_read, sizeof in *.
  rewrite lookup_take_lt by lia. rewrite lookup_drop.
  destruct (decide (start + Z.of_nat k < LOG_DMA_BUFFER_SIZE)) as [Hlt|Hge].
  - rewrite lookup_app_l by lia. f_equal. unfold_consts. lia.
  - rewrite lookup_app_r by lia. f_equal. unfold_consts. lia.
Qed.

Lemma ring_read_lookup_ge (ring : list ascii) (start n : Z) (k : nat) :
  sizeof ring = LOG_DMA_BUFFER_SIZE ->
  0 <= start < LOG_DMA_BUFFER_SIZE -> 0 <= n <= LOG_DMA_BUFFER_SIZE ->
  n <= Z.of_nat k ->
  ring_read ring start n !! k = None.
Proof.
  intros Hs Hst Hn Hk. apply lookup_ge_None_2.
  pose proof (ring_read_length ring start n Hs Hst Hn) as Hl.
  unfold sizeof in Hl. lia.
Qed.

(** A read that does not reach the end of the ring is what the engine
    reads for a request. *)
Lemma ring_read_dma_read (ring : list ascii) (start n : Z) :
  sizeof ring = LOG_DMA_BUFFER_SIZE ->
  0 <= start -> 0 <= n -> start + n <= LOG_DMA_BUFFER_SIZE ->
  ring_read ring start n = dma_read ring start n.
Proof.
  intros Hs Hst Hn He. unfold ring_read, dma_read, sizeof in *.
  rewrite drop_app_le by lia. apply take_app_le.
  rewrite length_drop. lia.
Qed.

(** A read splits at any point. *)
Lemma ring_read_app (ring : list ascii) (start a b : Z) :
  sizeof ring = LOG_DMA_BUFFER_SIZE ->
  0 <= start < LOG_DMA_BUFFER_SIZE -> 0 <= a -> 0 <= b ->
  a + b <= LOG_DMA_BUFFER_SIZE ->
  ring_read ring start (a + b)
  = ring_read ring start a
    ++ ring_read ring ((start + a) mod LOG_DMA_BUFFER_SIZE) b.
Proof.
  intros Hs Hst Ha Hb Hab. apply list_eq. intros k.
  assert (Hm : 0 <= (start + a) mod LOG_DMA_BUFFER_SIZE < LOG_DMA_BUFFER_SIZE)
    by (unfold_consts; lia).
  pose proof (ring_read_length ring start a Hs Hst ltac:(lia)) as Hla.
  unfold sizeof in Hla.
  destruct (decide (Z.of_nat k < a)) as [Hka|Hka].
  - rewrite lookup_app_l by lia.
    rewrite !ring_read_lookup by lia. reflexivity.
  - rewrite lookup_app_r by lia.
    destruct (decide (Z.of_nat k < a + b)) as [Hkb|Hkb].
    + rewrite !ring_read_lookup by lia. f_equal. unfold_consts. lia.
    + rewrite !ring_read_lookup_ge by lia. reflexivity.
Qed.

(** ** Copying an item into the ring *)

(** The effect of lines 168 to 177 on a ring of the declared size, for an
    item that lies inside the compose buffer: the copy is defined, the
    tail moves by [n] modulo the ring size, and byte [k] of the compose
    buffer is at index [(tail + k) mod C] for [k < n], the other bytes of
    the ring being as before. *)
Lemma enqueue_spec (st : state) (n : Z) :
  mem_ok st ->
  0 <= _queue_tail st < LOG_DMA_BUFFER_SIZE ->
  0 <= n <= LOG_ITEM_MAX_SIZE ->
  exists ring',
    enqueue st n =
    Some (set_queue_tail (set_dma_buffer st ring')
            ((_queue_tail st + n) mod LOG_DMA_BUFFER_SIZE)) /\
    copied_at (_usart2_tx_dma_buffer st) (_queue_tail st)
              (_log_compose_buffer st) n ring' /\
    (_queue_tail st + n >= LOG_DMA_BUFFER_SIZE ->
     two_copies (_usart2_tx_dma_buffer st) (_queue_tail st)
                (_log_compose_buffer st) n ring') /\
    (_queue_tail st + n < LOG_DMA_BUFFER_SIZE ->
     memcpy (_usart2_tx_dma_buffer st) (_queue_tail st) (_log_compose_buffer st)
            0 n = Some ring').
Proof.
  intros [Hring Hcb] Ht Hn. unfold enqueue.
  destruct (Z.geb_spec (_queue_tail st + n) LOG_DMA_BUFFER_SIZE) as [Hwrap|Hflat].
  - assert (Hl : uint16_t (LOG_DMA_BUFFER_SIZE - _queue_tail st)
                 = LOG_DMA_BUFFER_SIZE - _queue_tail st)
      by (unfold_consts; unfold_ints; lia).
    rewrite Hl.
    destruct (memcpy_Some (_usart2_tx_dma_buffer st) (_queue_tail st)
                (_log_compose_buffer st) 0 (LOG_DMA_BUFFER_SIZE - _queue_tail st))
      as [ring1 Hm1]; [unfold_consts; lia..|].
    pose proof (memcpy_sizeof _ _ _ _ _ _ Hm1) as Hs1.
    destruct (memcpy_Some ring1 0 (_log_compose_buffer st)
                (LOG_DMA_BUFFER_SIZE - _queue_tail st)
                (n - (LOG_DMA_BUFFER_SIZE - _queue_tail st)))
      as [ring2 Hm2]; [unfold_consts; lia..|].
    pose proof (memcpy_sizeof _ _ _ _ _ _ Hm2) as Hs2.
    rewrite Hm1. bind_step. rewrite Hm2. bind_step.
    exists ring2. split; [|split; [split; [congruence|]|split]].
    + do 2 f_equal. unfold_consts; unfold_ints; lia.
    + intros j Hj.
      rewrite (memcpy_lookup _ _ _ _ _ _ j Hm2), (memcpy_lookup _ _ _ _ _ _ j Hm1).
      repeat case_decide; try (unfold_consts; lia);
        try reflexivity; f_equal; unfold_consts; lia.
    + intros _. exists ring1. split; assumption.
    + lia.
  - destruct (memcpy_Some (_usart2_tx_dma_buffer st) (_queue_tail st)
                (_log_compose_buffer st) 0 n)
      as [ring1 Hm1]; [unfold_consts; lia..|].
    pose proof (memcpy_sizeof _ _ _ _ _ _ Hm1) as Hs1.
    rewrite Hm1. bind_step.
    exists ring1. split; [|split; [split; [congruence|]|split]].
    + do 2 f_equal. unfold_consts; unfold_ints; lia.
    + intros j Hj. rewrite (memcpy_lookup _ _ _ _ _ _ j Hm1).
      repeat case_decide; try (unfold_consts; lia);
        try reflexivity; f_equal; unfold_consts; lia.
    + lia.
    + intros _. reflexivity.
Qed.

(** ** What the compose buffer holds *)

Lemma snprintf_content (a : list ascii) (off cap : Z) (s : list ascii) :
  0 <= off -> 0 < cap -> off + cap <= sizeof a ->
  exists rest,
    snprintf a off cap s =
    Some (take (Z.to_nat off) a ++ take (Z.to_nat (cap - 1)) s ++ NUL :: rest,
          c_strlen s).
Proof.
  intros H0 H1 H2. unfold snprintf.
  destruct (Z.leb_spec cap 0); [lia|].
  assert (Hs : sizeof (take (Z.to_nat (cap - 1)) s ++ [NUL]) <= cap).
  { rewrite sizeof_app, sizeof_take. unfold sizeof at 2. cbn. lia. }
  rewrite write_Some by lia. bind_step.
  eexists. rewrite <- !app_assoc. reflexivity.
Qed.

(** After the renderer the buffer starts with the time stamp, followed by
    the text, cut to the room that is left, and a terminator. *)
Lemma render_item_content (cb : list ascii) (tick : Z) (text : list ascii) :
  sizeof cb = LOG_ITEM_MAX_SIZE ->
  exists rest,
    render_item cb tick text =
    Some (timestamp tick
          ++ take (Z.to_nat (LOG_MAX_TEXT - sizeof (timestamp tick) - 1)) text
          ++ NUL :: rest,
          item_length tick text).
Proof.
  intros Hcb. unfold render_item.
  pose proof (timestamp_sizeof tick) as Hts.
  destruct (snprintf_content cb 0 LOG_MAX_TEXT (timestamp tick))
    as (rest1 & E1); [lia|unfold_consts; lia|unfold_consts; lia|].
  rewrite E1. bind_step. rewrite c_strlen_timestamp.
  change (take (Z.to_nat 0) cb) with (@nil ascii). rewrite app_nil_l.
  rewrite (take_ge (timestamp tick)) by (unfold sizeof in Hts; unfold_consts; lia).
  assert (Hs1 : sizeof (timestamp tick ++ NUL :: rest1) = sizeof cb).
  { destruct (snprintf_Some cb 0 LOG_MAX_TEXT (timestamp tick))
      as (cb1 & E1' & Hs); [lia|unfold_consts; lia|unfold_consts; lia|].
    rewrite E1 in E1'.
    change (take (Z.to_nat 0) cb) with (@nil ascii) in E1'.
    rewrite app_nil_l in E1'.
    rewrite (take_ge (timestamp tick)) in E1'
      by (unfold sizeof in Hts; unfold_consts; lia).
    injection E1' as <-. exact Hs. }
  destruct (snprintf_content (timestamp tick ++ NUL :: rest1)
              (sizeof (timestamp tick))
              (LOG_MAX_TEXT - sizeof (timestamp tick)) text)
    as (rest2 & E2); [lia|unfold_consts; lia|unfold_consts; lia|].
  rewrite E2. bind_step.
  unfold sizeof at 1. rewrite Nat2Z.id, take_app_length.
  exists rest2. unfold item_length. rewrite c_strlen_timestamp. reflexivity.
Qed.

(** An item that lies inside the compose buffer carries the text
    uncut. *)
Lemma item_length_inside (tick : Z) (text : list ascii) :
  item_length tick text <= LOG_ITEM_MAX_SIZE ->
  0 <= item_length tick text - sizeof (timestamp tick) - 1 <= sizeof text /\
  item_length tick text <= LOG_MAX_TEXT /\
  (sizeof text <= 65535 ->
   item_length tick text = sizeof (timestamp tick) + sizeof text + 1).
Proof.
  unfold item_length. rewrite c_strlen_timestamp.
  pose proof (timestamp_sizeof tick). pose proof (sizeof_nonneg text).
  unfold c_strlen; unfold_consts; unfold_ints. case_cmp; lia.
Qed.

Lemma item_bytes_uncut (tick : Z) (text : list ascii) :
  sizeof (timestamp tick) + sizeof text < LOG_MAX_TEXT ->
  item_bytes tick text = timestamp tick ++ text ++ [LF].
Proof.
  intros Hfit. unfold item_bytes. rewrite (item_length_fits _ _ Hfit).
  rewrite take_ge by (unfold sizeof; lia). reflexivity.
Qed.

Lemma item_bytes_sizeof (tick : Z) (text : list ascii) :
  item_length tick text <= LOG_ITEM_MAX_SIZE ->
  sizeof (item_bytes tick text) = item_length tick text.
Proof.
  intros Hin. destruct (item_length_inside _ _ Hin) as (Hu & _ & _).
  unfold item_bytes. rewrite !sizeof_app, sizeof_take.
  change (sizeof [LF]) with 1. lia.
Qed.

(** After the line feed is stored the compose buffer starts with the
    bytes of the item. *)
Lemma store_line_feed (cb : list ascii) (tick : Z) (text : list ascii)
    (cb1 cb2 : list ascii) :
  sizeof cb = LOG_ITEM_MAX_SIZE ->
  render_item cb tick text = Some (cb1, item_length tick text) ->
  store cb1 (item_length tick text - 1) LF = Some cb2 ->
  item_length tick text <= LOG_ITEM_MAX_SIZE /\
  sizeof cb2 = LOG_ITEM_MAX_SIZE /\
  take (Z.to_nat (item_length tick text)) cb2 = item_bytes tick text.
Proof.
  intros Hcb Hr Hst.
  destruct (render_item_Some cb tick text Hcb) as (cb1' & Hr' & Hs1).
  assert (cb1' = cb1) as -> by congruence.
  destruct (render_item_content cb tick text Hcb) as (rest & Hc').
  assert (Hc : cb1 = timestamp tick
                 ++ take (Z.to_nat (LOG_MAX_TEXT - sizeof (timestamp tick) - 1)) text
                 ++ NUL :: rest) by congruence.
  clear Hc' Hr'.
  pose proof (store_sizeof _ _ _ _ Hst) as Hs2.
  apply store_inv in Hst as [Hi ->].
  assert (Hin : item_length tick text <= LOG_ITEM_MAX_SIZE) by lia.
  split; [exact Hin|]. split; [congruence|].
  destruct (item_length_inside _ _ Hin) as (Hu & Hle & _).
  pose proof (timestamp_sizeof tick) as Hts.
  set (n := item_length tick text) in *.
  set (ts := timestamp tick) in *.
  replace (Z.to_nat n) with (S (Z.to_nat (n - 1))) by lia.
  unfold sizeof in *.
  rewrite (take_S_r _ _ LF) by (apply list_lookup_insert_eq; lia).
  rewrite take_insert_ge by lia.
  unfold item_bytes. fold n ts. rewrite Hc.
  rewrite take_app, (take_ge ts) by lia.
  rewrite take_app_le by (rewrite length_take; unfold_consts; lia).
  rewrite take_take. rewrite <- app_assoc. do 2 f_equal.
  f_equal. unfold sizeof. unfold_consts. lia.
Qed.

(** ** An accepted call of [logmsg] *)

(** What a call that returns a length (not -1, and not an access outside
    an array) has done: the item lies inside the compose buffer and
    in the free space, the compose buffer starts with its bytes, these are
    copied to the ring at the tail, the tail has moved by the length
    modulo the ring size, and [restart_dma] has been called. *)
Lemma logmsg_accepted (za : bool) (st : state) (tick : Z) (text : list ascii)
    (st' : state) (n : Z) :
  mem_ok st ->
  0 <= _queue_tail st < LOG_DMA_BUFFER_SIZE ->
  logmsg za st tick text = Some (st', n) ->
  0 <= n ->
  exists cb' ring',
    n = item_length tick text /\
    n <= log_space_available st /\
    n <= LOG_ITEM_MAX_SIZE /\
    sizeof cb' = LOG_ITEM_MAX_SIZE /\
    take (Z.to_nat n) cb' = item_bytes tick text /\
    copied_at (_usart2_tx_dma_buffer st) (_queue_tail st) cb' n ring' /\
    (_queue_tail st + n >= LOG_DMA_BUFFER_SIZE ->
     two_copies (_usart2_tx_dma_buffer st) (_queue_tail st) cb' n ring') /\
    (_queue_tail st + n < LOG_DMA_BUFFER_SIZE ->
     memcpy (_usart2_tx_dma_buffer st) (_queue_tail st) cb' 0 n = Some ring') /\
    st' = fst (restart_dma za
                 (set_queue_tail
                    (set_dma_buffer (set_compose_buffer st cb') ring')
                    ((_queue_tail st + n) mod LOG_DMA_BUFFER_SIZE))).
Proof.
  intros [Hring Hcb] Ht Hlog Hn.
  destruct (logmsg_unfold za st tick text Hcb) as (cb & Hr & Hs & Hu).
  rewrite Hu in Hlog. clear Hu.
  destruct (Z.gtb_spec (item_length tick text) (log_space_available st))
    as [Hgt|Hle].
  { assert (n = -1) by congruence. lia. }
  destruct (store cb (item_length tick text - 1) LF) as [cb'|] eqn:Hst;
    [|rewrite bind_None in Hlog; discriminate].
  rewrite bind_Some in Hlog. cbv beta in Hlog.
  destruct (store_line_feed _ _ _ _ _ Hcb Hr Hst) as (Hin & Hs' & Htake).
  pose proof (item_length_range tick text) as Hrange.
  pose proof (timestamp_sizeof tick) as Hts.
  destruct (enqueue_spec (set_compose_buffer st cb') (item_length tick text))
    as (ring' & Henq & Hcopied & Hwrap & Hflat);
    [split; assumption|exact Ht|lia|].
  rewrite Henq, bind_Some in Hlog. cbv beta in Hlog.
  change (_queue_tail (set_compose_buffer st cb')) with (_queue_tail st) in *.
  change (_usart2_tx_dma_buffer (set_compose_buffer st cb'))
    with (_usart2_tx_dma_buffer st) in *.
  change (_log_compose_buffer (set_compose_buffer st cb')) with cb' in *.
  assert (Hn' : n = item_length tick text) by congruence.
  assert (Hst' : st' = fst (restart_dma za
                 (set_queue_tail
                    (set_dma_buffer (set_compose_buffer st cb') ring')
                    ((_queue_tail st + item_length tick text)
                       mod LOG_DMA_BUFFER_SIZE)))) by congruence.
  clear Hlog. subst n.
  exists cb', ring'. repeat split; try assumption; try apply Hcopied.
Qed.

(** An item that lies inside the compose buffer and fits in the space
    available is accepted: [logmsg] returns its length. *)
Lemma logmsg_total (za : bool) (st : state) (tick : Z) (text : list ascii) :
  mem_ok st ->
  0 <= _queue_tail st < LOG_DMA_BUFFER_SIZE ->
  item_length tick text <= LOG_ITEM_MAX_SIZE ->
  item_length tick text <= log_space_available st ->
  exists st', logmsg za st tick text = Some (st', item_length tick text).
Proof.
  intros [Hring Hcb] Ht Hin Hroom.
  destruct (logmsg_unfold za st tick text Hcb) as (cb & Hr & Hs & ->).
  destruct (Z.gtb_spec (item_length tick text) (log_space_available st));
    [lia|].
  pose proof (item_length_range tick text) as Hrange.
  pose proof (timestamp_sizeof tick) as Hts.
  unfold store. rewrite Hs.
  destruct (Z.leb_spec 0 (item_length tick text - 1)); [|lia].
  destruct (Z.ltb_spec (item_length tick text - 1) LOG_ITEM_MAX_SIZE); [|lia].
  cbn [andb]. bind_step.
  destruct (enqueue_spec
              (set_compose_buffer st
                 (<[Z.to_nat (item_length tick text - 1):=LF]> cb))
              (item_length tick text))
    as (ring' & -> & _);
    [split; simpl_state; [exact Hring|]|exact Ht|lia|].
  - unfold sizeof in *. now rewrite length_insert.
  - bind_step. eexists. reflexivity.
Qed.

(** Where an accepted call has put the item. *)
Lemma logmsg_accepted_copy (za : bool) (st : state) (tick : Z)
    (text : list ascii) (st' : state) (r : Z) :
  mem_ok st ->
  0 <= _queue_tail st < LOG_DMA_BUFFER_SIZE ->
  logmsg za st tick text = Some (st', r) ->
  0 <= r ->
  let C := LOG_DMA_BUFFER_SIZE in
  let tail := _queue_tail st in
  let n := item_length tick text in
  let item := _log_compose_buffer st' in
  r = n /\
  n <= log_space_available st /\
  take (Z.to_nat n) item = item_bytes tick text /\
  (tail + n >= C ->
   two_copies (_usart2_tx_dma_buffer st) tail item n (_usart2_tx_dma_buffer st') /\
   _queue_tail st' = n - (C - tail)) /\
  (tail + n < C ->
   memcpy (_usart2_tx_dma_buffer st) tail item 0 n
   = Some (_usart2_tx_dma_buffer st') /\
   _queue_tail st' = tail + n) /\
  (forall k : nat, Z.of_nat k < n ->
   _usart2_tx_dma_buffer st' !! Z.to_nat ((tail + Z.of_nat k) mod C)
   = item_bytes tick text !! k).
Proof.
  intros Hmem Ht Hlog Hr C tail n.
  destruct (logmsg_accepted za st tick text st' r Hmem Ht Hlog Hr)
    as (cb' & ring' & Hlen & Hroom & Hin & Hs & Htake & [Hsz Hcp] & Hwrap
        & Hflat & ->).
  fold n in Hlen. subst r.
  destruct (restart_dma_head_tail za
              (set_queue_tail (set_dma_buffer (set_compose_buffer st cb') ring')
                 ((_queue_tail st + n) mod LOG_DMA_BUFFER_SIZE)))
    as (_ & Etail & Ering & Ecb).
  cbv zeta. rewrite Ering, Ecb, Etail.
  cbn [_usart2_tx_dma_buffer _log_compose_buffer _queue_tail
       set_queue_tail set_dma_buffer set_compose_buffer].
  fold tail C.
  split; [reflexivity|]. split; [exact Hroom|]. split; [exact Htake|].
  split; [|split].
  - intros Hw. split; [apply Hwrap, Hw|]. subst C tail. unfold_consts. lia.
  - intros Hf. split; [apply Hflat, Hf|]. subst C tail. unfold_consts. lia.
  - intros k Hk. rewrite Hcp by (subst C tail; unfold_consts; lia).
    rewrite decide_True by (subst C tail; unfold_consts; lia).
    rewrite <- Htake. rewrite lookup_take_lt by lia.
    f_equal. subst C tail. unfold_consts. lia.
Qed.

(** X20.  Take a state with the arrays of their declared sizes and the
    tail inside the ring, and let [n] be the length computed for the item.
    If the item lies inside the compose buffer ([n <= LOG_ITEM_MAX_SIZE])
    and [n] fits in the space available, [logmsg] accepts it (returns
    [n]).  And whenever a call of [logmsg] has a defined result and
    returns a length: [n] fits in the space available; if
    [tail + n >= C] (the copy reaches the end of the ring) the ring is
    the result of two calls of [memcpy], of [C - tail] bytes to index
    [tail] and of the other [n - (C - tail)] bytes to index 0, and the
    new tail is [n - (C - tail)]; otherwise it is the result of one [memcpy] of [n]
    bytes and the new tail is [tail + n].  In both cases byte [k] of the
    item (the time stamp, the text, the line feed) is at index
    [(tail + k) mod C] of the ring, for every [k < n]. *)
Theorem logmsg_copies_item (za : bool) (st : state) (tick : Z)
    (text : list ascii) :
  mem_ok st ->
  0 <= _queue_tail st < LOG_DMA_BUFFER_SIZE ->
  let C := LOG_DMA_BUFFER_SIZE in
  let tail := _queue_tail st in
  let n := item_length tick text in
  (n <= LOG_ITEM_MAX_SIZE -> n <= log_space_available st ->
   exists st', logmsg za st tick text = Some (st', n)) /\
  (forall st' r, logmsg za st tick text = Some (st', r) -> 0 <= r ->
   let item := _log_compose_buffer st' in
   r = n /\
   n <= log_space_available st /\
   take (Z.to_nat n) item = item_bytes tick text /\
   (tail + n >= C ->
    two_copies (_usart2_tx_dma_buffer st) tail item n (_usart2_tx_dma_buffer st') /\
    _queue_tail st' = n - (C - tail)) /\
   (tail + n < C ->
    memcpy (_usart2_tx_dma_buffer st) tail item 0 n
    = Some (_usart2_tx_dma_buffer st') /\
    _queue_tail st' = tail + n) /\
   (forall k : nat, Z.of_nat k < n ->
    _usart2_tx_dma_buffer st' !! Z.to_nat ((tail + Z.of_nat k) mod C)
    = item_bytes tick text !! k)).
Proof.
  intros Hmem Ht C tail n.
  split; [apply (logmsg_total za st tick text Hmem Ht)|].
  intros st' r Hlog Hr.
  exact (logmsg_accepted_copy za st tick text st' r Hmem Ht Hlog Hr).
Qed.

Lemma logmsg_copies_item_witness :
  let st := mkState (replicate 4096 NUL) (replicate 128 NUL) 4090 4090 0
                    HAL_UART_STATE_READY false in
  let text := ["h"; "i"]%char in
  let item := ["("; "7"; ")"; " "; "h"; "i"; LF]%char in
  item_length 7 text = 7 /\
  item_bytes 7 text = item /\
  exists st',
    logmsg false st 7 text = Some (st', 7) /\
    two_copies (_usart2_tx_dma_buffer st) 4090 (_log_compose_buffer st') 7
               (_usart2_tx_dma_buffer st') /\
    _queue_tail st' = 7 - (LOG_DMA_BUFFER_SIZE - 4090).
Proof.
  intros st text item.
  split; [reflexivity|]. split; [reflexivity|].
  destruct (logmsg_copies_item false st 7 text) as [Hdef Hcopy];
    [split; reflexivity | subst st; cbn; unfold_consts; lia |].
  destruct Hdef as (st' & Hlog); [vm_compute; discriminate..|].
  exists st'. split; [exact Hlog|].
  destruct (Hcopy st' _ Hlog) as (_ & _ & _ & Hw & _ & _);
    [vm_compute; discriminate|].
  apply Hw. vm_compute. discriminate.
Defined.

Lemma memcpy_nothing (dst : list ascii) (doff : Z) (src : list ascii) (soff : Z)
    (dst' : list ascii) :
  memcpy dst doff src soff 0 = Some dst' -> dst' = dst.
Proof.
  intros (_ & _ & _ & H0 & H1 & Hw)%memcpy_inv.
  apply write_inv in Hw as (_ & _ & ->).
  change (take (Z.to_nat 0) (drop (Z.to_nat soff) src)) with (@nil ascii).
  change (sizeof []) with 0. rewrite Z.add_0_r. cbn [app].
  apply take_drop.
Qed.

(** X22.  Let the item end exactly at the end of the ring
    ([tail + n = C]).  If it lies inside the compose buffer
    ([n <= LOG_ITEM_MAX_SIZE]) and fits in the space available, [logmsg]
    accepts it.  And whenever a call of [logmsg] has a defined result and
    returns a length, it does so along the wrapping branch: the test of
    that branch holds, [len_1] is [n], so the first [memcpy] moves all
    [n] bytes to index [tail], the second one moves [n - len_1 = 0] bytes
    and leaves the ring as the first one made it, and the new tail is 0,
    not [C].  Afterwards the bytes of the item are at the indices [tail]
    to [C - 1] of the ring and the bytes in front of [tail] are as they
    were. *)
Theorem logmsg_exact_fit (za : bool) (st : state) (tick : Z)
    (text : list ascii) :
  mem_ok st ->
  0 <= _queue_tail st < LOG_DMA_BUFFER_SIZE ->
  let n := item_length tick text in
  _queue_tail st + n = LOG_DMA_BUFFER_SIZE ->
  let len_1 := uint16_t (LOG_DMA_BUFFER_SIZE - _queue_tail st) in
  (n <= LOG_ITEM_MAX_SIZE -> n <= log_space_available st ->
   exists st', logmsg za st tick text = Some (st', n)) /\
  (forall st' r, logmsg za st tick text = Some (st', r) -> 0 <= r ->
   r = n /\
   (_queue_tail st + n >=? LOG_DMA_BUFFER_SIZE) = true /\
   len_1 = n /\
   n - len_1 = 0 /\
   memcpy (_usart2_tx_dma_buffer st) (_queue_tail st) (_log_compose_buffer st')
          0 len_1 = Some (_usart2_tx_dma_buffer st') /\
   memcpy (_usart2_tx_dma_buffer st') 0 (_log_compose_buffer st')
          len_1 (n - len_1) = Some (_usart2_tx_dma_buffer st') /\
   _queue_tail st' = 0 /\
   _queue_tail st' <> LOG_DMA_BUFFER_SIZE /\
   (forall k : nat, Z.of_nat k < n ->
    _usart2_tx_dma_buffer st' !! Z.to_nat (_queue_tail st + Z.of_nat k)
    = item_bytes tick text !! k) /\
   (forall j : nat, Z.of_nat j < _queue_tail st ->
    _usart2_tx_dma_buffer st' !! j = _usart2_tx_dma_buffer st !! j)).
Proof.
  intros Hmem Ht n Hfit len_1.
  split; [apply (logmsg_total za st tick text Hmem Ht)|].
  intros st' r Hlog Hr.
  destruct (logmsg_accepted_copy za st tick text st' r Hmem Ht Hlog Hr)
    as (-> & _ & _ & Hw & _ & Hbytes).
  fold n in Hw, Hbytes.
  destruct Hw as [(ring1 & Hm1 & Hm2) Htail]; [lia|].
  assert (Hl : len_1 = n) by (subst len_1; unfold_consts; unfold_ints; lia).
  rewrite Hl.
  replace (LOG_DMA_BUFFER_SIZE - _queue_tail st) with n in * by lia.
  rewrite Z.sub_diag in *.
  pose proof (memcpy_nothing _ _ _ _ _ Hm2) as E. subst ring1.
  split; [reflexivity|].
  split; [apply Z.geb_le; lia|]. split; [reflexivity|]. split; [reflexivity|].
  split; [exact Hm1|]. split; [exact Hm2|].
  split; [lia|]. split; [unfold_consts; lia|]. split.
  - intros k Hk. rewrite <- (Hbytes k Hk). do 2 f_equal.
    unfold_consts. lia.
  - intros j Hj. rewrite (memcpy_lookup _ _ _ _ _ _ j Hm1).
    apply decide_False. lia.
Qed.

Lemma logmsg_exact_fit_witness :
  let st := mkState (replicate 4090 "x"%char ++ replicate 6 NUL)
                    (replicate 128 NUL) 4090 4090 0
                    HAL_UART_STATE_READY false in
  let text := ["h"]%char in
  item_length 7 text = 6 /\
  _queue_tail st + 6 = LOG_DMA_BUFFER_SIZE /\
  exists st', logmsg false st 7 text = Some (st', 6) /\ _queue_tail st' = 0 /\
    _usart2_tx_dma_buffer st' !! 4095%nat = Some LF /\
    _usart2_tx_dma_buffer st' !! 4089%nat = Some "x"%char.
Proof.
  intros st text.
  split; [reflexivity|]. split; [reflexivity|].
  destruct (logmsg_exact_fit false st 7 text) as [Hdef Hfit];
    [split; reflexivity | subst st; cbn; unfold_consts; lia | reflexivity |].
  destruct Hdef as (st' & Hlog); [vm_compute; discriminate..|].
  exists st'. split; [exact Hlog|].
  destruct (Hfit st' _ Hlog) as (_ & _ & _ & _ & _ & _ & Htail & _ & Hb & Hf);
    [vm_compute; discriminate|].
  split; [exact Htail|].
  split; [exact (Hb 5%nat ltac:(vm_compute; reflexivity))
         |exact (Hf 4089%nat ltac:(vm_compute; reflexivity))].
Defined.

(** ** The indices stay inside the ring *)

Lemma pending_range (st : state) :
  0 <= pending st <= LOG_DMA_BUFFER_SIZE - 1.
Proof. unfold pending; unfold_consts; lia. Qed.

Lemma pending_empty (st : state) :
  index_ok st -> pending st = 0 <-> _queue_head st = _queue_tail st.
Proof. unfold index_ok, pending; unfold_consts; lia. Qed.

Lemma pending_space (st : state) :
  index_ok st -> pending st + log_space_available st = LOG_DMA_BUFFER_SIZE - 1.
Proof.
  intros Hi. rewrite (log_space_available_formula _ Hi).
  destruct Hi. unfold pending, space_formula; unfold_consts; lia.
Qed.

Lemma log_init_ok (st : state) : mem_ok st -> state_ok (fst (log_init st)).
Proof.
  intros Hm. split; [exact Hm|].
  split; unfold index_ok, count_ok; cbn; unfold_consts; lia.
Qed.

Lemma restart_dma_ok (za : bool) (st : state) :
  state_ok st -> state_ok (fst (restart_dma za st)).
Proof.
  intros (Hm & Hi & Hc).
  destruct (HAL_UART_GetState_ready (huart2 st)) eqn:Hr.
  - rewrite (restart_dma_ready _ _ Hr). cbn [fst].
    split; [exact Hm|]. split; [exact Hi|].
    unfold count_ok. simpl_state. rewrite (qty_to_send_min _ Hi).
    pose proof (pending_range st). destruct Hi. lia.
  - rewrite (restart_dma_busy _ _ Hr). cbn [fst].
    split; [exact Hm|split; [exact Hi|exact Hc]].
Qed.

(** A call that returns -1 has changed the compose buffer only. *)
Lemma logmsg_rejected (za : bool) (st : state) (tick : Z) (text : list ascii)
    (st' : state) (r : Z) :
  sizeof (_log_compose_buffer st) = LOG_ITEM_MAX_SIZE ->
  logmsg za st tick text = Some (st', r) ->
  r < 0 ->
  exists cb, sizeof cb = LOG_ITEM_MAX_SIZE /\ st' = set_compose_buffer st cb.
Proof.
  intros Hcb Hlog Hr.
  destruct (logmsg_unfold za st tick text Hcb) as (cb & _ & Hs & Hu).
  rewrite Hu in Hlog. clear Hu.
  destruct (Z.gtb_spec (item_length tick text) (log_space_available st)).
  - exists cb. split; [exact Hs|congruence].
  - pose proof (item_length_range tick text).
    pose proof (timestamp_sizeof tick).
    destruct (store cb (item_length tick text - 1) LF) as [cb'|];
      [|rewrite bind_None in Hlog; discriminate].
    rewrite bind_Some in Hlog. cbv beta in Hlog.
    destruct (enqueue (set_compose_buffer st cb') (item_length tick text));
      [|rewrite bind_None in Hlog; discriminate].
    rewrite bind_Some in Hlog. cbv beta in Hlog.
    assert (r = item_length tick text) by congruence. lia.
Qed.

Lemma logmsg_ok (za : bool) (st : state) (tick : Z) (text : list ascii)
    (st' : state) (r : Z) :
  state_ok st -> logmsg za st tick text = Some (st', r) -> state_ok st'.
Proof.
  intros (Hm & Hi & Hc) Hlog.
  destruct (Z.lt_ge_cases r 0) as [Hneg|Hpos].
  - destruct (logmsg_rejected za st tick text st' r (proj2 Hm) Hlog Hneg)
      as (cb & Hs & ->).
    split; [split; simpl_state; [apply Hm|exact Hs]|].
    split; [exact Hi|exact Hc].
  - destruct (logmsg_accepted za st tick text st' r Hm (proj2 Hi) Hlog Hpos)
      as (cb' & ring' & _ & _ & _ & Hs & _ & [Hsz _] & _ & _ & ->).
    apply restart_dma_ok. destruct Hi as [Hh Ht].
    split; [split; simpl_state; assumption|].
    split; [split; simpl_state; [exact Hh|unfold_consts; lia]|].
    exact Hc.
Qed.

Lemma tx_cplt_callback_ok (za : bool) (st : state) :
  state_ok st -> state_ok (HAL_UART_TxCpltCallback za st).
Proof.
  intros (Hm & Hi & Hc).
  destruct (decide (_queue_head st = _queue_tail st)) as [He|Hne].
  - rewrite (tx_cplt_callback_noop _ _ He).
    split; [exact Hm|split; [exact Hi|exact Hc]].
  - rewrite (tx_cplt_callback_steps za st (proj1 Hi) Hc Hne).
    match goal with
    | |- state_ok (HAL_GPIO_TogglePin ?s) =>
        assert (Hs : state_ok s); [|exact Hs]
    end.
    apply restart_dma_ok. destruct Hi as [Hh Ht].
    split; [exact Hm|].
    split; [split; simpl_state; [unfold_consts; lia|exact Ht]|].
    unfold count_ok. simpl_state. unfold_consts. lia.
Qed.

Lemma perform_ok (za : bool) (st : state) (op : operation) (st' : state) :
  state_ok st -> perform za st op = Some st' -> state_ok st'.
Proof.
  intros Hok. destruct op as [|tick text| | |]; cbn [perform].
  - intros [= <-]. apply log_init_ok, Hok.
  - destruct (logmsg za st tick text) as [[st1 r]|] eqn:Hlog; [|discriminate].
    intros [= <-]. eapply logmsg_ok; eassumption.
  - intros [= <-]. apply restart_dma_ok, Hok.
  - intros [= <-]. apply tx_cplt_callback_ok, Hok.
  - intros [= <-]. exact Hok.
Qed.

Lemma perform_all_ok (za : bool) (ops : list operation) (st st' : state) :
  state_ok st -> perform_all za st ops = Some st' -> state_ok st'.
Proof.
  revert st. induction ops as [|op ops IH]; intros st Hok; cbn [perform_all].
  - intros [= <-]. exact Hok.
  - destruct (perform za st op) as [st1|] eqn:Hp;
      [rewrite bind_Some|rewrite bind_None; discriminate].
    apply IH. eapply perform_ok; eassumption.
Qed.

(** A call of [logmsg] with an item inside the compose buffer returns. *)
Lemma logmsg_defined (za : bool) (st : state) (tick : Z) (text : list ascii) :
  mem_ok st ->
  0 <= _queue_tail st < LOG_DMA_BUFFER_SIZE ->
  item_fits tick text = true ->
  exists st' r, logmsg za st tick text = Some (st', r).
Proof.
  intros Hm Ht Hfit. apply Z.leb_le in Hfit.
  destruct (Z.lt_ge_cases (log_space_available st) (item_length tick text))
    as [Hfull|Hroom].
  - destruct (logmsg_no_room za st tick text (proj2 Hm))
      as (cb & _ & Hlog); [lia|eauto].
  - destruct (logmsg_total za st tick text Hm Ht Hfit Hroom) as (st' & Hlog).
    eauto.
Qed.

Lemma perform_defined (za : bool) (st : state) (op : operation) :
  state_ok st -> operation_fits op = true ->
  exists st', perform za st op = Some st'.
Proof.
  intros (Hm & Hi & _) Hfit. destruct op as [|tick text| | |]; cbn [perform];
    try (eexists; reflexivity).
  destruct (logmsg_defined za st tick text Hm (proj2 Hi) Hfit)
    as (st' & r & ->).
  eexists. reflexivity.
Qed.

Lemma perform_all_defined (za : bool) (ops : list operation) (st : state) :
  state_ok st -> forallb operation_fits ops = true ->
  exists st', perform_all za st ops = Some st'.
Proof.
  revert st. induction ops as [|op ops IH]; intros st Hok;
    cbn [perform_all forallb].
  - eauto.
  - intros [Hfit Hfits]%andb_true_iff.
    destruct (perform_defined za st op Hok Hfit) as (st1 & Hp).
    rewrite Hp, bind_Some. apply IH; [|exact Hfits].
    eapply perform_ok; eassumption.
Qed.

(** X21.  After [log_init], let operations follow in any order: [log_init]
    again, [logmsg] (accepted or rejected), [restart_dma], the completion
    callback, the engine becoming ready.  If the items all lie inside the
    compose buffer ([item_length <= LOG_ITEM_MAX_SIZE]) the operations
    are all defined; and whenever they are, head and tail are inside
    the ring afterwards, the number of queued bytes is 0 exactly when
    head and tail are equal, it is at most [C - 1], and together with
    the space available it makes [C - 1]. *)
Theorem indices_stay_inside_ring (za : bool) (st0 : state)
    (ops : list operation) :
  mem_ok st0 ->
  (forallb operation_fits ops = true ->
   exists st, perform_all za (fst (log_init st0)) ops = Some st) /\
  (forall st, perform_all za (fst (log_init st0)) ops = Some st ->
   0 <= _queue_head st < LOG_DMA_BUFFER_SIZE /\
   0 <= _queue_tail st < LOG_DMA_BUFFER_SIZE /\
   (dma_bytes st = 0 <-> _queue_head st = _queue_tail st) /\
   0 <= dma_bytes st <= LOG_DMA_BUFFER_SIZE - 1 /\
   dma_bytes st + log_space_available st = LOG_DMA_BUFFER_SIZE - 1).
Proof.
  intros Hm. pose proof (log_init_ok st0 Hm) as Hok0.
  split; [apply perform_all_defined, Hok0|].
  intros st Hrun.
  destruct (perform_all_ok za ops _ st Hok0 Hrun) as (_ & Hi & _).
  rewrite (dma_bytes_pending _ Hi).
  split; [apply Hi|]. split; [apply Hi|].
  split; [apply pending_empty, Hi|].
  split; [apply pending_range|apply pending_space, Hi].
Qed.

Lemma indices_stay_inside_ring_witness :
  let st0 := mkState (replicate 4096 NUL) (replicate 128 NUL) 9 9 9
                     HAL_UART_STATE_READY false in
  let ops := [op_logmsg 7 ["h"; "i"]%char; op_logmsg 8 []; op_engine_ready;
              op_tx_cplt_callback; op_restart_dma] in
  exists st,
    perform_all false (fst (log_init st0)) ops = Some st /\
    0 <= _queue_head st < LOG_DMA_BUFFER_SIZE /\
    0 <= _queue_tail st < LOG_DMA_BUFFER_SIZE /\
    (dma_bytes st = 0 <-> _queue_head st = _queue_tail st) /\
    0 <= dma_bytes st <= LOG_DMA_BUFFER_SIZE - 1 /\
    dma_bytes st + log_space_available st = LOG_DMA_BUFFER_SIZE - 1.
Proof.
  intros st0 ops.
  destruct (indices_stay_inside_ring false st0 ops) as [Hdef Hinv];
    [split; reflexivity|].
  destruct (Hdef eq_refl) as (st & E).
  exists st. split; [exact E|apply Hinv, E].
Defined.

(** The queue can be filled to [C - 1] bytes: 31 items of 128 bytes and
    one of 127 after [log_init], with no completion in between. *)
Example queue_filled :
  let st0 := mkState (replicate 4096 NUL) (replicate 128 NUL) 0 0 0
                     HAL_UART_STATE_READY false in
  let ops := replicate 31 (op_logmsg 0 (replicate 123 "a"%char))
             ++ [op_logmsg 0 (replicate 122 "a"%char)] in
  (fun st => (_queue_head st, _queue_tail st, dma_bytes st,
              log_space_available st))
    <$> perform_all false (fst (log_init st0)) ops
  = Some (0, 4095, 4095, 0).
Proof. vm_compute. reflexivity. Qed.

(** ** The bytes on the line *)

(** Copying an item that fits in the free space appends it to the queued
    bytes and leaves the bytes already queued alone. *)
Lemma ring_read_enqueued (ring ring' cb : list ascii) (head tail n : Z) :
  sizeof ring = LOG_DMA_BUFFER_SIZE ->
  0 <= head < LOG_DMA_BUFFER_SIZE ->
  0 <= tail < LOG_DMA_BUFFER_SIZE ->
  0 <= n ->
  (tail - head) mod LOG_DMA_BUFFER_SIZE + n <= LOG_DMA_BUFFER_SIZE - 1 ->
  copied_at ring tail cb n ring' ->
  ring_read ring' head
    (((tail + n) mod LOG_DMA_BUFFER_SIZE - head) mod LOG_DMA_BUFFER_SIZE)
  = ring_read ring head ((tail - head) mod LOG_DMA_BUFFER_SIZE)
    ++ take (Z.to_nat n) cb.
Proof.
  intros Hs Hh Ht Hn Hroom [Hs' Hcp].
  set (p := (tail - head) mod LOG_DMA_BUFFER_SIZE) in *.
  assert (Hp : 0 <= p < LOG_DMA_BUFFER_SIZE) by (subst p; unfold_consts; lia).
  replace (((tail + n) mod LOG_DMA_BUFFER_SIZE - head) mod LOG_DMA_BUFFER_SIZE)
    with (p + n) by (subst p; unfold_consts; lia).
  rewrite ring_read_app by lia.
  replace ((head + p) mod LOG_DMA_BUFFER_SIZE) with tail
    by (subst p; unfold_consts; lia).
  f_equal.
  - apply list_eq. intros k.
    destruct (decide (Z.of_nat k < p)) as [Hk|Hk].
    + rewrite !ring_read_lookup by lia.
      rewrite Hcp by (unfold_consts; lia).
      rewrite decide_False by (subst p; unfold_consts; lia). reflexivity.
    + rewrite !ring_read_lookup_ge by lia. reflexivity.
  - apply list_eq. intros k.
    destruct (decide (Z.of_nat k < n)) as [Hk|Hk].
    + rewrite ring_read_lookup by lia.
      rewrite Hcp by (unfold_consts; lia).
      rewrite decide_True by (unfold_consts; lia).
      rewrite lookup_take_lt by lia. f_equal. unfold_consts. lia.
    + rewrite ring_read_lookup_ge by lia.
      rewrite lookup_take_ge by lia. reflexivity.
Qed.

Lemma restart_dma_queued (za : bool) (st : state) :
  queued (fst (restart_dma za st)) = queued st /\
  pending (fst (restart_dma za st)) = pending st.
Proof.
  destruct (restart_dma_head_tail za st) as (Hh & Ht & Hr & _).
  unfold queued, pending. rewrite Hh, Ht, Hr. split; reflexivity.
Qed.

(** After [restart_dma] the handle agrees with the globals, if it did
    whenever the engine was busy. *)
Lemma restart_dma_engine_ok (za : bool) (st : state) :
  index_ok st ->
  (HAL_UART_GetState_ready (huart2 st) = false -> engine_ok st) ->
  engine_ok (fst (restart_dma za st)).
Proof.
  intros Hi Hbusy.
  destruct (HAL_UART_GetState_ready (huart2 st)) eqn:Hr.
  - rewrite (restart_dma_ready _ _ Hr). cbn [fst].
    rewrite (qty_to_send_min _ Hi).
    pose proof (pending_range st) as Hp.
    pose proof (pending_empty st Hi) as He.
    destruct Hi as [Hh Ht].
    destruct (huart2 st); [|discriminate].
    unfold engine_ok, HAL_UART_Transmit_DMA. simpl_state.
    destruct (Z.eqb_spec
                (Z.min (pending st) (LOG_DMA_BUFFER_SIZE - _queue_head st)) 0)
      as [Hz|Hnz]; destruct za; cbn [negb andb]; simpl_state;
      try (apply He; lia);
      (split; [reflexivity|]; split; [reflexivity|]);
      unfold pending in *; simpl_state; unfold_consts; lia.
  - rewrite (restart_dma_busy _ _ Hr). cbn [fst]. apply Hbusy. reflexivity.
Qed.

Lemma power_on_ok (ring cb : list ascii) :
  sizeof ring = LOG_DMA_BUFFER_SIZE -> sizeof cb = LOG_ITEM_MAX_SIZE ->
  world_ok (power_on ring cb).
Proof.
  intros Hr Hc. unfold world_ok, power_on. cbn [mcu tx_line enqueued].
  split; [split; assumption|].
  split; [split; cbn; unfold_consts; lia|].
  split; reflexivity.
Qed.

Lemma restart_dma_mem_index (za : bool) (st : state) :
  mem_ok st -> index_ok st ->
  mem_ok (fst (restart_dma za st)) /\ index_ok (fst (restart_dma za st)).
Proof.
  destruct (restart_dma_head_tail za st) as (Hh & Ht & Hr & Hc).
  unfold mem_ok, index_ok. rewrite Hh, Ht, Hr, Hc. auto.
Qed.

(** A call of [logmsg] keeps the world well formed. *)
Lemma step_logmsg_ok (za : bool) (w : world) (tick : Z) (text : list ascii)
    (w' : world) :
  world_ok w -> step za w (ev_logmsg tick text) = Some w' -> world_ok w'.
Proof.
  intros (Hm & Hi & He & Hq). cbn [step].
  destruct (logmsg za (mcu w) tick text) as [[st' r]|] eqn:Hlog;
    [rewrite bind_Some; cbv beta iota|rewrite bind_None; discriminate].
  intros [= <-]. unfold world_ok. cbn [mcu tx_line enqueued].
  destruct (Z.ltb_spec r 0) as [Hneg|Hpos].
  - destruct (logmsg_rejected za _ tick text st' r (proj2 Hm) Hlog Hneg)
      as (cb & Hs & ->).
    split; [split; simpl_state; [apply Hm|exact Hs]|].
    split; [exact Hi|]. split; [exact He|exact Hq].
  - destruct (logmsg_accepted za _ tick text st' r Hm (proj2 Hi) Hlog Hpos)
      as (cb' & ring' & Hlen & Hroom & Hin & Hs & Htake & Hcp & _ & _ & ->).
    set (st := mcu w) in *.
    set (st2 := set_queue_tail (set_dma_buffer (set_compose_buffer st cb') ring')
                  ((_queue_tail st + r) mod LOG_DMA_BUFFER_SIZE)).
    pose proof (pending_space st Hi) as Hps.
    pose proof (pending_range st) as Hpr.
    assert (Hm2 : mem_ok st2) by (split; simpl_state; [apply Hcp|exact Hs]).
    assert (Hi2 : index_ok st2).
    { destruct Hi as [Hh Ht]. split; subst st2; simpl_state;
        [exact Hh|unfold_consts; lia]. }
    assert (Hp2 : pending st2 = pending st + r).
    { destruct Hi as [Hh Ht]. unfold pending in *. subst st2. simpl_state.
      unfold_consts. lia. }
    destruct (restart_dma_mem_index za st2 Hm2 Hi2) as [Hm' Hi'].
    destruct (restart_dma_queued za st2) as [Hq' _].
    destruct (restart_dma_head_tail za st2) as (_ & _ & _ & Hc').
    split; [exact Hm'|]. split; [exact Hi'|]. split.
    + apply restart_dma_engine_ok; [exact Hi2|].
      intros Hbusy. unfold engine_ok in *.
      change (huart2 st2) with (huart2 st) in *.
      destruct (huart2 st) as [|off cnt]; [discriminate|].
      rewrite Hp2. subst st2. simpl_state. lia.
    + rewrite Hq', Hc', Hq, <- app_assoc. f_equal.
      subst st2. unfold queued, pending. simpl_state.
      destruct Hi as [Hh Ht]. symmetry.
      apply ring_read_enqueued; try assumption; [apply Hm|].
      unfold pending in *. lia.
Qed.

(** The completion of the request in progress keeps the world well
    formed. *)
Lemma step_tx_complete_ok (za : bool) (w w' : world) :
  world_ok w -> step za w ev_tx_complete = Some w' -> world_ok w'.
Proof.
  intros (Hm & Hi & He & Hq). cbn [step]. unfold engine_ok, in_flight in *.
  set (st := mcu w) in *.
  intros [= <-]. unfold world_ok. cbn [mcu tx_line enqueued].
  set (st_r := set_huart2 st HAL_UART_STATE_READY).
  pose proof (pending_range st) as Hpr.
  destruct (huart2 st) as [|off cnt] eqn:Hu.
  { rewrite (tx_cplt_callback_noop za st_r He), app_nil_r.
    split; [exact Hm|]. split; [exact Hi|]. split; [exact He|exact Hq]. }
  destruct He as (-> & -> & Hcnt & Hend).
  destruct (decide (_queue_head st = _queue_tail st)) as [Hempty|Hne].
  - rewrite (tx_cplt_callback_noop za st_r Hempty).
    assert (Hz : _last_dma_count st = 0)
      by (apply (pending_empty st Hi) in Hempty; lia).
    split; [exact Hm|]. split; [exact Hi|]. split; [exact Hempty|].
    rewrite Hz. unfold dma_read. cbn [Z.to_nat take]. rewrite app_nil_r.
    exact Hq.
  - assert (Hc : count_ok st_r) by (unfold count_ok; subst st_r; simpl_state; lia).
    rewrite (tx_cplt_callback_steps za st_r (proj1 Hi) Hc Hne).
    subst st_r. simpl_state.
    set (st3 := set_last_dma_count
                  (set_queue_head (set_huart2 st HAL_UART_STATE_READY)
                     ((_queue_head st + _last_dma_count st)
                        mod LOG_DMA_BUFFER_SIZE)) 0).
    assert (Hm3 : mem_ok st3) by exact Hm.
    assert (Hi3 : index_ok st3).
    { destruct Hi as [Hh Ht]. split; subst st3; simpl_state;
        [unfold_consts; lia|exact Ht]. }
    destruct (restart_dma_mem_index za st3 Hm3 Hi3) as [Hm' Hi'].
    destruct (restart_dma_queued za st3) as [Hq' _].
    split; [exact Hm'|]. split; [exact Hi'|]. split.
    + apply (restart_dma_engine_ok za st3 Hi3). discriminate.
    + change (queued (HAL_GPIO_TogglePin (fst (restart_dma za st3))))
        with (queued (fst (restart_dma za st3))).
      rewrite Hq', Hq, <- app_assoc. f_equal.
      unfold queued, pending. subst st3. simpl_state.
      destruct Hi as [Hh Ht]. unfold pending in *.
      rewrite <- (ring_read_dma_read _ _ _ (proj1 Hm)) by lia.
      replace ((_queue_tail st - _queue_head st) mod LOG_DMA_BUFFER_SIZE)
        with (_last_dma_count st
              + ((_queue_tail st - _queue_head st) mod LOG_DMA_BUFFER_SIZE
                 - _last_dma_count st)) at 1 by lia.
      rewrite ring_read_app by (try apply Hm; unfold_consts; lia).
      do 2 f_equal. unfold_consts. lia.
Qed.

Lemma step_ok (za : bool) (w : world) (e : event) (w' : world) :
  world_ok w -> step za w e = Some w' -> world_ok w'.
Proof.
  destruct e as [tick text|];
    [apply step_logmsg_ok|apply step_tx_complete_ok].
Qed.

Lemma run_ok (za : bool) (evs : list event) (w w' : world) :
  world_ok w -> run za w evs = Some w' -> world_ok w'.
Proof.
  revert w. induction evs as [|e evs IH]; intros w Hok; cbn [run].
  - intros [= <-]. exact Hok.
  - destruct (step za w e) as [w1|] eqn:Hs;
      [rewrite bind_Some|rewrite bind_None; discriminate].
    apply IH. eapply step_ok; eassumption.
Qed.

(** With a busy engine the completion is possible, adds nothing to what
    was enqueued, and lowers the backlog. *)
Lemma step_tx_complete_progress (za : bool) (w : world) :
  world_ok w ->
  HAL_UART_GetState_ready (huart2 (mcu w)) = false ->
  exists w', step za w ev_tx_complete = Some w' /\
             enqueued w' = enqueued w /\
             0 <= backlog (mcu w') < backlog (mcu w).
Proof.
  intros (Hm & Hi & He & Hq) Hbusy. cbn [step]. unfold engine_ok in He.
  set (st := mcu w) in *.
  destruct (huart2 st) as [|off cnt] eqn:Hu; [discriminate|].
  destruct He as (-> & -> & Hcnt & Hend).
  eexists. split; [reflexivity|]. cbn [mcu enqueued]. split; [reflexivity|].
  set (st_r := set_huart2 st HAL_UART_STATE_READY).
  pose proof (pending_range st) as Hpr.
  pose proof (pending_empty st Hi) as Hpe.
  assert (Hb : backlog st = 1 + 2 * pending st
               + (if _last_dma_count st
                     =? Z.min (pending st)
                          (LOG_DMA_BUFFER_SIZE - _queue_head st)
                  then 0 else 1))
    by (unfold backlog; rewrite Hu; reflexivity).
  destruct (decide (_queue_head st = _queue_tail st)) as [Hempty|Hne].
  - rewrite (tx_cplt_callback_noop za st_r Hempty), Hb.
    unfold backlog. subst st_r. simpl_state. case_cmp; lia.
  - assert (Hc : count_ok st_r) by (unfold count_ok; subst st_r; simpl_state; lia).
    rewrite (tx_cplt_callback_steps za st_r (proj1 Hi) Hc Hne), Hb.
    subst st_r. simpl_state.
    set (st3 := set_last_dma_count
                  (set_queue_head (set_huart2 st HAL_UART_STATE_READY)
                     ((_queue_head st + _last_dma_count st)
                        mod LOG_DMA_BUFFER_SIZE)) 0).
    assert (Hi3 : index_ok st3).
    { destruct Hi as [Hh Ht]. split; subst st3; simpl_state;
        [unfold_consts; lia|exact Ht]. }
    rewrite (restart_dma_ready za st3 eq_refl). cbn [fst].
    rewrite (qty_to_send_min _ Hi3).
    assert (Hp3 : pending st3 = pending st - _last_dma_count st).
    { destruct Hi as [Hh Ht]. unfold pending in *. subst st3. simpl_state.
      unfold_consts. lia. }
    unfold backlog, HAL_UART_Transmit_DMA. simpl_state.
    change (huart2 st3) with HAL_UART_STATE_READY. cbv iota.
    destruct (_ && _);
      cbn [huart2 _queue_head _queue_tail set_huart2 set_last_dma_count].
    + case_cmp; lia.
    + change (pending (set_huart2 (set_last_dma_count st3 _) _))
        with (pending st3).
      change (_queue_head (set_huart2 (set_last_dma_count st3 _) _))
        with (_queue_head st3).
      change (pending (HAL_GPIO_TogglePin
                         (set_huart2 (set_last_dma_count st3 _) _)))
        with (pending st3).
      rewrite Z.eqb_refl, Hp3.
      assert (Hh3 : _queue_head st3
                    = (_queue_head st + _last_dma_count st)
                        mod LOG_DMA_BUFFER_SIZE) by reflexivity.
      destruct Hi as [Hh Ht]. case_cmp; unfold_consts; lia.
Qed.

(** Completions alone empty the queue: after finitely many of them the
    engine is ready and everything enqueued is on the line. *)
Lemma drain (za : bool) (w : world) :
  world_ok w ->
  exists (k : nat) (w' : world),
    run za w (replicate k ev_tx_complete) = Some w' /\
    huart2 (mcu w') = HAL_UART_STATE_READY /\
    _queue_head (mcu w') = _queue_tail (mcu w') /\
    tx_line w' = enqueued w.
Proof.
  remember (Z.to_nat (backlog (mcu w))) as m eqn:Hm.
  revert w Hm. induction m as [m IH] using lt_wf_ind. intros w Hm Hok.
  destruct (HAL_UART_GetState_ready (huart2 (mcu w))) eqn:Hr.
  - exists 0%nat, w. split; [reflexivity|].
    destruct Hok as (Hmem & Hi & He & Hq). unfold engine_ok in He.
    destruct (huart2 (mcu w)); [|discriminate].
    split; [reflexivity|]. split; [exact He|].
    rewrite Hq. unfold queued.
    rewrite (proj2 (pending_empty _ Hi) He). unfold ring_read.
    cbn [Z.to_nat take]. now rewrite app_nil_r.
  - destruct (step_tx_complete_progress za w Hok Hr) as (w1 & Hs & Henq & Hlt).
    pose proof (step_ok za w _ w1 Hok Hs) as Hok1.
    destruct (IH (Z.to_nat (backlog (mcu w1))) ltac:(lia) w1 eq_refl Hok1)
      as (k & w' & Hrun & Hready & Hempty & Hline).
    exists (S k), w'. cbn [replicate run]. rewrite Hs, bind_Some.
    split; [exact Hrun|]. split; [exact Hready|]. split; [exact Hempty|].
    congruence.
Qed.

(** A call of [logmsg] adds its item, or nothing, to what was enqueued,
    and nothing to the line. *)
Lemma run_step_enqueued (za : bool) (w : world) (tick : Z) (text : list ascii)
    (w' : world) :
  world_ok w -> step za w (ev_logmsg tick text) = Some w' ->
  exists item, enqueued w' = enqueued w ++ item /\ tx_line w' = tx_line w.
Proof.
  intros _. cbn [step].
  destruct (logmsg za (mcu w) tick text) as [[st' r]|];
    [rewrite bind_Some; cbv beta iota|rewrite bind_None; discriminate].
  intros [= <-]. cbn [enqueued tx_line].
  destruct (r <? 0); eexists; split; try reflexivity.
  now rewrite app_nil_r.
Qed.

(** The request in progress covers the oldest queued bytes. *)
Lemma in_flight_prefix (st : state) :
  mem_ok st -> index_ok st -> engine_ok st ->
  exists rest, queued st = in_flight st ++ rest.
Proof.
  intros Hm Hi He. unfold engine_ok, in_flight in *.
  destruct (huart2 st) as [|off cnt]; [eexists; reflexivity|].
  destruct He as (-> & -> & Hcnt & Hend). destruct Hi as [Hh Ht].
  exists (ring_read (_usart2_tx_dma_buffer st)
            ((_queue_head st + _last_dma_count st) mod LOG_DMA_BUFFER_SIZE)
            (pending st - _last_dma_count st)).
  pose proof (pending_range st) as Hpr.
  rewrite <- (ring_read_dma_read _ _ _ (proj1 Hm)) by lia.
  rewrite <- ring_read_app by (try apply Hm; unfold_consts; lia).
  unfold queued. f_equal. lia.
Qed.

(** A call of [logmsg] while the engine is busy leaves the bytes of the
    request in progress as they are: the engine may read them at any time
    before the completion. *)
Lemma logmsg_keeps_in_flight (za : bool) (w : world) (tick : Z)
    (text : list ascii) (w' : world) :
  world_ok w ->
  HAL_UART_GetState_ready (huart2 (mcu w)) = false ->
  step za w (ev_logmsg tick text) = Some w' ->
  huart2 (mcu w') = huart2 (mcu w) /\ in_flight (mcu w') = in_flight (mcu w).
Proof.
  intros Hok Hbusy Hs.
  pose proof (step_logmsg_ok za w tick text w' Hok Hs) as Hok'.
  pose proof (run_step_enqueued za w tick text w' Hok Hs) as (item & Henq & Hline).
  assert (Hu : huart2 (mcu w') = huart2 (mcu w)).
  { cbn [step] in Hs.
    destruct (logmsg za (mcu w) tick text) as [[st' r]|] eqn:Hlog;
      [rewrite bind_Some in Hs; cbv beta iota in Hs
      |rewrite bind_None in Hs; discriminate].
    injection Hs as <-. cbn [mcu].
    destruct Hok as (Hm & Hi & _ & _).
    destruct (Z.lt_ge_cases r 0) as [Hneg|Hpos].
    - destruct (logmsg_rejected za _ tick text st' r (proj2 Hm) Hlog Hneg)
        as (cb & _ & ->). reflexivity.
    - destruct (logmsg_accepted za _ tick text st' r Hm (proj2 Hi) Hlog Hpos)
        as (cb' & ring' & _ & _ & _ & _ & _ & _ & _ & _ & ->).
      rewrite restart_dma_busy by exact Hbusy. reflexivity. }
  split; [exact Hu|].
  destruct Hok as (Hm & Hi & He & Hq). destruct Hok' as (Hm' & Hi' & He' & Hq').
  destruct (in_flight_prefix _ Hm Hi He) as (rest & Hp).
  destruct (in_flight_prefix _ Hm' Hi' He') as (rest' & Hp').
  rewrite Henq, Hline, Hq, Hp, Hp', <- !app_assoc in Hq'.
  apply app_inv_head in Hq'.
  assert (Hlen : length (in_flight (mcu w')) = length (in_flight (mcu w))).
  { unfold in_flight, engine_ok in *. rewrite Hu in *.
    destruct (huart2 (mcu w)) as [|off cnt]; [reflexivity|].
    destruct He as (-> & -> & Hcnt & Hend).
    destruct He' as (Ho' & Hc' & Hcnt' & Hend').
    destruct Hm as [Hr _], Hm' as [Hr' _]. destruct Hi, Hi'.
    unfold dma_read, sizeof in *. rewrite !length_take, !length_drop. lia. }
  destruct (app_inj_1 _ _ _ _ (eq_sym Hlen) Hq') as [E _]. now symmetry.
Qed.

(** What [run] records as enqueued is the items of the accepted calls. *)
Lemma run_enqueued (za : bool) (evs : list event) (w w' : world) :
  world_ok w -> run za w evs = Some w' ->
  enqueued w' = enqueued w ++ accepted_items za w evs.
Proof.
  revert w. induction evs as [|e evs IH]; intros w Hok; cbn [run accepted_items].
  - intros [= <-]. now rewrite app_nil_r.
  - destruct (step za w e) as [w1|] eqn:Hs;
      [rewrite bind_Some|rewrite bind_None; discriminate].
    intros Hrun. pose proof (step_ok za w e w1 Hok Hs) as Hok1.
    rewrite (IH w1 Hok1 Hrun), app_assoc. f_equal.
    destruct e as [tick text|]; cbn [step] in Hs.
    + destruct (logmsg za (mcu w) tick text) as [[st' r]|] eqn:Hlog;
        [rewrite bind_Some in Hs; cbv beta iota in Hs
        |rewrite bind_None in Hs; discriminate].
      injection Hs as <-. cbn [enqueued].
      destruct (Z.ltb_spec r 0) as [Hneg|Hpos]; [now rewrite app_nil_r|].
      destruct Hok as (Hm & Hi & _ & _).
      destruct (logmsg_accepted za _ tick text st' r Hm (proj2 Hi) Hlog Hpos)
        as (cb' & ring' & _ & _ & _ & _ & Htake & _ & _ & _ & ->).
      destruct (restart_dma_head_tail za
        (set_queue_tail
           (set_dma_buffer (set_compose_buffer (mcu w) cb') ring')
           ((_queue_tail (mcu w) + r) mod LOG_DMA_BUFFER_SIZE)))
        as (_ & _ & _ & ->).
      simpl_state. now rewrite Htake.
    + injection Hs as <-. cbn [enqueued]. now rewrite app_nil_r.
Qed.

Lemma step_defined (za : bool) (w : world) (e : event) :
  world_ok w -> event_fits e = true -> exists w', step za w e = Some w'.
Proof.
  intros (Hm & Hi & _) Hfit. destruct e as [tick text|]; cbn [step].
  - destruct (logmsg_defined za (mcu w) tick text Hm (proj2 Hi) Hfit)
      as (st' & r & ->).
    rewrite bind_Some. cbv beta iota. eexists. reflexivity.
  - eexists. reflexivity.
Qed.

Lemma run_defined (za : bool) (evs : list event) (w : world) :
  world_ok w -> forallb event_fits evs = true ->
  exists w', run za w evs = Some w'.
Proof.
  revert w. induction evs as [|e evs IH]; intros w Hok; cbn [run forallb].
  - eauto.
  - intros [Hfit Hfits]%andb_true_iff.
    destruct (step_defined za w e Hok Hfit) as (w1 & Hs).
    rewrite Hs, bind_Some. apply IH; [|exact Hfits].
    eapply step_ok; eassumption.
Qed.

(** X19.  Start from [log_init] with a ready engine and let calls of
    [logmsg] (accepted or rejected) and completions follow each other in
    any order, every call of [logmsg] running from its first line to its
    last with no completion in between.  If the items all lie inside the
    compose buffer ([item_length <= LOG_ITEM_MAX_SIZE]) the run is
    defined; and whenever it is, the bytes the engine has put on the line,
    followed by the bytes still queued between head and tail, are exactly
    the items of the accepted calls, in the order of the calls; when the
    queue is empty the line carries all of them; and completions alone
    empty the queue: after finitely many the engine is ready and the line
    carries all of them. *)
Theorem fifo_transmission (za : bool) (ring cb : list ascii)
    (evs : list event) :
  sizeof ring = LOG_DMA_BUFFER_SIZE ->
  sizeof cb = LOG_ITEM_MAX_SIZE ->
  let items := accepted_items za (power_on ring cb) evs in
  (forallb event_fits evs = true ->
   exists w, run za (power_on ring cb) evs = Some w) /\
  (forall w, run za (power_on ring cb) evs = Some w ->
   tx_line w ++ queued (mcu w) = items /\
   (_queue_head (mcu w) = _queue_tail (mcu w) -> tx_line w = items) /\
   exists (k : nat) (w' : world),
     run za w (replicate k ev_tx_complete) = Some w' /\
     huart2 (mcu w') = HAL_UART_STATE_READY /\
     _queue_head (mcu w') = _queue_tail (mcu w') /\
     tx_line w' = items).
Proof.
  intros Hr Hc items.
  pose proof (power_on_ok ring cb Hr Hc) as Hok0.
  split; [apply run_defined, Hok0|].
  intros w Hrun.
  pose proof (run_ok za evs _ w Hok0 Hrun) as Hok.
  pose proof (run_enqueued za evs _ w Hok0 Hrun) as Henq.
  change (enqueued (power_on ring cb)) with (@nil ascii) in Henq.
  rewrite app_nil_l in Henq. fold items in Henq.
  destruct (drain za w Hok) as (k & w' & Hk & Hready & Hempty & Hline).
  destruct Hok as (Hm & Hi & He & Hq).
  split; [congruence|]. split.
  - intros Hempty'. rewrite <- Henq, Hq. unfold queued.
    rewrite (proj2 (pending_empty _ Hi) Hempty'). unfold ring_read.
    cbn [Z.to_nat take]. now rewrite app_nil_r.
  - exists k, w'. repeat split; congruence.
Qed.

Lemma fifo_transmission_witness :
  let ring := replicate 4096 NUL in
  let cb := replicate 128 NUL in
  let evs := [ev_logmsg 7 ["h"; "i"]%char; ev_logmsg 8 ["y"; "o"]%char;
              ev_tx_complete; ev_logmsg 9 []; ev_tx_complete] in
  exists w,
    run false (power_on ring cb) evs = Some w /\
    tx_line w ++ queued (mcu w) = accepted_items false (power_on ring cb) evs.
Proof.
  intros ring cb evs.
  destruct (fifo_transmission false ring cb evs) as [Hdef Hfifo];
    [reflexivity|reflexivity|].
  destruct (Hdef eq_refl) as (w & E).
  exists w. split; [exact E|apply Hfifo, E].
Defined.

(** Wrap-around is not visible on the line: 33 items of 127 bytes, each
    one sent before the next is enqueued; the last one starts at index
    4064, is copied in two parts and is sent by two requests, of 32 and
    of 95 bytes. *)
Example wrapped_item_on_the_line :
  let text := replicate 122 "a"%char in
  let evs := mjoin (replicate 32 [ev_logmsg 0 text; ev_tx_complete])
             ++ [ev_logmsg 0 text; ev_tx_complete; ev_tx_complete] in
  (fun w => (tx_line w, _queue_head (mcu w), _queue_tail (mcu w), huart2 (mcu w)))
    <$> run false (power_on (replicate 4096 NUL) (replicate 128 NUL)) evs
  = Some (mjoin (replicate 33 (["("; "0"; ")"; " "]%char ++ text ++ [LF])),
          95, 95, HAL_UART_STATE_READY).
Proof. vm_compute. reflexivity. Qed.

(** * Further properties *)

(** ** [hexdump] on small inputs *)

Example hexdump_nothing : hexdump [] 0 = Some [].
Proof. reflexivity. Qed.

Example hexdump_three_bytes :
  hexdump ["A"; "010"; "z"]%char 3
  = Some (list_ascii_of_string
      "00000000  41 0A 7A                                           |A.z|
").
Proof. vm_compute. reflexivity. Qed.

Example hexdump_seventeen_bytes :
  hexdump (replicate 17 "0"%char) 17
  = Some (list_ascii_of_string
      "00000000  30 30 30 30 30 30 30 30  30 30 30 30 30 30 30 30   |0000000000000000|
00000010  30                                                 |0|
").
Proof. vm_compute. reflexivity. Qed.

Example hexdump_past_the_end : hexdump ["A"; "B"]%char 3 = None.
Proof. vm_compute. reflexivity. Qed.

(** ** Characters and hexadecimal digits *)

Lemma uchar_range (c : ascii) : 0 <= uchar c < 256.
Proof. unfold uchar. pose proof (nat_ascii_bounded c). lia. Qed.

Lemma uchar_inj (a b : ascii) : uchar a = uchar b -> a = b.
Proof.
  unfold uchar. intros H. apply Nat2Z.inj in H.
  rewrite <- (ascii_nat_embedding a), <- (ascii_nat_embedding b). now rewrite H.
Qed.

Lemma uchar_ascii_of_nat (z : Z) :
  0 <= z < 256 -> uchar (ascii_of_nat (Z.to_nat z)) = z.
Proof. intros Hz. unfold uchar. rewrite nat_ascii_embedding; lia. Qed.

Lemma uchar_hex_digit (d : Z) :
  0 <= d < 16 -> uchar (hex_digit d) = if d <? 10 then 48 + d else 55 + d.
Proof.
  intros Hd. unfold hex_digit.
  destruct (Z.ltb_spec d 10); apply uchar_ascii_of_nat; lia.
Qed.

Lemma hex_digit_printable (d : Z) : 0 <= d < 16 -> printable (hex_digit d).
Proof.
  intros Hd. unfold printable. rewrite (uchar_hex_digit d Hd).
  destruct (Z.ltb_spec d 10); lia.
Qed.

Lemma hex_digit_inj (d e : Z) :
  0 <= d < 16 -> 0 <= e < 16 -> hex_digit d = hex_digit e -> d = e.
Proof.
  intros Hd He H. apply (f_equal uchar) in H.
  rewrite (uchar_hex_digit d Hd), (uchar_hex_digit e He) in H.
  destruct (Z.ltb_spec d 10), (Z.ltb_spec e 10); lia.
Qed.

Lemma utox_length (fuel : nat) (n : Z) (acc : list ascii) :
  (length acc <= length (utox fuel n acc) <= fuel + length acc)%nat /\
  (0 < fuel -> length acc < length (utox fuel n acc))%nat.
Proof.
  revert n acc. induction fuel as [|fuel IH]; intros n acc; cbn [utox].
  - lia.
  - destruct (n / 16 =? 0); cbn [length].
    + lia.
    + specialize (IH (n / 16) (hex_digit (n mod 16) :: acc)).
      cbn [length] in IH. lia.
Qed.

Lemma utox_printable (fuel : nat) (n : Z) (acc : list ascii) :
  Forall printable acc -> Forall printable (utox fuel n acc).
Proof.
  revert n acc. induction fuel as [|fuel IH]; intros n acc Hacc; cbn [utox].
  - exact Hacc.
  - assert (Forall printable (hex_digit (n mod 16) :: acc))
      by (constructor; [apply hex_digit_printable; lia|exact Hacc]).
    destruct (n / 16 =? 0); [assumption|now apply IH].
Qed.

Lemma printable_zero : printable "0"%char.
Proof. unfold printable. change (uchar "0") with 48. lia. Qed.

Lemma printable_space : printable " "%char.
Proof. unfold printable. change (uchar " ") with 32. lia. Qed.

Lemma fmt_0X_printable (width : nat) (n : Z) :
  Forall printable (fmt_0X width n).
Proof.
  unfold fmt_0X. apply Forall_app. split.
  - apply Forall_replicate, printable_zero.
  - apply utox_printable. constructor.
Qed.

(** The address column has eight characters. *)
Lemma fmt_0X_8_length (n : Z) : length (fmt_0X 8 n) = 8%nat.
Proof.
  unfold fmt_0X. rewrite length_app, length_replicate.
  pose proof (utox_length 8 (unsigned n) []) as [H _]. cbn [length] in H. lia.
Qed.

(** A byte is written as its two hexadecimal digits. *)
Lemma fmt_0X_byte (b : Z) :
  0 <= b < 256 -> fmt_0X 2 b = [hex_digit (b / 16); hex_digit (b mod 16)].
Proof.
  intros Hb. unfold fmt_0X, unsigned.
  replace (b mod 4294967296) with b by lia. cbn [utox].
  destruct (Z.eqb_spec (b / 16) 0) as [E|E].
  - rewrite E. reflexivity.
  - destruct (Z.eqb_spec (b / 16 / 16) 0) as [E'|E']; [|lia].
    cbn [length Nat.sub replicate app].
    replace ((b / 16) mod 16) with (b / 16) by lia. reflexivity.
Qed.

Lemma fmt_0X_byte_inj (a b : Z) :
  0 <= a < 256 -> 0 <= b < 256 -> fmt_0X 2 a = fmt_0X 2 b -> a = b.
Proof.
  intros Ha Hb. rewrite (fmt_0X_byte a Ha), (fmt_0X_byte b Hb).
  intros [= H1 H2].
  apply hex_digit_inj in H1; [|lia..]. apply hex_digit_inj in H2; [|lia..].
  lia.
Qed.

(** ** The columns of a row *)

Lemma fmt_0X_byte_uchar (c : ascii) :
  fmt_0X 2 (uchar c) = [hex_digit (uchar c / 16); hex_digit (uchar c mod 16)].
Proof. apply fmt_0X_byte, uchar_range. Qed.

(** Inside the array the hexadecimal column is printed: three characters
    for a byte, one more when the row goes past its eighth byte. *)
Lemma hex_cells_Some (data : list ascii) (n i : nat) :
  (i + n <= length data)%nat ->
  exists cs, hex_cells data i n = Some cs /\
    length cs
    = (3 * n + (if (i <=? 7)%nat && (7 <? i + n)%nat then 1 else 0))%nat /\
    Forall printable cs.
Proof.
  revert i. induction n as [|n IH]; intros i Hi; cbn [hex_cells].
  - exists []. split; [reflexivity|]. split; [|constructor].
    destruct (Nat.leb_spec i 7), (Nat.ltb_spec 7 (i + 0)); cbn; lia.
  - destruct (lookup_lt_is_Some_2 data i ltac:(lia)) as [c Hc].
    destruct (IH (S i) ltac:(lia)) as (rest & Hrest & Hlen & Hpr).
    rewrite Hc. bind_step. rewrite Hrest. bind_step.
    eexists. split; [reflexivity|]. split.
    + rewrite fmt_0X_byte_uchar. cbn [app length]. rewrite length_app, Hlen.
      destruct (Nat.eqb_spec i 7), (Nat.leb_spec i 7), (Nat.leb_spec (S i) 7),
        (Nat.ltb_spec 7 (i + S n)), (Nat.ltb_spec 7 (S i + n));
        cbn [andb length]; lia.
    + apply Forall_app. split; [apply fmt_0X_printable|].
      constructor; [apply printable_space|].
      apply Forall_app. split; [|exact Hpr].
      destruct (Nat.eqb i 7); [constructor; [apply printable_space|]|];
        constructor.
Qed.

(** A byte past the end of the array makes the column undefined. *)
Lemma hex_cells_None (data : list ascii) (n i : nat) :
  (0 < n)%nat -> (length data < i + n)%nat -> hex_cells data i n = None.
Proof.
  revert i. induction n as [|n IH]; intros i Hn Hi; [lia|].
  cbn [hex_cells]. destruct (data !! i) as [c|] eqn:Hc; [|reflexivity].
  apply lookup_lt_Some in Hc. bind_step.
  rewrite (IH (S i)) by lia. reflexivity.
Qed.

(** The character column has one printable character for a byte. *)
Lemma ascii_cells_Some (data : list ascii) (n i : nat) :
  (i + n <= length data)%nat ->
  exists cs, ascii_cells data i n = Some cs /\ length cs = n /\
    Forall printable cs.
Proof.
  revert i. induction n as [|n IH]; intros i Hi; cbn [ascii_cells].
  - exists []. repeat split. constructor.
  - destruct (lookup_lt_is_Some_2 data i ltac:(lia)) as [c Hc].
    destruct (IH (S i) ltac:(lia)) as (rest & Hrest & Hlen & Hpr).
    rewrite Hc. bind_step. rewrite Hrest. bind_step.
    eexists. split; [reflexivity|]. split; [cbn [length]; lia|].
    constructor; [|exact Hpr].
    change (uchar " ") with 32. change (uchar "~") with 126.
    destruct (Z.leb_spec 32 (uchar c)), (Z.leb_spec (uchar c) 126);
      cbn [andb]; unfold printable; try lia;
      change (uchar ".") with 46; lia.
Qed.

(** Both columns read the bytes [i .. i + n - 1] and nothing else. *)
Lemma hex_cells_ext (d1 d2 : list ascii) (n i : nat) :
  (forall k, (i <= k < i + n)%nat -> d1 !! k = d2 !! k) ->
  hex_cells d1 i n = hex_cells d2 i n.
Proof.
  revert i. induction n as [|n IH]; intros i H; cbn [hex_cells]; [reflexivity|].
  rewrite (H i) by lia. rewrite (IH (S i)); [reflexivity|].
  intros k Hk. apply H. lia.
Qed.

Lemma ascii_cells_ext (d1 d2 : list ascii) (n i : nat) :
  (forall k, (i <= k < i + n)%nat -> d1 !! k = d2 !! k) ->
  ascii_cells d1 i n = ascii_cells d2 i n.
Proof.
  revert i. induction n as [|n IH]; intros i H; cbn [ascii_cells];
    [reflexivity|].
  rewrite (H i) by lia. rewrite (IH (S i)); [reflexivity|].
  intros k Hk. apply H. lia.
Qed.

(** The hexadecimal column tells the bytes it was printed from. *)
Lemma hex_cells_inj (d1 d2 : list ascii) (n i : nat) (cs : list ascii) :
  hex_cells d1 i n = Some cs -> hex_cells d2 i n = Some cs ->
  forall k, (i <= k < i + n)%nat -> d1 !! k = d2 !! k.
Proof.
  revert i cs. induction n as [|n IH]; intros i cs H1 H2 k Hk; [lia|].
  cbn [hex_cells] in H1, H2.
  destruct (d1 !! i) as [c1|] eqn:Hc1; [|discriminate].
  destruct (d2 !! i) as [c2|] eqn:Hc2; [|discriminate].
  rewrite bind_Some in H1, H2. cbv beta iota zeta in H1, H2.
  destruct (hex_cells d1 (S i) n) as [r1|] eqn:Hr1; [|discriminate].
  destruct (hex_cells d2 (S i) n) as [r2|] eqn:Hr2; [|discriminate].
  rewrite bind_Some in H1, H2. cbv beta iota zeta in H1, H2.
  assert (E : fmt_0X 2 (uchar c1) ++ " "%char
                :: (if Nat.eqb i 7 then [" "%char] else []) ++ r1
              = fmt_0X 2 (uchar c2) ++ " "%char
                :: (if Nat.eqb i 7 then [" "%char] else []) ++ r2)
    by congruence.
  assert (Hlen : length (fmt_0X 2 (uchar c1)) = length (fmt_0X 2 (uchar c2)))
    by (now rewrite !fmt_0X_byte_uchar).
  destruct (app_inj_1 _ _ _ _ Hlen E) as [Ef Er].
  apply fmt_0X_byte_inj in Ef; [|apply uchar_range..].
  apply uchar_inj in Ef. subst c2.
  assert (Er' : r1 = r2) by (injection Er as Er; now apply app_inv_head in Er).
  subst r2.
  destruct (decide (k = i)) as [->|Hne]; [congruence|].
  apply (IH (S i) r1 Hr1 Hr2). lia.
Qed.

(** ** A row *)

Lemma blanks_length (n : nat) :
  length (mjoin (replicate n [" "; " "; " "]%char)) = (3 * n)%nat /\
  Forall printable (mjoin (replicate n [" "; " "; " "]%char)).
Proof.
  induction n as [|n [IHl IHp]].
  - split; [reflexivity|constructor].
  - change (mjoin (replicate (S n) [" "; " "; " "]%char))
      with (" "%char :: " "%char :: " "%char
            :: mjoin (replicate n [" "; " "; " "]%char)).
    split; [cbn [length]; lia|].
    repeat (constructor; [apply printable_space|]). exact IHp.
Qed.

Lemma hex_padding_length (t : Z) :
  0 <= t <= 16 ->
  sizeof (hex_padding t) = 3 * (16 - t) + (if t <? 8 then 1 else 0).
Proof.
  intros Ht. unfold hex_padding, sizeof.
  destruct (Z.ltb_spec t 16).
  - rewrite length_app.
    destruct (blanks_length (Z.to_nat (16 - t))) as [-> _].
    destruct (Z.ltb_spec t 8); cbn [length]; lia.
  - destruct (Z.ltb_spec t 8); cbn [length]; lia.
Qed.

Lemma hex_padding_printable (t : Z) : Forall printable (hex_padding t).
Proof.
  unfold hex_padding. destruct (t <? 16); [|constructor].
  apply Forall_app. split; [apply blanks_length|].
  destruct (t <? 8); [constructor; [apply printable_space|]|]; constructor.
Qed.

Lemma printable_bar : printable "|"%char.
Proof. unfold printable. change (uchar "|") with 124. lia. Qed.

(** A row whose bytes are inside the array is printed: 63 printable
    characters around the bytes, starting with the address, and a line
    feed. *)
Lemma hexdump_row_Some (data : list ascii) (t a : Z) :
  0 < t <= 16 -> t <= sizeof data ->
  exists body, hexdump_row data t a = Some (body ++ [LF]) /\
    sizeof body = 63 + t /\ Forall printable body /\
    take 8 body = fmt_0X 8 a.
Proof.
  intros Ht Hin. unfold sizeof in Hin. unfold hexdump_row.
  destruct (hex_cells_Some data (Z.to_nat t) 0 ltac:(lia))
    as (cells & Hc & Hcl & Hcp).
  destruct (ascii_cells_Some data (Z.to_nat t) 0 ltac:(lia))
    as (chars & Ha & Hal & Hap).
  rewrite Hc. bind_step. rewrite Ha. bind_step.
  exists (fmt_0X 8 a ++ [" "; " "]%char ++ cells ++ hex_padding t
          ++ [" "; " "; "|"]%char ++ chars ++ ["|"%char]).
  split; [|split; [|split]].
  - f_equal. rewrite <- !app_assoc. reflexivity.
  - pose proof (hex_padding_length t ltac:(lia)) as Hp.
    unfold sizeof in *. rewrite !length_app, fmt_0X_8_length, Hcl, Hal.
    cbn [length].
    destruct (Nat.ltb_spec 7 (0 + Z.to_nat t)), (Z.ltb_spec t 8);
      cbn [Nat.leb andb] in *; lia.
  - apply Forall_app. split; [apply fmt_0X_printable|].
    apply Forall_app. split; [repeat constructor; apply printable_space|].
    apply Forall_app. split; [exact Hcp|].
    apply Forall_app. split; [apply hex_padding_printable|].
    apply Forall_app. split.
    { repeat (constructor; [first [apply printable_space|apply printable_bar]|]).
      constructor. }
    apply Forall_app. split; [exact Hap|].
    constructor; [apply printable_bar|constructor].
  - apply take_app_length'. now rewrite fmt_0X_8_length.
Qed.

(** A row that goes past the end of the array is undefined. *)
Lemma hexdump_row_None (data : list ascii) (t a : Z) :
  0 < t -> sizeof data < t -> hexdump_row data t a = None.
Proof.
  intros Ht Hout. unfold sizeof in Hout. unfold hexdump_row.
  rewrite (hex_cells_None data (Z.to_nat t) 0) by lia. reflexivity.
Qed.

(** A row depends on its own bytes only. *)
Lemma hexdump_row_ext (d1 d2 : list ascii) (t a : Z) :
  take (Z.to_nat t) d1 = take (Z.to_nat t) d2 ->
  hexdump_row d1 t a = hexdump_row d2 t a.
Proof.
  intros E. unfold hexdump_row.
  assert (H : forall k, (0 <= k < 0 + Z.to_nat t)%nat -> d1 !! k = d2 !! k).
  { intros k Hk.
    rewrite <- (lookup_take_lt d1 (Z.to_nat t) k) by lia.
    rewrite <- (lookup_take_lt d2 (Z.to_nat t) k) by lia.
    now rewrite E. }
  now rewrite (hex_cells_ext d1 d2 _ 0 H), (ascii_cells_ext d1 d2 _ 0 H).
Qed.

(** Two arrays that give the same row have the same bytes in it. *)
Lemma hexdump_row_inj (d1 d2 : list ascii) (t a : Z) (row : list ascii) :
  hexdump_row d1 t a = Some row -> hexdump_row d2 t a = Some row ->
  take (Z.to_nat t) d1 = take (Z.to_nat t) d2.
Proof.
  unfold hexdump_row. intros H1 H2.
  destruct (hex_cells d1 0 (Z.to_nat t)) as [c1|] eqn:Hc1; [|discriminate].
  destruct (hex_cells d2 0 (Z.to_nat t)) as [c2|] eqn:Hc2; [|discriminate].
  rewrite bind_Some in H1, H2. cbv beta iota zeta in H1, H2.
  destruct (ascii_cells d1 0 (Z.to_nat t)) as [a1|] eqn:Ha1; [|discriminate].
  destruct (ascii_cells d2 0 (Z.to_nat t)) as [a2|] eqn:Ha2; [|discriminate].
  rewrite bind_Some in H1, H2. cbv beta iota zeta in H1, H2.
  assert (Hd1 : (0 + Z.to_nat t <= length d1)%nat).
  { destruct (decide (0 + Z.to_nat t <= length d1)%nat) as [|Hn]; [assumption|].
    rewrite (hex_cells_None d1 (Z.to_nat t) 0) in Hc1 by lia. discriminate. }
  assert (Hd2 : (0 + Z.to_nat t <= length d2)%nat).
  { destruct (decide (0 + Z.to_nat t <= length d2)%nat) as [|Hn]; [assumption|].
    rewrite (hex_cells_None d2 (Z.to_nat t) 0) in Hc2 by lia. discriminate. }
  destruct (hex_cells_Some d1 (Z.to_nat t) 0 Hd1) as (c1' & Hc1' & Hl1 & _).
  destruct (hex_cells_Some d2 (Z.to_nat t) 0 Hd2) as (c2' & Hc2' & Hl2 & _).
  assert (c1' = c1) by congruence. assert (c2' = c2) by congruence.
  subst c1' c2'.
  assert (E : fmt_0X 8 a ++ [" "; " "]%char ++ c1 ++ hex_padding t
                ++ [" "; " "; "|"]%char ++ a1 ++ ["|"%char; LF]
              = fmt_0X 8 a ++ [" "; " "]%char ++ c2 ++ hex_padding t
                ++ [" "; " "; "|"]%char ++ a2 ++ ["|"%char; LF])
    by congruence.
  apply app_inv_head in E. apply app_inv_head in E.
  assert (Hl : length c1 = length c2) by congruence.
  destruct (app_inj_1 _ _ _ _ Hl E) as [Ec _]. subst c2.
  apply list_eq. intros k.
  destruct (decide (k < Z.to_nat t)%nat) as [Hk|Hk].
  - rewrite !lookup_take_lt by lia.
    apply (hex_cells_inj d1 d2 (Z.to_nat t) 0 c1 Hc1 Hc2). lia.
  - rewrite !lookup_take_ge by lia. reflexivity.
Qed.

(** ** The loop over the rows *)

Lemma hexdump_loop_step (fuel : nat) (data : list ascii) (rem a : Z) :
  0 < rem ->
  hexdump_loop (S fuel) data rem a
  = (row ← hexdump_row data (Z.min rem 16) a;
     rest ← hexdump_loop fuel (drop (Z.to_nat (Z.min rem 16)) data)
              (unsigned (rem - Z.min rem 16)) (unsigned (a + Z.min rem 16));
     Some (row ++ rest)).
Proof.
  intros Hrem. cbn [hexdump_loop].
  destruct (Z.eqb_spec rem 0); [lia|].
  replace (if rem <? 16 then rem else 16) with (Z.min rem 16)
    by (destruct (Z.ltb_spec rem 16); lia).
  reflexivity.
Qed.

Lemma hexdump_loop_done (fuel : nat) (data : list ascii) (a : Z) :
  hexdump_loop fuel data 0 a = Some [].
Proof. destruct fuel; reflexivity. Qed.

Lemma unsigned_small (z : Z) : 0 <= z < 4294967296 -> unsigned z = z.
Proof. unfold unsigned. lia. Qed.

(** The loop ends before the fuel does: more fuel changes nothing. *)
Lemma hexdump_loop_fuel (f1 f2 : nat) (data : list ascii) (rem a : Z) :
  0 <= rem <= Z.of_nat f1 -> rem <= Z.of_nat f2 -> rem < 4294967296 ->
  hexdump_loop f1 data rem a = hexdump_loop f2 data rem a.
Proof.
  revert f2 data rem a.
  induction f1 as [|f1 IH]; intros f2 data rem a H1 H2 Hr.
  - replace rem with 0 by lia. now rewrite !hexdump_loop_done.
  - destruct (decide (rem = 0)) as [->|Hne];
      [now rewrite !hexdump_loop_done|].
    destruct f2 as [|f2]; [lia|].
    rewrite !hexdump_loop_step by lia.
    rewrite (unsigned_small (rem - Z.min rem 16)) by lia.
    rewrite (IH f2) by lia. reflexivity.
Qed.

Lemma printable_not_LF (l : list ascii) :
  Forall printable l -> count_occ ascii_dec l LF = 0%nat.
Proof.
  induction 1 as [|c l Hc _ IH]; [reflexivity|].
  cbn [count_occ]. destruct (ascii_dec c LF) as [->|_]; [|exact IH].
  unfold printable in Hc. change (uchar LF) with 10 in Hc. lia.
Qed.

(** With all its bytes inside the array the loop prints: every row is a
    line of printable characters, 64 characters and the bytes of the
    row. *)
Lemma hexdump_loop_Some (fuel : nat) (data : list ascii) (rem a : Z) :
  0 <= rem <= Z.of_nat fuel -> rem < 4294967296 -> rem <= sizeof data ->
  exists out, hexdump_loop fuel data rem a = Some out /\
    sizeof out = 64 * ((rem + 15) / 16) + rem /\
    Forall (fun c => printable c \/ c = LF) out /\
    Z.of_nat (count_occ ascii_dec out LF) = (rem + 15) / 16.
Proof.
  revert data rem a. induction fuel as [|fuel IH]; intros data rem a Hf Hr Hin.
  - replace rem with 0 by lia. exists []. cbn. repeat split. constructor.
  - destruct (decide (rem = 0)) as [->|Hne].
    { exists []. cbn. repeat split. constructor. }
    rewrite hexdump_loop_step by lia.
    destruct (hexdump_row_Some data (Z.min rem 16) a ltac:(lia) ltac:(lia))
      as (body & Hrow & Hbl & Hbp & _).
    rewrite (unsigned_small (rem - Z.min rem 16)) by lia.
    destruct (IH (drop (Z.to_nat (Z.min rem 16)) data) (rem - Z.min rem 16)
                (unsigned (a + Z.min rem 16)) ltac:(lia) ltac:(lia))
      as (rest & Hrest & Hrl & Hrp & Hrc).
    { rewrite sizeof_drop. lia. }
    rewrite Hrow. bind_step. rewrite Hrest. bind_step.
    eexists. split; [reflexivity|]. split; [|split].
    + rewrite !sizeof_app, Hbl, Hrl. change (sizeof [LF]) with 1. lia.
    + apply Forall_app. split; [|exact Hrp].
      apply Forall_app. split.
      * eapply Forall_impl; [exact Hbp|]. intros c Hc. now left.
      * constructor; [now right|constructor].
    + rewrite !count_occ_app, (printable_not_LF body Hbp).
      change (count_occ ascii_dec [LF] LF) with 1%nat. lia.
Qed.

(** A byte past the end of the array makes the loop undefined. *)
Lemma hexdump_loop_None (fuel : nat) (data : list ascii) (rem a : Z) :
  0 <= rem <= Z.of_nat fuel -> rem < 4294967296 -> sizeof data < rem ->
  hexdump_loop fuel data rem a = None.
Proof.
  revert data rem a. induction fuel as [|fuel IH]; intros data rem a Hf Hr Hout.
  - pose proof (sizeof_nonneg data). lia.
  - pose proof (sizeof_nonneg data).
    rewrite hexdump_loop_step by lia.
    destruct (decide (sizeof data < Z.min rem 16)) as [Hs|Hs].
    + rewrite hexdump_row_None by lia. reflexivity.
    + destruct (hexdump_row_Some data (Z.min rem 16) a ltac:(lia) ltac:(lia))
        as (body & Hrow & _).
      rewrite Hrow. bind_step.
      rewrite (unsigned_small (rem - Z.min rem 16)) by lia.
      rewrite IH; [reflexivity|lia|lia|].
      rewrite sizeof_drop. lia.
Qed.

(** The loop depends on the bytes it is asked to show only. *)
Lemma hexdump_loop_ext (fuel : nat) (d1 d2 : list ascii) (rem a : Z) :
  0 <= rem <= Z.of_nat fuel -> rem < 4294967296 ->
  take (Z.to_nat rem) d1 = take (Z.to_nat rem) d2 ->
  hexdump_loop fuel d1 rem a = hexdump_loop fuel d2 rem a.
Proof.
  revert d1 d2 rem a.
  induction fuel as [|fuel IH]; intros d1 d2 rem a Hf Hr E; [reflexivity|].
  destruct (decide (rem = 0)) as [->|Hne]; [reflexivity|].
  rewrite !hexdump_loop_step by lia.
  rewrite (unsigned_small (rem - Z.min rem 16)) by lia.
  assert (Et : take (Z.to_nat (Z.min rem 16)) d1
               = take (Z.to_nat (Z.min rem 16)) d2).
  { apply (f_equal (take (Z.to_nat (Z.min rem 16)))) in E.
    rewrite !take_take in E.
    now replace (Z.to_nat (Z.min rem 16) `min` Z.to_nat rem)%nat
      with (Z.to_nat (Z.min rem 16)) in E by lia. }
  rewrite (hexdump_row_ext d1 d2 _ a Et).
  rewrite (IH (drop (Z.to_nat (Z.min rem 16)) d1)
              (drop (Z.to_nat (Z.min rem 16)) d2)); [reflexivity|lia|lia|].
  rewrite !take_drop_commute.
  replace (Z.to_nat (Z.min rem 16) + Z.to_nat (rem - Z.min rem 16))%nat
    with (Z.to_nat rem) by lia.
  now rewrite E.
Qed.

(** Two arrays with the same dump have the same bytes in it. *)
Lemma hexdump_loop_inj (fuel : nat) (d1 d2 : list ascii) (rem a : Z)
    (out : list ascii) :
  0 <= rem <= Z.of_nat fuel -> rem < 4294967296 ->
  hexdump_loop fuel d1 rem a = Some out ->
  hexdump_loop fuel d2 rem a = Some out ->
  take (Z.to_nat rem) d1 = take (Z.to_nat rem) d2.
Proof.
  revert d1 d2 rem a out.
  induction fuel as [|fuel IH]; intros d1 d2 rem a out Hf Hr H1 H2.
  - now replace rem with 0 by lia.
  - destruct (decide (rem = 0)) as [->|Hne]; [reflexivity|].
    rewrite hexdump_loop_step in H1, H2 by lia.
    rewrite (unsigned_small (rem - Z.min rem 16)) in H1, H2 by lia.
    destruct (hexdump_row d1 (Z.min rem 16) a) as [row1|] eqn:Hrow1;
      [|discriminate].
    destruct (hexdump_row d2 (Z.min rem 16) a) as [row2|] eqn:Hrow2;
      [|discriminate].
    rewrite bind_Some in H1, H2. cbv beta iota zeta in H1, H2.
    destruct (hexdump_loop fuel (drop (Z.to_nat (Z.min rem 16)) d1) _ _)
      as [rest1|] eqn:Hrest1; [|discriminate].
    destruct (hexdump_loop fuel (drop (Z.to_nat (Z.min rem 16)) d2) _ _)
      as [rest2|] eqn:Hrest2; [|discriminate].
    rewrite bind_Some in H1, H2. cbv beta iota zeta in H1, H2.
    assert (Hin1 : Z.min rem 16 <= sizeof d1).
    { destruct (decide (Z.min rem 16 <= sizeof d1)) as [|Hn]; [assumption|].
      rewrite hexdump_row_None in Hrow1 by lia. discriminate. }
    assert (Hin2 : Z.min rem 16 <= sizeof d2).
    { destruct (decide (Z.min rem 16 <= sizeof d2)) as [|Hn]; [assumption|].
      rewrite hexdump_row_None in Hrow2 by lia. discriminate. }
    destruct (hexdump_row_Some d1 (Z.min rem 16) a ltac:(lia) Hin1)
      as (b1 & Hb1 & Hl1 & _).
    destruct (hexdump_row_Some d2 (Z.min rem 16) a ltac:(lia) Hin2)
      as (b2 & Hb2 & Hl2 & _).
    assert (Hlen : length row1 = length row2).
    { assert (row1 = b1 ++ [LF]) as -> by congruence.
      assert (row2 = b2 ++ [LF]) as -> by congruence.
      unfold sizeof in Hl1, Hl2. rewrite !length_app. lia. }
    assert (E : row1 ++ rest1 = row2 ++ rest2) by congruence.
    destruct (app_inj_1 _ _ _ _ Hlen E) as [Erow Erest].
    subst row2 rest2.
    pose proof (hexdump_row_inj d1 d2 _ a row1 Hrow1 Hrow2) as Et.
    assert (Ed : take (Z.to_nat (rem - Z.min rem 16))
                   (drop (Z.to_nat (Z.min rem 16)) d1)
                 = take (Z.to_nat (rem - Z.min rem 16))
                     (drop (Z.to_nat (Z.min rem 16)) d2))
      by (eapply IH; [| |exact Hrest1|exact Hrest2]; lia).
    replace (Z.to_nat rem)
      with (Z.to_nat (Z.min rem 16) + Z.to_nat (rem - Z.min rem 16))%nat
      by lia.
    rewrite <- !take_take_drop. now rewrite Et, Ed.
Qed.

(** The rows for the first [16 * k] bytes do not depend on what follows
    them, and the following rows are those of a dump that starts at the
    address [16 * k]. *)
Lemma hexdump_loop_app (k : nat) :
  forall (f f1 f2 : nat) (data : list ascii) (m a : Z),
  0 <= m -> 0 <= a < 4294967296 -> 16 * Z.of_nat k + m < 4294967296 ->
  16 * Z.of_nat k + m <= Z.of_nat f -> 16 * Z.of_nat k <= Z.of_nat f1 ->
  m <= Z.of_nat f2 ->
  hexdump_loop f data (16 * Z.of_nat k + m) a
  = (r1 ← hexdump_loop f1 data (16 * Z.of_nat k) a;
     r2 ← hexdump_loop f2 (drop (Z.to_nat (16 * Z.of_nat k)) data) m
            (unsigned (a + 16 * Z.of_nat k));
     Some (r1 ++ r2)).
Proof.
  induction k as [|k IH]; intros f f1 f2 data m a Hm Ha Hr Hf Hf1 Hf2.
  - change (16 * Z.of_nat 0) with 0. rewrite hexdump_loop_done. bind_step.
    rewrite Z.add_0_l, Z.add_0_r, (unsigned_small a Ha).
    change (drop (Z.to_nat 0) data) with data.
    rewrite (hexdump_loop_fuel f f2) by lia.
    now destruct (hexdump_loop f2 data m a).
  - destruct f as [|f]; [lia|]. destruct f1 as [|f1]; [lia|].
    rewrite !hexdump_loop_step by lia.
    replace (Z.min (16 * Z.of_nat (S k) + m) 16) with 16 by lia.
    replace (Z.min (16 * Z.of_nat (S k)) 16) with 16 by lia.
    destruct (hexdump_row data 16 a) as [row|]; [|reflexivity].
    rewrite !bind_Some. cbv beta iota zeta.
    replace (16 * Z.of_nat (S k) + m - 16) with (16 * Z.of_nat k + m) by lia.
    replace (16 * Z.of_nat (S k) - 16) with (16 * Z.of_nat k) by lia.
    rewrite (unsigned_small (16 * Z.of_nat k + m)) by lia.
    rewrite (unsigned_small (16 * Z.of_nat k)) by lia.
    rewrite (IH f f1 f2) by (unfold unsigned; lia).
    destruct (hexdump_loop f1 (drop (Z.to_nat 16) data) (16 * Z.of_nat k) _)
      as [r1|]; [|reflexivity].
    rewrite !bind_Some. cbv beta iota zeta.
    rewrite drop_drop.
    replace (Z.to_nat 16 + Z.to_nat (16 * Z.of_nat k))%nat
      with (Z.to_nat (16 * Z.of_nat (S k))) by lia.
    replace (unsigned (unsigned (a + 16) + 16 * Z.of_nat k))
      with (unsigned (a + 16 * Z.of_nat (S k))) by (unfold unsigned; lia).
    destruct (hexdump_loop f2 _ m _) as [r2|]; [|reflexivity].
    rewrite !bind_Some. cbv beta iota zeta. now rewrite app_assoc.
Qed.

(** A dump that is defined stayed inside the array, and has the shape
    described by [hexdump_loop_Some]. *)
Lemma hexdump_loop_inv (fuel : nat) (data : list ascii) (rem a : Z)
    (out : list ascii) :
  0 <= rem <= Z.of_nat fuel -> rem < 4294967296 ->
  hexdump_loop fuel data rem a = Some out ->
  rem <= sizeof data /\
  sizeof out = 64 * ((rem + 15) / 16) + rem /\
  Forall (fun c => printable c \/ c = LF) out /\
  Z.of_nat (count_occ ascii_dec out LF) = (rem + 15) / 16.
Proof.
  intros Hf Hr H.
  assert (Hin : rem <= sizeof data).
  { destruct (decide (rem <= sizeof data)) as [|Hn]; [assumption|].
    rewrite hexdump_loop_None in H by lia. discriminate. }
  split; [exact Hin|].
  destruct (hexdump_loop_Some fuel data rem a Hf Hr Hin) as (out' & H' & P).
  assert (out' = out) by congruence. subst out'. exact P.
Qed.

(** The character column shows a byte as itself when it is printable
    and as a dot otherwise. *)
Lemma ascii_cells_lookup (data : list ascii) (n i : nat) (cs : list ascii) :
  ascii_cells data i n = Some cs ->
  forall (j : nat) (c : ascii), (j < n)%nat -> data !! (i + j)%nat = Some c ->
  cs !! j = Some (if (32 <=? uchar c) && (uchar c <=? 126)
                  then c else "."%char).
Proof.
  revert i cs. induction n as [|n IH]; intros i cs H j c Hj Hc; [lia|].
  cbn [ascii_cells] in H.
  destruct (data !! i) as [c0|] eqn:Hc0; [|discriminate].
  rewrite bind_Some in H. cbv beta iota zeta in H.
  destruct (ascii_cells data (S i) n) as [rest|] eqn:Hrest; [|discriminate].
  rewrite bind_Some in H. cbv beta iota zeta in H.
  change (uchar " ") with 32 in H. change (uchar "~") with 126 in H.
  injection H as <-.
  destruct j as [|j].
  - rewrite Nat.add_0_r in Hc. assert (c0 = c) as -> by congruence.
    reflexivity.
  - cbn [lookup list_lookup]. apply (IH (S i) rest Hrest j c); [lia|].
    rewrite <- Hc. f_equal. lia.
Qed.

(** In a row the character column starts at character 62. *)
Lemma hexdump_row_char (data : list ascii) (t a : Z) (row : list ascii) :
  0 < t <= 16 -> hexdump_row data t a = Some row ->
  forall (j : nat) (c : ascii), Z.of_nat j < t -> data !! j = Some c ->
  row !! (62 + j)%nat
  = Some (if (32 <=? uchar c) && (uchar c <=? 126) then c else "."%char).
Proof.
  intros Ht H j c Hj Hc. unfold hexdump_row in H.
  destruct (hex_cells data 0 (Z.to_nat t)) as [cells|] eqn:Hcells;
    [|discriminate].
  rewrite bind_Some in H. cbv beta iota zeta in H.
  destruct (ascii_cells data 0 (Z.to_nat t)) as [chars|] eqn:Hchars;
    [|discriminate].
  rewrite bind_Some in H. cbv beta iota zeta in H.
  assert (Hin : (0 + Z.to_nat t <= length data)%nat).
  { destruct (decide (0 + Z.to_nat t <= length data)%nat) as [|Hn];
      [assumption|].
    rewrite (hex_cells_None data (Z.to_nat t) 0) in Hcells by lia.
    discriminate. }
  destruct (hex_cells_Some data (Z.to_nat t) 0 Hin) as (cells' & E1 & Hlc & _).
  destruct (ascii_cells_Some data (Z.to_nat t) 0 Hin) as (chars' & E2 & Hla & _).
  assert (cells' = cells) by congruence. assert (chars' = chars) by congruence.
  subst cells' chars'.
  pose proof (hex_padding_length t ltac:(lia)) as Hlp. unfold sizeof in Hlp.
  pose proof (fmt_0X_8_length a) as Hlf.
  set (pre := (((fmt_0X 8 a ++ [" "; " "]%char) ++ cells) ++ hex_padding t)
              ++ [" "; " "; "|"]%char).
  assert (Hpre : length pre = 62%nat).
  { subst pre. rewrite !length_app, Hlf, Hlc. cbn [length].
    destruct (Nat.ltb_spec 7 (0 + Z.to_nat t)), (Z.ltb_spec t 8);
      cbn [Nat.leb andb] in *; lia. }
  assert (Hrow : row = pre ++ chars ++ ["|"%char; LF]).
  { subst pre. injection H as <-. rewrite <- !app_assoc. reflexivity. }
  rewrite Hrow, lookup_app_r by lia.
  replace (62 + j - length pre)%nat with j by lia.
  rewrite lookup_app_l by lia.
  apply (ascii_cells_lookup data (Z.to_nat t) 0 chars Hchars j c); [lia|].
  exact Hc.
Qed.

(** Byte [i] shows at character [62 + i mod 16] of row [i / 16]. *)
Lemma hexdump_loop_char (fuel : nat) (data : list ascii) (rem a : Z)
    (out : list ascii) :
  0 <= rem <= Z.of_nat fuel -> rem < 4294967296 ->
  hexdump_loop fuel data rem a = Some out ->
  forall (i : Z) (c : ascii), 0 <= i < rem -> data !! Z.to_nat i = Some c ->
  out !! Z.to_nat (80 * (i / 16) + 62 + i mod 16)
  = Some (if (32 <=? uchar c) && (uchar c <=? 126) then c else "."%char).
Proof.
  revert data rem a out.
  induction fuel as [|fuel IH]; intros data rem a out Hf Hr H i c Hi Hc; [lia|].
  rewrite hexdump_loop_step in H by lia.
  rewrite (unsigned_small (rem - Z.min rem 16)) in H by lia.
  destruct (hexdump_row data (Z.min rem 16) a) as [row|] eqn:Hrow;
    [|discriminate].
  rewrite bind_Some in H. cbv beta iota zeta in H.
  destruct (hexdump_loop fuel (drop (Z.to_nat (Z.min rem 16)) data) _ _)
    as [rest|] eqn:Hrest; [|discriminate].
  rewrite bind_Some in H. cbv beta iota zeta in H. injection H as <-.
  assert (Hin : Z.min rem 16 <= sizeof data).
  { destruct (decide (Z.min rem 16 <= sizeof data)) as [|Hn]; [assumption|].
    rewrite hexdump_row_None in Hrow by lia. discriminate. }
  destruct (hexdump_row_Some data (Z.min rem 16) a ltac:(lia) Hin)
    as (body & Hb & Hbl & _).
  assert (Hlen : Z.of_nat (length row) = 64 + Z.min rem 16).
  { assert (row = body ++ [LF]) as -> by congruence.
    unfold sizeof in Hbl. rewrite length_app. cbn [length]. lia. }
  destruct (Z.lt_ge_cases i (Z.min rem 16)) as [Hlow|Hhigh].
  - rewrite lookup_app_l by lia.
    replace (Z.to_nat (80 * (i / 16) + 62 + i mod 16))
      with (62 + Z.to_nat i)%nat by lia.
    apply (hexdump_row_char data (Z.min rem 16) a row ltac:(lia) Hrow);
      [lia|exact Hc].
  - rewrite lookup_app_r by lia.
    replace (Z.to_nat (80 * (i / 16) + 62 + i mod 16) - length row)%nat
      with (Z.to_nat (80 * ((i - 16) / 16) + 62 + (i - 16) mod 16)) by lia.
    apply (IH (drop (Z.to_nat (Z.min rem 16)) data) (rem - Z.min rem 16)
              (unsigned (a + Z.min rem 16)) rest); [lia|lia|exact Hrest|lia|].
    rewrite lookup_drop, <- Hc. f_equal. lia.
Qed.

(** ** What [hexdump] prints *)

(** X1.  [hexdump(address, count)] reads the [count] bytes that start at
    [address]: the call is defined exactly when the array holds that
    many bytes; with a larger [count] it reads past the end of the
    array. *)
Theorem hexdump_defined_iff (data : list ascii) (count : Z) :
  0 <= count < 4294967296 ->
  (is_Some (hexdump data count) <-> count <= sizeof data).
Proof.
  intros Hc. unfold hexdump. rewrite (unsigned_small count Hc). split.
  - intros [out Hout].
    apply (hexdump_loop_inv (Z.to_nat count) data count 0 out); [lia|lia|exact Hout].
  - intros Hin.
    destruct (hexdump_loop_Some (Z.to_nat count) data count 0) as (out & H & _);
      [lia|lia|exact Hin|].
    now exists out.
Qed.

Lemma hexdump_defined_iff_witness :
  is_Some (hexdump ["A"; "B"; "C"]%char 2) <-> 2 <= sizeof ["A"; "B"; "C"]%char.
Proof. apply (hexdump_defined_iff ["A"; "B"; "C"]%char 2). lia. Defined.

(** X2.  The dump of [count] bytes has [ceil (count / 16)] rows, and a
    row is 64 characters longer than the bytes it shows: 80 characters
    for a full row, line feed included. *)
Theorem hexdump_output_length (data out : list ascii) (count : Z) :
  0 <= count < 4294967296 ->
  hexdump data count = Some out ->
  sizeof out = 64 * ((count + 15) / 16) + count.
Proof.
  intros Hc. unfold hexdump. rewrite (unsigned_small count Hc). intros H.
  apply (hexdump_loop_inv (Z.to_nat count) data count 0 out); [lia|lia|exact H].
Qed.

Lemma hexdump_output_length_witness :
  exists out, hexdump (replicate 17 "0"%char) 17 = Some out /\
    sizeof out = 64 * 2 + 17.
Proof.
  eexists. split; [vm_compute; reflexivity|].
  apply (hexdump_output_length (replicate 17 "0"%char) _ 17);
    [lia|vm_compute; reflexivity].
Defined.

(** X3.  Whatever the bytes are, the dump is made of printable
    characters and line feeds only, and it has one line feed for a row;
    byte [i] shows in the character column, at character
    [62 + i mod 16] of row [i / 16], as itself when it is printable and
    as a dot otherwise (a control character, a line feed say, shows as a
    dot). *)
Theorem hexdump_output_lines (data out : list ascii) (count : Z) :
  0 <= count < 4294967296 ->
  hexdump data count = Some out ->
  Forall (fun c => printable c \/ c = LF) out /\
  Z.of_nat (count_occ ascii_dec out LF) = (count + 15) / 16 /\
  (forall (i : Z) (c : ascii),
   0 <= i < count -> data !! Z.to_nat i = Some c ->
   out !! Z.to_nat (80 * (i / 16) + 62 + i mod 16)
   = Some (if (32 <=? uchar c) && (uchar c <=? 126) then c else "."%char)).
Proof.
  intros Hc. unfold hexdump. rewrite (unsigned_small count Hc). intros H.
  destruct (hexdump_loop_inv (Z.to_nat count) data count 0 out
              ltac:(lia) ltac:(lia) H) as (_ & _ & Hp & Hl).
  split; [exact Hp|]. split; [exact Hl|].
  apply (hexdump_loop_char (Z.to_nat count) data count 0 out);
    [lia|lia|exact H].
Qed.

Lemma hexdump_output_lines_witness :
  exists out, hexdump ["A"; LF; "z"]%char 3 = Some out /\
    Forall (fun c => printable c \/ c = LF) out /\
    Z.of_nat (count_occ ascii_dec out LF) = 1 /\
    out !! 62%nat = Some "A"%char /\
    out !! 63%nat = Some "."%char /\
    out !! 64%nat = Some "z"%char.
Proof.
  eexists. split; [vm_compute; reflexivity|].
  destruct (hexdump_output_lines ["A"; LF; "z"]%char _ 3 ltac:(lia) eq_refl)
    as (Hp & Hl & Hc).
  split; [exact Hp|]. split; [exact Hl|].
  split; [exact (Hc 0 "A"%char ltac:(lia) eq_refl)|].
  split; [exact (Hc 1 LF ltac:(lia) eq_refl)
         |exact (Hc 2 "z"%char ltac:(lia) eq_refl)].
Defined.

(** X4.  The dump shows the first [count] bytes and nothing else, and
    shows them all: two arrays have the same dump of [count] bytes
    exactly when their first [count] bytes are the same. *)
Theorem hexdump_lossless (d1 d2 : list ascii) (count : Z) :
  0 <= count < 4294967296 ->
  count <= sizeof d1 -> count <= sizeof d2 ->
  (hexdump d1 count = hexdump d2 count
   <-> take (Z.to_nat count) d1 = take (Z.to_nat count) d2).
Proof.
  intros Hc H1 H2. unfold hexdump. rewrite (unsigned_small count Hc). split.
  - intros E.
    destruct (hexdump_loop_Some (Z.to_nat count) d1 count 0) as (out & Ho & _);
      [lia|lia|exact H1|].
    apply (hexdump_loop_inj (Z.to_nat count) d1 d2 count 0 out);
      [lia|lia|exact Ho|congruence].
  - intros E. apply hexdump_loop_ext; [lia|lia|exact E].
Qed.

Lemma hexdump_lossless_witness :
  hexdump ["A"; "B"; "C"]%char 2 = hexdump ["A"; "B"; "D"]%char 2
  <-> take (Z.to_nat 2) ["A"; "B"; "C"]%char
      = take (Z.to_nat 2) ["A"; "B"; "D"]%char.
Proof.
  apply (hexdump_lossless ["A"; "B"; "C"]%char ["A"; "B"; "D"]%char 2);
    [lia|vm_compute; discriminate|vm_compute; discriminate].
Defined.

(** X5.  The rows come one after the other: the dump of [16 * k + m]
    bytes is the dump of the first [16 * k] bytes followed by the rows
    that the loop prints for the [m] bytes after them with the display
    address at [16 * k]. *)
Theorem hexdump_rows_compose (data : list ascii) (k m : Z) :
  0 <= k -> 0 <= m -> 16 * k + m < 4294967296 ->
  hexdump data (16 * k + m)
  = (r1 ← hexdump data (16 * k);
     r2 ← hexdump_loop (Z.to_nat m) (drop (Z.to_nat (16 * k)) data) m (16 * k);
     Some (r1 ++ r2)).
Proof.
  intros Hk Hm Hr. unfold hexdump. rewrite !unsigned_small by lia.
  rewrite <- (Z2Nat.id k Hk).
  rewrite (hexdump_loop_app (Z.to_nat k) _ (Z.to_nat (16 * Z.of_nat (Z.to_nat k)))
             (Z.to_nat m) data m 0) by lia.
  rewrite Z.add_0_l, unsigned_small by lia. reflexivity.
Qed.

Lemma hexdump_rows_compose_witness :
  hexdump (replicate 17 "0"%char) (16 * 1 + 1)
  = (r1 ← hexdump (replicate 17 "0"%char) (16 * 1);
     r2 ← hexdump_loop (Z.to_nat 1)
            (drop (Z.to_nat (16 * 1)) (replicate 17 "0"%char)) 1 (16 * 1);
     Some (r1 ++ r2)).
Proof. apply (hexdump_rows_compose (replicate 17 "0"%char) 1 1); lia. Defined.

(** X6.  Row [k] of the dump starts at character [80 * k] with the
    offset of its first byte, [16 * k], written as eight hexadecimal
    digits. *)
Theorem hexdump_row_address (data out : list ascii) (count k : Z) :
  0 <= k -> 16 * k < count < 4294967296 ->
  hexdump data count = Some out ->
  take 8 (drop (Z.to_nat (80 * k)) out) = fmt_0X 8 (16 * k).
Proof.
  intros Hk Hc. unfold hexdump. rewrite unsigned_small by lia.
  replace count with (16 * Z.of_nat (Z.to_nat k) + (count - 16 * k)) at 2 by lia.
  rewrite (hexdump_loop_app (Z.to_nat k) _ (Z.to_nat (16 * k))
             (S (Z.to_nat (count - 16 * k))) data (count - 16 * k) 0) by lia.
  rewrite Z.add_0_l, unsigned_small by lia.
  replace (16 * Z.of_nat (Z.to_nat k)) with (16 * k) by lia.
  destruct (hexdump_loop (Z.to_nat (16 * k)) data (16 * k) 0) as [r1|] eqn:Hr1;
    [|discriminate].
  bind_step. rewrite hexdump_loop_step by lia.
  destruct (hexdump_loop_inv (Z.to_nat (16 * k)) data (16 * k) 0 r1
              ltac:(lia) ltac:(lia) Hr1)
    as (_ & Hl1 & _).
  destruct (hexdump_row (drop (Z.to_nat (16 * k)) data)
              (Z.min (count - 16 * k) 16) (16 * k)) as [row|] eqn:Hrow;
    [|discriminate].
  bind_step.
  destruct (hexdump_loop (Z.to_nat (count - 16 * k)) _ _ _) as [rest|];
    [|discriminate].
  bind_step. intros [= <-].
  assert (Hin : Z.min (count - 16 * k) 16
                <= sizeof (drop (Z.to_nat (16 * k)) data)).
  { destruct (decide (Z.min (count - 16 * k) 16
                      <= sizeof (drop (Z.to_nat (16 * k)) data)))
      as [|Hn]; [assumption|].
    rewrite hexdump_row_None in Hrow by lia. discriminate. }
  destruct (hexdump_row_Some (drop (Z.to_nat (16 * k)) data)
              (Z.min (count - 16 * k) 16) (16 * k) ltac:(lia) Hin)
    as (body & Hb & Hbl & _ & Hba).
  assert (row = body ++ [LF]) as -> by congruence.
  rewrite drop_app_length' by (unfold sizeof in Hl1; lia).
  unfold sizeof in Hbl.
  rewrite <- !app_assoc, take_app_le by lia. exact Hba.
Qed.

Lemma hexdump_row_address_witness :
  exists out, hexdump (replicate 17 "0"%char) 17 = Some out /\
    take 8 (drop (Z.to_nat (80 * 1)) out) = fmt_0X 8 (16 * 1).
Proof.
  eexists. split; [vm_compute; reflexivity|].
  apply (hexdump_row_address (replicate 17 "0"%char) _ 17 1);
    [lia|lia|vm_compute; reflexivity].
Defined.

(** ** Who writes what in [log.c] *)

Lemma restart_dma_ld2 (za : bool) (st : state) :
  ld2 (fst (restart_dma za st)) = ld2 st.
Proof. unfold restart_dma. now destruct (negb _). Qed.

(** The copy into the ring changes the ring and the tail only. *)
Lemma enqueue_frame (st st' : state) (n : Z) :
  enqueue st n = Some st' ->
  _queue_head st' = _queue_head st /\
  _last_dma_count st' = _last_dma_count st /\
  huart2 st' = huart2 st /\
  ld2 st' = ld2 st /\
  _log_compose_buffer st' = _log_compose_buffer st.
Proof.
  unfold enqueue.
  destruct (_queue_tail st + n >=? LOG_DMA_BUFFER_SIZE).
  - destruct (memcpy (_usart2_tx_dma_buffer st) _ _ _ _) as [r1|];
      [bind_step|discriminate].
    destruct (memcpy r1 _ _ _ _) as [r2|]; [bind_step|discriminate].
    intros [= <-]. repeat split.
  - destruct (memcpy (_usart2_tx_dma_buffer st) _ _ _ _) as [r1|];
      [bind_step|discriminate].
    intros [= <-]. repeat split.
Qed.

(** X7.  A second call of [restart_dma] right after the first changes
    nothing and returns 0, in every state: either the first call left
    the engine busy (the engine taking a request as the specification
    describes), or the queue is empty and the request is for no byte
    again. *)
Theorem restart_dma_idempotent (za : bool) (st : state) :
  restart_dma za (fst (restart_dma za st)) = (fst (restart_dma za st), 0).
Proof.
  destruct (HAL_UART_GetState_ready (huart2 st)) eqn:Hr.
  - rewrite (restart_dma_ready za st Hr). cbn [fst].
    destruct (huart2 st) as [|o c]; [|discriminate].
    unfold HAL_UART_Transmit_DMA.
    destruct (Z.eqb_spec (qty_to_send st) 0) as [Hq|Hq]; destruct za;
      cbn [andb negb];
      try (rewrite restart_dma_busy by reflexivity; reflexivity).
    rewrite restart_dma_ready by reflexivity.
    change (qty_to_send
              (set_huart2 (set_last_dma_count st (qty_to_send st))
                 HAL_UART_STATE_READY)) with (qty_to_send st).
    rewrite Hq. reflexivity.
  - rewrite (restart_dma_busy za st Hr). cbn [fst].
    now rewrite (restart_dma_busy za st Hr).
Qed.

(** What a call of [logmsg] leaves alone. *)
Lemma logmsg_frame (za : bool) (st st' : state) (tick : Z)
    (text : list ascii) (r : Z) :
  logmsg za st tick text = Some (st', r) ->
  _queue_head st' = _queue_head st /\
  ld2 st' = ld2 st /\
  (HAL_UART_GetState_ready (huart2 st) = false ->
   huart2 st' = huart2 st /\ _last_dma_count st' = _last_dma_count st).
Proof.
  unfold logmsg.
  destruct (render_item (_log_compose_buffer st) tick text) as [[cb n]|];
    [bind_step|discriminate].
  destruct (n >? log_space_available (set_compose_buffer st cb)).
  { intros [= <- <-]. repeat split. }
  destruct (store _ _ _) as [cb'|]; [bind_step|discriminate].
  destruct (enqueue _ n) as [st2|] eqn:He; [bind_step|discriminate].
  intros [= <- <-].
  destruct (enqueue_frame _ _ _ He) as (Hh & Hl & Hu & Hd & _).
  simpl_state.
  destruct (restart_dma_head_tail za st2) as (Hh' & _).
  split; [congruence|]. split; [rewrite restart_dma_ld2; exact Hd|].
  intros Hbusy. rewrite restart_dma_busy by (rewrite Hu; exact Hbusy).
  cbn [fst]. split; assumption.
Qed.

(** X8.  [logmsg] is the producer: whatever it returns, it leaves the
    head index and the LED as they are, and while the engine is busy it
    changes neither the request in progress nor [_last_dma_count]. *)
Theorem logmsg_producer_frame (za : bool) (st st' : state) (tick : Z)
    (text : list ascii) (r : Z) :
  logmsg za st tick text = Some (st', r) ->
  _queue_head st' = _queue_head st /\
  ld2 st' = ld2 st /\
  (HAL_UART_GetState_ready (huart2 st) = false ->
   huart2 st' = huart2 st /\ _last_dma_count st' = _last_dma_count st).
Proof. apply logmsg_frame. Qed.

Lemma logmsg_producer_frame_witness :
  let st := mkState (replicate 4096 NUL) (replicate 128 NUL) 10 5 5
                    (HAL_UART_STATE_BUSY_TX 5 5) true in
  exists st', logmsg false st 7 ["h"; "i"]%char = Some (st', 7) /\
    _queue_head st' = 5 /\ ld2 st' = true /\
    huart2 st' = HAL_UART_STATE_BUSY_TX 5 5 /\ _last_dma_count st' = 5.
Proof.
  intros st.
  destruct (logmsg_total false st 7 ["h"; "i"]%char) as (st' & Hlog);
    [split; reflexivity|subst st; cbn; unfold_consts; lia
    |vm_compute; discriminate|vm_compute; discriminate|].
  exists st'. split; [exact Hlog|].
  destruct (logmsg_producer_frame false st st' 7 ["h"; "i"]%char _ Hlog)
    as (Hh & Hd & Hb).
  destruct (Hb eq_refl) as [Hu Hl].
  split; [exact Hh|]. split; [exact Hd|]. split; [exact Hu|exact Hl].
Defined.

(** X9.  [HAL_UART_TxCpltCallback] is the consumer: in every state it
    leaves the tail index, the ring and the compose buffer as they are,
    and it toggles the LED exactly when the queue is not empty. *)
Theorem tx_cplt_callback_consumer_frame (za : bool) (st : state) :
  let st' := HAL_UART_TxCpltCallback za st in
  _queue_tail st' = _queue_tail st /\
  _usart2_tx_dma_buffer st' = _usart2_tx_dma_buffer st /\
  _log_compose_buffer st' = _log_compose_buffer st /\
  ld2 st' = (if _queue_head st =? _queue_tail st then ld2 st
             else negb (ld2 st)).
Proof.
  unfold HAL_UART_TxCpltCallback. cbv zeta.
  destruct (_queue_head st =? _queue_tail st); [repeat split|].
  match goal with
  | |- context [restart_dma za ?s] =>
      destruct (restart_dma_head_tail za s) as (_ & Ht & Hr & Hc);
      pose proof (restart_dma_ld2 za s) as Hd
  end.
  simpl_state. rewrite Ht, Hr, Hc, Hd.
  destruct (_ >=? _); repeat split.
Qed.

(** X10.  For indices inside the ring, [queue_space_available (head,
    tail)] is one less than the number of bytes queued, not the number
    of bytes free: with the space [logmsg] computes it always adds up to
    [LOG_DMA_BUFFER_SIZE - 2]. *)
Theorem queue_space_available_counts_queued (st : state) :
  index_ok st ->
  queue_space_available (_queue_head st) (_queue_tail st) = pending st - 1 /\
  queue_space_available (_queue_head st) (_queue_tail st)
  + log_space_available st = LOG_DMA_BUFFER_SIZE - 2.
Proof.
  intros [Hh Ht].
  unfold queue_space_available, log_space_available, pending.
  unfold_ints. unfold_consts.
  rewrite Z.gtb_ltb.
  destruct (Z.ltb_spec (_queue_tail st) (_queue_head st)),
    (Z.leb_spec (_queue_head st) (_queue_tail st)); lia.
Qed.

Lemma queue_space_available_counts_queued_witness :
  let st := mkState (replicate 4096 NUL) (replicate 128 NUL) 2 4090 6
                    HAL_UART_STATE_READY false in
  queue_space_available 4090 2 = 8 - 1 /\
  queue_space_available 4090 2 + log_space_available st = 4096 - 2.
Proof.
  intros st. apply (queue_space_available_counts_queued st).
  split; cbn; unfold_consts; lia.
Defined.

(** ** The queue across one operation *)

(** An accepted item goes behind the bytes already queued. *)
Lemma logmsg_queued (za : bool) (st st' : state) (tick : Z)
    (text : list ascii) (r : Z) :
  mem_ok st -> index_ok st ->
  logmsg za st tick text = Some (st', r) -> 0 <= r ->
  r = item_length tick text /\
  r <= LOG_ITEM_MAX_SIZE /\
  mem_ok st' /\ index_ok st' /\
  _queue_tail st' = (_queue_tail st + r) mod LOG_DMA_BUFFER_SIZE /\
  queued st' = queued st ++ item_bytes tick text /\
  pending st' = pending st + r.
Proof.
  intros Hm Hi Hlog Hpos.
  destruct (logmsg_accepted za st tick text st' r Hm (proj2 Hi) Hlog Hpos)
    as (cb' & ring' & Hlen & Hroom & Hin & Hs & Htake & Hcp & _ & _ & ->).
  set (st2 := set_queue_tail (set_dma_buffer (set_compose_buffer st cb') ring')
                ((_queue_tail st + r) mod LOG_DMA_BUFFER_SIZE)).
  pose proof (pending_space st Hi) as Hps.
  pose proof (pending_range st) as Hpr.
  assert (Hm2 : mem_ok st2) by (split; simpl_state; [apply Hcp|exact Hs]).
  assert (Hi2 : index_ok st2).
  { destruct Hi as [Hh Ht]. split; subst st2; simpl_state;
      [exact Hh|unfold_consts; lia]. }
  assert (Hp2 : pending st2 = pending st + r).
  { destruct Hi as [Hh Ht]. unfold pending in *. subst st2. simpl_state.
    unfold_consts. lia. }
  destruct (restart_dma_mem_index za st2 Hm2 Hi2) as [Hm' Hi'].
  destruct (restart_dma_queued za st2) as [Hq' Hp'].
  destruct (restart_dma_head_tail za st2) as (_ & Ht' & _ & _).
  split; [exact Hlen|]. split; [exact Hin|].
  split; [exact Hm'|]. split; [exact Hi'|].
  split; [rewrite Ht'; reflexivity|].
  split; [|rewrite Hp'; exact Hp2].
  rewrite Hq', <- Htake.
  subst st2. unfold queued, pending. simpl_state.
  destruct Hi as [Hh Ht].
  apply ring_read_enqueued; try assumption; [apply Hm|].
  unfold pending in *. lia.
Qed.

(** The callback takes the bytes of the completed request off the front
    of the queue. *)
Lemma tx_cplt_callback_queued (za : bool) (st : state) :
  mem_ok st -> index_ok st ->
  0 <= _last_dma_count st <= pending st ->
  _last_dma_count st <= LOG_DMA_BUFFER_SIZE - _queue_head st ->
  let st' := HAL_UART_TxCpltCallback za st in
  mem_ok st' /\ index_ok st' /\
  _queue_head st'
  = (_queue_head st + _last_dma_count st) mod LOG_DMA_BUFFER_SIZE /\
  queued st
  = dma_read (_usart2_tx_dma_buffer st) (_queue_head st) (_last_dma_count st)
    ++ queued st' /\
  pending st' = pending st - _last_dma_count st.
Proof.
  intros Hm Hi Hcnt Hend st'. subst st'.
  pose proof (pending_range st) as Hpr.
  destruct (decide (_queue_head st = _queue_tail st)) as [Hempty|Hne].
  - rewrite (tx_cplt_callback_noop za st Hempty).
    assert (Hz : _last_dma_count st = 0)
      by (apply (pending_empty st Hi) in Hempty; lia).
    rewrite Hz. unfold dma_read. cbn [Z.to_nat take app].
    destruct Hi as [Hh Ht].
    repeat split; try assumption; try apply Hm; unfold_consts; lia.
  - assert (Hc : count_ok st) by (unfold count_ok; lia).
    rewrite (tx_cplt_callback_steps za st (proj1 Hi) Hc Hne).
    set (st3 := set_last_dma_count
                  (set_queue_head st
                     ((_queue_head st + _last_dma_count st)
                        mod LOG_DMA_BUFFER_SIZE)) 0).
    assert (Hm3 : mem_ok st3) by exact Hm.
    assert (Hi3 : index_ok st3).
    { destruct Hi as [Hh Ht]. split; subst st3; simpl_state;
        [unfold_consts; lia|exact Ht]. }
    destruct (restart_dma_mem_index za st3 Hm3 Hi3) as [Hm' Hi'].
    destruct (restart_dma_queued za st3) as [Hq' Hp'].
    destruct (restart_dma_head_tail za st3) as (Hh' & _).
    split; [exact Hm'|]. split; [exact Hi'|].
    split; [exact Hh'|].
    change (queued (HAL_GPIO_TogglePin (fst (restart_dma za st3))))
      with (queued (fst (restart_dma za st3))).
    change (pending (HAL_GPIO_TogglePin (fst (restart_dma za st3))))
      with (pending (fst (restart_dma za st3))).
    rewrite Hq', Hp'. destruct Hi as [Hh Ht]. split.
    + unfold queued, pending. subst st3. simpl_state. unfold pending in *.
      rewrite <- (ring_read_dma_read _ _ _ (proj1 Hm)) by lia.
      replace ((_queue_tail st - _queue_head st) mod LOG_DMA_BUFFER_SIZE)
        with (_last_dma_count st
              + ((_queue_tail st - _queue_head st) mod LOG_DMA_BUFFER_SIZE
                 - _last_dma_count st)) at 1 by lia.
      rewrite ring_read_app by (try apply Hm; unfold_consts; lia).
      do 2 f_equal. unfold_consts. lia.
    + unfold pending in *. subst st3. simpl_state. unfold_consts. lia.
Qed.

(** X11.  An accepted call of [logmsg] never touches the bytes that are
    waiting: the queue read from head to tail is the old queue followed
    by the bytes of the item, the number of queued bytes grows by the
    value returned and the space available shrinks by it. *)
Theorem logmsg_appends_to_queue (za : bool) (st st' : state) (tick : Z)
    (text : list ascii) (r : Z) :
  mem_ok st -> index_ok st ->
  logmsg za st tick text = Some (st', r) -> 0 <= r ->
  queued st' = queued st ++ item_bytes tick text /\
  pending st' = pending st + r /\
  log_space_available st' = log_space_available st - r.
Proof.
  intros Hm Hi Hlog Hpos.
  destruct (logmsg_queued za st st' tick text r Hm Hi Hlog Hpos)
    as (_ & _ & _ & Hi' & _ & Hq & Hp).
  split; [exact Hq|]. split; [exact Hp|].
  pose proof (pending_space st Hi). pose proof (pending_space st' Hi'). lia.
Qed.

Lemma logmsg_appends_to_queue_witness :
  let st := mkState (replicate 4096 "x"%char) (replicate 128 NUL) 2 4090 6
                    (HAL_UART_STATE_BUSY_TX 4090 6) false in
  exists st', logmsg false st 7 ["h"; "i"]%char = Some (st', 7) /\
    queued st' = queued st ++ item_bytes 7 ["h"; "i"]%char /\
    pending st' = pending st + 7 /\
    log_space_available st' = log_space_available st - 7.
Proof.
  intros st.
  destruct (logmsg_total false st 7 ["h"; "i"]%char) as (st' & Hlog);
    [split; reflexivity|subst st; cbn; unfold_consts; lia
    |vm_compute; discriminate|vm_compute; discriminate|].
  exists st'. split; [exact Hlog|].
  apply (logmsg_appends_to_queue false st st' 7 ["h"; "i"]%char 7);
    [split; reflexivity|split; subst st; cbn; unfold_consts; lia
    |exact Hlog|lia].
Defined.

(** X12.  With a recorded request that covers queued bytes and ends
    inside the ring, the callback takes exactly those bytes off the
    front of the queue: what was queued is the bytes of the request
    followed by what is queued afterwards, and the space available
    grows by [_last_dma_count]. *)
Theorem tx_cplt_callback_drops_sent (za : bool) (st : state) :
  mem_ok st -> index_ok st ->
  0 <= _last_dma_count st <= pending st ->
  _last_dma_count st <= LOG_DMA_BUFFER_SIZE - _queue_head st ->
  let st' := HAL_UART_TxCpltCallback za st in
  queued st
  = dma_read (_usart2_tx_dma_buffer st) (_queue_head st) (_last_dma_count st)
    ++ queued st' /\
  pending st' = pending st - _last_dma_count st /\
  log_space_available st' = log_space_available st + _last_dma_count st.
Proof.
  intros Hm Hi Hcnt Hend st'.
  destruct (tx_cplt_callback_queued za st Hm Hi Hcnt Hend)
    as (_ & Hi' & _ & Hq & Hp).
  fold st' in Hi', Hq, Hp.
  split; [exact Hq|]. split; [exact Hp|].
  pose proof (pending_space st Hi). pose proof (pending_space st' Hi'). lia.
Qed.

Lemma tx_cplt_callback_drops_sent_witness :
  let st := mkState (replicate 4090 "x"%char ++ replicate 6 "y"%char)
                    (replicate 128 NUL) 2 4090 6 HAL_UART_STATE_READY false in
  let st' := HAL_UART_TxCpltCallback false st in
  queued st = replicate 6 "y"%char ++ queued st' /\
  pending st' = 8 - 6 /\
  log_space_available st' = 4087 + 6.
Proof.
  intros st.
  apply (tx_cplt_callback_drops_sent false st);
    [split; reflexivity|split; subst st; cbn; unfold_consts; lia
    |subst st; unfold pending; cbn; unfold_consts; lia
    |subst st; cbn; unfold_consts; lia].
Defined.

(** X13.  The three outcomes of [logmsg], with [n] the length it
    computes for the item: it returns -1 exactly when [n] is more than
    the space available; it returns [n], which is at least 5 and at most
    [LOG_ITEM_MAX_SIZE], when the item fits both the space and the
    compose buffer; and it writes outside the compose buffer exactly
    when [n] is more than [LOG_ITEM_MAX_SIZE] and fits the space. *)
Theorem logmsg_outcomes (za : bool) (st : state) (tick : Z)
    (text : list ascii) :
  mem_ok st -> 0 <= _queue_tail st < LOG_DMA_BUFFER_SIZE ->
  let n := item_length tick text in
  (logmsg za st tick text = None
   <-> LOG_ITEM_MAX_SIZE < n <= log_space_available st) /\
  (forall st' r, logmsg za st tick text = Some (st', r) ->
   (r = -1 /\ log_space_available st < n) \/
   (r = n /\ 5 <= n <= LOG_ITEM_MAX_SIZE /\ n <= log_space_available st)).
Proof.
  intros Hm Ht n.
  pose proof (item_length_range tick text) as Hr.
  pose proof (timestamp_sizeof tick) as Hts. fold n in Hr.
  destruct (Z.lt_ge_cases (log_space_available st) n) as [Hno|Hroom].
  - destruct (logmsg_no_room za st tick text (proj2 Hm) ltac:(fold n; lia))
      as (cb & _ & E).
    rewrite E. split.
    + split; [discriminate|lia].
    + intros st' r [= <- <-]. left. split; [reflexivity|exact Hno].
  - destruct (Z.lt_ge_cases LOG_ITEM_MAX_SIZE n) as [Hbig|Hin].
    + rewrite (logmsg_overrun za st tick text (proj2 Hm))
        by (fold n; lia).
      split; [split; [lia|reflexivity]|discriminate].
    + destruct (logmsg_total za st tick text Hm Ht Hin Hroom) as (st1 & E).
      rewrite E. split.
      * split; [discriminate|lia].
      * intros st' r [= <- <-]. right. repeat split; lia.
Qed.

Lemma logmsg_outcomes_witness :
  let st := mkState (replicate 4096 NUL) (replicate 128 NUL) 4092 0 0
                    HAL_UART_STATE_READY false in
  (logmsg false st 0 ["a"]%char = None <-> 128 < 6 <= 3) /\
  (forall st' r, logmsg false st 0 ["a"]%char = Some (st', r) ->
   (r = -1 /\ 3 < 6) \/ (r = 6 /\ 5 <= 6 <= 128 /\ 6 <= 3)).
Proof.
  intros st. apply (logmsg_outcomes false st 0 ["a"]%char);
    [split; reflexivity|subst st; cbn; unfold_consts; lia].
Defined.

(** X14.  On an idle logger (engine ready, queue empty) a call of
    [logmsg] that returns a length starts a transfer at once (the engine
    taking a request as the specification describes): the request
    starts at the head, is as long as the item or as what is left of the
    ring behind the head, whichever is less, and its bytes are the first
    bytes of the item. *)
Theorem logmsg_starts_transfer_when_idle (za : bool) (st st' : state)
    (tick : Z) (text : list ascii) (r : Z) :
  mem_ok st -> index_ok st ->
  huart2 st = HAL_UART_STATE_READY -> _queue_head st = _queue_tail st ->
  logmsg za st tick text = Some (st', r) -> 0 <= r ->
  let q := Z.min r (LOG_DMA_BUFFER_SIZE - _queue_head st) in
  huart2 st' = HAL_UART_STATE_BUSY_TX (_queue_head st) q /\
  _last_dma_count st' = q /\
  in_flight st' = take (Z.to_nat q) (item_bytes tick text).
Proof.
  intros Hm Hi Hu Hempty Hlog Hpos q.
  destruct (logmsg_queued za st st' tick text r Hm Hi Hlog Hpos)
    as (Hlen & Hin & Hm' & Hi' & _ & Hq & Hp).
  destruct (logmsg_accepted za st tick text st' r Hm (proj2 Hi) Hlog Hpos)
    as (cb' & ring' & _ & _ & _ & Hs & _ & Hcp & _ & _ & Hst').
  set (st2 := set_queue_tail (set_dma_buffer (set_compose_buffer st cb') ring')
                ((_queue_tail st + r) mod LOG_DMA_BUFFER_SIZE)) in Hst'.
  pose proof (proj2 (pending_empty st Hi) Hempty) as Hp0.
  pose proof (item_length_range tick text) as Hr.
  pose proof (timestamp_sizeof tick) as Hts.
  assert (Hi2 : index_ok st2).
  { destruct Hi as [Hh Ht]. split; subst st2; simpl_state;
      [exact Hh|unfold_consts; lia]. }
  assert (Hp2 : pending st2 = r).
  { destruct (restart_dma_queued za st2) as [_ Hp']. rewrite <- Hst' in Hp'.
    lia. }
  assert (Hq2 : qty_to_send st2 = q).
  { rewrite (qty_to_send_min st2 Hi2), Hp2. reflexivity. }
  assert (Hu2 : HAL_UART_GetState_ready (huart2 st2) = true)
    by (change (huart2 st2) with (huart2 st); now rewrite Hu).
  rewrite (restart_dma_ready za st2 Hu2) in Hst'. cbn [fst] in Hst'.
  rewrite Hq2 in Hst'.
  change (huart2 st2) with (huart2 st) in Hst'. rewrite Hu in Hst'.
  change (_queue_head st2) with (_queue_head st) in Hst'.
  assert (Hq0 : (q =? 0) = false)
    by (apply Z.eqb_neq; destruct Hi as [Hh Ht]; subst q; unfold_consts; lia).
  unfold HAL_UART_Transmit_DMA in Hst'. rewrite Hq0 in Hst'.
  cbn [andb] in Hst'.
  assert (Hu' : huart2 st' = HAL_UART_STATE_BUSY_TX (_queue_head st) q)
    by (rewrite Hst'; reflexivity).
  split; [exact Hu'|]. split; [rewrite Hst'; reflexivity|].
  assert (He' : engine_ok st').
  { unfold engine_ok. rewrite Hu'.
    split; [rewrite Hst'; reflexivity|].
    split; [rewrite Hst'; reflexivity|].
    assert (Hh' : _queue_head st' = _queue_head st)
      by (rewrite Hst'; reflexivity).
    rewrite Hp, Hp0, Hh'.
    destruct Hi as [Hh Ht]. subst q. unfold_consts. lia. }
  destruct (in_flight_prefix st' Hm' Hi' He') as (rest & Hpre).
  assert (Hl : sizeof (in_flight st') = q).
  { unfold in_flight. rewrite Hu'. unfold dma_read.
    rewrite sizeof_take, sizeof_drop. destruct Hm' as [Hr' _].
    destruct Hi as [Hh Ht]. rewrite Hr'. subst q. unfold_consts. lia. }
  assert (Hq' : queued st = []).
  { unfold queued. rewrite Hp0. reflexivity. }
  rewrite Hq' in Hq. cbn [app] in Hq. rewrite <- Hq, Hpre.
  symmetry. apply take_app_length'. unfold sizeof in Hl. lia.
Qed.

Lemma logmsg_starts_transfer_when_idle_witness :
  let st := mkState (replicate 4096 NUL) (replicate 128 NUL) 4090 4090 0
                    HAL_UART_STATE_READY false in
  exists st', logmsg false st 7 ["h"; "i"]%char = Some (st', 7) /\
    huart2 st' = HAL_UART_STATE_BUSY_TX 4090 6 /\
    _last_dma_count st' = 6 /\
    in_flight st' = ["("; "7"; ")"; " "; "h"; "i"]%char.
Proof.
  intros st.
  destruct (logmsg_total false st 7 ["h"; "i"]%char) as (st' & Hlog);
    [split; reflexivity|subst st; cbn; unfold_consts; lia
    |vm_compute; discriminate|vm_compute; discriminate|].
  exists st'. split; [exact Hlog|].
  apply (logmsg_starts_transfer_when_idle false st st' 7 ["h"; "i"]%char 7);
    [split; reflexivity|split; subst st; cbn; unfold_consts; lia
    |reflexivity|reflexivity|exact Hlog|lia].
Defined.

(** ** Completions in a row *)

(** The request that [restart_dma] leaves behind when it finds the
    engine ready covers what is queued up to the end of the ring. *)
Lemma restart_dma_request_count (za : bool) (st : state) :
  index_ok st -> huart2 st = HAL_UART_STATE_READY ->
  request_count (fst (restart_dma za st))
  = Z.min (pending st) (LOG_DMA_BUFFER_SIZE - _queue_head st).
Proof.
  intros Hi Hu.
  rewrite restart_dma_ready by (now rewrite Hu). cbn [fst].
  rewrite (qty_to_send_min st Hi), Hu.
  unfold request_count, HAL_UART_Transmit_DMA. simpl_state.
  destruct (Z.eqb_spec
              (Z.min (pending st) (LOG_DMA_BUFFER_SIZE - _queue_head st)) 0)
    as [E|E]; destruct za; cbn [andb negb]; congruence.
Qed.

(** What one completion does to a well-formed world. *)
Lemma step_tx_complete_effect (za : bool) (w : world) :
  world_ok w ->
  exists w', step za w ev_tx_complete = Some w' /\ world_ok w' /\
    enqueued w' = enqueued w /\
    0 <= request_count (mcu w)
      <= Z.min (pending (mcu w)) (LOG_DMA_BUFFER_SIZE - _queue_head (mcu w)) /\
    _queue_head (mcu w')
    = (_queue_head (mcu w) + request_count (mcu w)) mod LOG_DMA_BUFFER_SIZE /\
    pending (mcu w') = pending (mcu w) - request_count (mcu w) /\
    request_count (mcu w')
    = Z.min (pending (mcu w')) (LOG_DMA_BUFFER_SIZE - _queue_head (mcu w')) /\
    (pending (mcu w) = 0 -> huart2 (mcu w') = HAL_UART_STATE_READY).
Proof.
  intros Hok. pose proof Hok as (Hm & Hi & He & Hq).
  eexists. split; [reflexivity|].
  split; [apply (step_tx_complete_ok za w _ Hok); reflexivity|].
  cbn [mcu enqueued]. split; [reflexivity|].
  set (st := mcu w) in *.
  set (st_r := set_huart2 st HAL_UART_STATE_READY).
  pose proof (pending_range st) as Hpr.
  pose proof (pending_empty st Hi) as Hpe.
  assert (Hnoop : _queue_head st = _queue_tail st ->
                  request_count st = 0 ->
                  0 <= request_count st
                    <= Z.min (pending st)
                         (LOG_DMA_BUFFER_SIZE - _queue_head st) /\
                  _queue_head (HAL_UART_TxCpltCallback za st_r)
                  = (_queue_head st + request_count st)
                      mod LOG_DMA_BUFFER_SIZE /\
                  pending (HAL_UART_TxCpltCallback za st_r)
                  = pending st - request_count st /\
                  request_count (HAL_UART_TxCpltCallback za st_r)
                  = Z.min (pending (HAL_UART_TxCpltCallback za st_r))
                      (LOG_DMA_BUFFER_SIZE
                       - _queue_head (HAL_UART_TxCpltCallback za st_r)) /\
                  (pending st = 0 ->
                   huart2 (HAL_UART_TxCpltCallback za st_r)
                   = HAL_UART_STATE_READY)).
  { intros Hempty Hz. rewrite (tx_cplt_callback_noop za st_r Hempty), Hz.
    change (_queue_head st_r) with (_queue_head st).
    change (pending st_r) with (pending st).
    change (request_count st_r) with 0.
    destruct Hi as [Hh Ht]. apply Hpe in Hempty.
    repeat split; try reflexivity; unfold_consts; lia. }
  unfold engine_ok in He.
  destruct (huart2 st) as [|off cnt] eqn:Hu.
  { apply (Hnoop He). unfold request_count. now rewrite Hu. }
  destruct He as (-> & -> & Hcnt & Hend).
  assert (Hrc : request_count st = _last_dma_count st)
    by (unfold request_count; now rewrite Hu).
  destruct (decide (_queue_head st = _queue_tail st)) as [Hempty|Hne].
  { apply (Hnoop Hempty). apply Hpe in Hempty. lia. }
  clear Hnoop. rewrite Hrc.
  destruct (tx_cplt_callback_queued za st_r Hm Hi Hcnt Hend)
    as (_ & Hi' & Hh' & _ & Hp').
  change (_queue_head st_r) with (_queue_head st) in Hh'.
  change (_last_dma_count st_r) with (_last_dma_count st) in Hh', Hp'.
  change (pending st_r) with (pending st) in Hp'.
  split; [lia|]. split; [exact Hh'|]. split; [exact Hp'|].
  split; [|intros Hz; apply Hpe in Hz; contradiction].
  assert (Hc : count_ok st_r) by (unfold count_ok; subst st_r; simpl_state; lia).
  rewrite (tx_cplt_callback_steps za st_r (proj1 Hi) Hc Hne) in *.
  match goal with
  | |- context [restart_dma za ?s] => set (st3 := s) in *
  end.
  change (request_count (HAL_GPIO_TogglePin (fst (restart_dma za st3))))
    with (request_count (fst (restart_dma za st3))).
  change (pending (HAL_GPIO_TogglePin (fst (restart_dma za st3))))
    with (pending (fst (restart_dma za st3))).
  change (_queue_head (HAL_GPIO_TogglePin (fst (restart_dma za st3))))
    with (_queue_head (fst (restart_dma za st3))).
  destruct (restart_dma_queued za st3) as [_ Hp3].
  destruct (restart_dma_head_tail za st3) as (Hh3 & _).
  rewrite Hp3, Hh3.
  apply restart_dma_request_count; [|reflexivity].
  destruct Hi as [Hh Ht]. split; subst st3 st_r; simpl_state;
    [unfold_consts; lia|exact Ht].
Qed.

(** X15.  Four completions in a row, with no call of [logmsg] in
    between, are enough to empty the queue of any well-formed world,
    however full: the stale request, the rest up to the end of the ring,
    the part at the front of the ring, and the request for no byte that
    [restart_dma] issues on the empty queue.  Afterwards the engine is
    ready, head and tail are the same, and the line holds every byte
    that was enqueued. *)
Theorem four_completions_drain (za : bool) (w : world) :
  world_ok w ->
  exists w', run za w (replicate 4 ev_tx_complete) = Some w' /\
    huart2 (mcu w') = HAL_UART_STATE_READY /\
    _queue_head (mcu w') = _queue_tail (mcu w') /\
    tx_line w' = enqueued w.
Proof.
  intros Hok0.
  destruct (step_tx_complete_effect za w Hok0)
    as (w1 & E1 & Hok1 & Hq1 & Hc0 & Hh1 & Hp1 & Hr1 & _).
  destruct (step_tx_complete_effect za w1 Hok1)
    as (w2 & E2 & Hok2 & Hq2 & Hc1 & Hh2 & Hp2 & Hr2 & _).
  destruct (step_tx_complete_effect za w2 Hok2)
    as (w3 & E3 & Hok3 & Hq3 & Hc2 & Hh3 & Hp3 & Hr3 & _).
  destruct (step_tx_complete_effect za w3 Hok3)
    as (w4 & E4 & Hok4 & Hq4 & Hc3 & Hh4 & Hp4 & _ & Hu4).
  exists w4. split.
  { cbn [replicate run]. rewrite E1. bind_step. rewrite E2. bind_step.
    rewrite E3. bind_step. rewrite E4. bind_step. reflexivity. }
  destruct Hok1 as (_ & [Hi1 _] & _). destruct Hok2 as (_ & [Hi2 _] & _).
  destruct Hok3 as (_ & [Hi3 _] & _).
  destruct Hok4 as (_ & Hi4 & _ & Hw4).
  pose proof (pending_range (mcu w1)). pose proof (pending_range (mcu w2)).
  assert (Hz3 : pending (mcu w3) = 0) by (unfold_consts; lia).
  assert (Hz4 : pending (mcu w4) = 0) by (clear - Hz3 Hp4 Hc3; lia).
  split; [exact (Hu4 Hz3)|].
  split; [apply (pending_empty (mcu w4) Hi4), Hz4|].
  unfold queued in Hw4. rewrite Hz4 in Hw4.
  change (ring_read _ _ 0) with (@nil ascii) in Hw4.
  rewrite app_nil_r in Hw4. congruence.
Qed.

Lemma four_completions_drain_witness :
  let evs := [ev_logmsg 7 ["h"; "i"]%char; ev_logmsg 8 ["y"; "o"]%char] in
  exists w w',
    run false (power_on (replicate 4096 NUL) (replicate 128 NUL)) evs = Some w /\
    run false w (replicate 4 ev_tx_complete) = Some w' /\
    huart2 (mcu w') = HAL_UART_STATE_READY /\
    _queue_head (mcu w') = _queue_tail (mcu w') /\
    tx_line w' = enqueued w.
Proof.
  intros evs.
  pose proof (power_on_ok (replicate 4096 NUL) (replicate 128 NUL)
                eq_refl eq_refl) as Hok.
  destruct (run_defined false evs _ Hok eq_refl) as (w & E).
  destruct (four_completions_drain false w (run_ok false evs _ w Hok E))
    as (w' & H).
  exists w, w'. split; [exact E|exact H].
Defined.

(** X16.  While a request is in progress, calls of [logmsg], accepted
    or not and however many, leave it alone: the engine keeps the same
    request, the bytes it reads from the ring are the same, the head
    stays where it is and nothing is added to the line. *)
Theorem logmsg_calls_keep_request (za : bool) (evs : list event)
    (w w' : world) :
  world_ok w ->
  HAL_UART_GetState_ready (huart2 (mcu w)) = false ->
  Forall (fun e => e <> ev_tx_complete) evs ->
  run za w evs = Some w' ->
  huart2 (mcu w') = huart2 (mcu w) /\
  in_flight (mcu w') = in_flight (mcu w) /\
  _queue_head (mcu w') = _queue_head (mcu w) /\
  tx_line w' = tx_line w.
Proof.
  intros Hok Hbusy Hall. revert w Hok Hbusy.
  induction Hall as [|e evs He _ IH]; intros w Hok Hbusy.
  - intros [= <-]. repeat split.
  - cbn [run].
    destruct (step za w e) as [w1|] eqn:E1; [bind_step|discriminate].
    destruct e as [tick text|]; [|contradiction].
    intros Hrun.
    destruct (logmsg_keeps_in_flight za w tick text w1 Hok Hbusy E1)
      as [Hu1 Hf1].
    destruct (run_step_enqueued za w tick text w1 Hok E1) as (_ & _ & Ht1).
    assert (Hh1 : _queue_head (mcu w1) = _queue_head (mcu w)).
    { cbn [step] in E1.
      destruct (logmsg za (mcu w) tick text) as [[st1 r]|] eqn:Hlog;
        [|discriminate].
      rewrite bind_Some in E1. cbv beta iota in E1.
      assert (mcu w1 = st1) as -> by (injection E1 as <-; reflexivity).
      apply (logmsg_frame za _ _ tick text r Hlog). }
    destruct (IH w1 (step_ok za w _ w1 Hok E1) ltac:(now rewrite Hu1) Hrun)
      as (Hu & Hf & Hh & Ht).
    repeat split; congruence.
Qed.

Lemma logmsg_calls_keep_request_witness :
  let w0 := power_on (replicate 4096 NUL) (replicate 128 NUL) in
  exists w w',
    run false w0 [ev_logmsg 7 ["h"; "i"]%char] = Some w /\
    run false w [ev_logmsg 8 []; ev_logmsg 9 ["y"; "o"]%char] = Some w' /\
    huart2 (mcu w') = huart2 (mcu w) /\
    in_flight (mcu w') = in_flight (mcu w) /\
    _queue_head (mcu w') = _queue_head (mcu w) /\
    tx_line w' = tx_line w.
Proof.
  intros w0.
  pose proof (power_on_ok (replicate 4096 NUL) (replicate 128 NUL)
                eq_refl eq_refl) as Hok0.
  destruct (run_defined false [ev_logmsg 7 ["h"; "i"]%char] w0 Hok0 eq_refl)
    as (w & E).
  pose proof (run_ok false _ w0 w Hok0 E) as Hok.
  destruct (run_defined false [ev_logmsg 8 []; ev_logmsg 9 ["y"; "o"]%char]
              w Hok eq_refl) as (w' & E').
  exists w, w'. split; [exact E|]. split; [exact E'|].
  apply (logmsg_calls_keep_request false
           [ev_logmsg 8 []; ev_logmsg 9 ["y"; "o"]%char] w w' Hok);
    [|repeat constructor; discriminate|exact E'].
  assert (Hw : (fun x => HAL_UART_GetState_ready (huart2 (mcu x)))
               <$> run false w0 [ev_logmsg 7 ["h"; "i"]%char] = Some false)
    by (vm_compute; reflexivity).
  rewrite E in Hw. now injection Hw.
Defined.

(** ** One byte of the ring stays free *)

(** X17.  An accepted item never fills the ring: afterwards the queue is
    not empty, head and tail differ, and at most
    [LOG_DMA_BUFFER_SIZE - 1] bytes are queued, so that equal indices
    always mean an empty queue. *)
Theorem logmsg_never_fills_ring (za : bool) (st st' : state) (tick : Z)
    (text : list ascii) (r : Z) :
  mem_ok st -> index_ok st ->
  logmsg za st tick text = Some (st', r) -> 0 <= r ->
  _queue_head st' <> _queue_tail st' /\
  5 <= pending st' <= LOG_DMA_BUFFER_SIZE - 1.
Proof.
  intros Hm Hi Hlog Hpos.
  destruct (logmsg_queued za st st' tick text r Hm Hi Hlog Hpos)
    as (Hlen & _ & _ & Hi' & _ & _ & Hp).
  pose proof (pending_range st) as Hpr.
  pose proof (pending_range st') as Hpr'.
  pose proof (item_length_range tick text) as Hr.
  pose proof (timestamp_sizeof tick) as Hts.
  split; [|lia].
  intros Heq. apply (pending_empty st' Hi') in Heq. lia.
Qed.

Lemma logmsg_never_fills_ring_witness :
  let st := mkState (replicate 4096 NUL) (replicate 128 NUL) 4095 4090 0
                    HAL_UART_STATE_READY false in
  exists st', logmsg false st 7 ["h"; "i"]%char = Some (st', 7) /\
    _queue_head st' <> _queue_tail st' /\
    5 <= pending st' <= LOG_DMA_BUFFER_SIZE - 1.
Proof.
  intros st.
  destruct (logmsg_total false st 7 ["h"; "i"]%char) as (st' & Hlog);
    [split; reflexivity|subst st; cbn; unfold_consts; lia
    |vm_compute; discriminate|vm_compute; discriminate|].
  exists st'. split; [exact Hlog|].
  apply (logmsg_never_fills_ring false st st' 7 ["h"; "i"]%char 7);
    [split; reflexivity|split; subst st; cbn; unfold_consts; lia
    |exact Hlog|lia].
Defined.

(** X18.  Items are turned down under backlog only: as long as no more
    than [LOG_DMA_BUFFER_SIZE - 1 - LOG_ITEM_MAX_SIZE] bytes are queued
    (on the empty queue, say), every item that lies inside the compose
    buffer is accepted, and [logmsg] returns its length. *)
Theorem logmsg_accepts_below_high_water (za : bool) (st : state) (tick : Z)
    (text : list ascii) :
  mem_ok st -> index_ok st ->
  pending st <= LOG_DMA_BUFFER_SIZE - 1 - LOG_ITEM_MAX_SIZE ->
  item_fits tick text = true ->
  exists st', logmsg za st tick text = Some (st', item_length tick text) /\
    pending st' = pending st + item_length tick text.
Proof.
  intros Hm Hi Hlow Hfit.
  apply Z.leb_le in Hfit.
  pose proof (pending_space st Hi) as Hps.
  pose proof (item_length_range tick text) as Hr.
  pose proof (timestamp_sizeof tick) as Hts.
  destruct (logmsg_total za st tick text Hm (proj2 Hi) Hfit ltac:(lia))
    as (st' & Hlog).
  exists st'. split; [exact Hlog|].
  apply (logmsg_queued za st st' tick text _ Hm Hi Hlog). lia.
Qed.

Lemma logmsg_accepts_below_high_water_witness :
  let st := mkState (replicate 4096 NUL) (replicate 128 NUL) 3000 4000 0
                    HAL_UART_STATE_READY false in
  exists st', logmsg false st 7 ["h"; "i"]%char = Some (st', 7) /\
    pending st' = 3096 + 7.
Proof.
  intros st.
  apply (logmsg_accepts_below_high_water false st 7 ["h"; "i"]%char);
    [split; reflexivity|split; subst st; cbn; unfold_consts; lia
    |subst st; unfold pending; cbn; unfold_consts; lia|reflexivity].
Defined.

(** * Accepted items that are longer than the compose buffer *)

(** The length test of [logmsg] compares the item with the space in the
    ring only.  An item of 129 to 141 bytes, which the clamp of line 149
    lets through, passes it whenever the ring has room, and the call
    then goes outside the compose buffer. *)

Lemma memcpy_overrun (dst : list ascii) (doff : Z) (src : list ascii)
    (soff n : Z) :
  sizeof src < soff + n -> memcpy dst doff src soff n = None.
Proof.
  intros H. destruct (memcpy dst doff src soff n) as [d|] eqn:E;
    [|reflexivity].
  apply memcpy_inv in E. lia.
Qed.

(** C1 (the code departs from the claim).  One call of [logmsg] after
    [log_init], at tick 0 with a text of 124 characters.  The item has
    129 bytes and the empty queue has room for 4095, so this is an
    enqueue whose length fits the space available at its time.  But the
    item is one byte longer than the compose buffer: the line feed is
    stored outside the array and 129 bytes are copied out of its 128,
    so that the call, and every run that starts with it whatever
    follows, has no defined result, and nothing holds of the bytes on
    the line. *)
Theorem fifo_run_overruns_compose_buffer :
  let text := replicate 124 "a"%char in
  let w0 := power_on (replicate 4096 NUL) (replicate 128 NUL) in
  item_length 0 text = 129 /\
  item_length 0 text <= log_space_available (mcu w0) /\
  (forall za, step za w0 (ev_logmsg 0 text) = None) /\
  (forall za evs, run za w0 (ev_logmsg 0 text :: evs) = None).
Proof.
  intros text w0.
  assert (Hstep : forall za, step za w0 (ev_logmsg 0 text) = None)
    by (intros [|]; vm_compute; reflexivity).
  split; [reflexivity|]. split; [vm_compute; discriminate|].
  split; [exact Hstep|].
  intros za evs. cbn [run]. rewrite Hstep. reflexivity.
Qed.

(** A completion served in the middle of the availability expression.
    The queue holds 4086 bytes, 96 of them in the request in progress,
    and 9 bytes are free; once the request has completed 105 are.  An
    item of 120 bytes fits neither; but when the completion comes after
    the test of line 156 and before the subtraction of line 158, the
    value computed is 61545 and the item passes the length test. *)
Example space_read_torn_by_completion :
  let st := mkState (replicate 4096 NUL) (replicate 128 NUL) 3990 4000 96
                    (HAL_UART_STATE_BUSY_TX 4000 96) false in
  let st' := HAL_UART_TxCpltCallback false (set_huart2 st HAL_UART_STATE_READY) in
  let text := replicate 115 "a"%char in
  _queue_head st' = 0 /\ _queue_tail st' = 3990 /\
  log_space_available st = 9 /\
  log_space_available st' = 105 /\
  item_length 0 text = 120 /\
  log_space_available_preempted st st' = 61545 /\
  item_length 0 text <= log_space_available_preempted st st'.
Proof. vm_compute. repeat split; discriminate. Qed.

(** C7 (the code departs from the claim).  The same item of 129 bytes,
    from the empty queue at tail 0 and at tail 4000: its length is at
    most the space available (4095) and the tail is inside the ring, so
    the enqueue is accepted.  At tail 0 no wrap is needed, and the one
    copy takes 129 bytes out of the 128 of the compose buffer; at tail
    4000 the copy crosses the end of the ring, and the second of the two
    copies takes the bytes 96 to 128 of the compose buffer, the last of
    which does not exist.  In both cases the call has no defined result:
    the bytes that land in the ring are not the bytes of the rendered
    message. *)
Theorem logmsg_copy_overruns_compose_buffer :
  let text := replicate 124 "a"%char in
  let n := item_length 0 text in
  let flat := mkState (replicate 4096 NUL) (replicate 128 NUL) 0 0 0
                      HAL_UART_STATE_READY false in
  let wrapped := mkState (replicate 4096 NUL) (replicate 128 NUL) 4000 4000 0
                         HAL_UART_STATE_READY false in
  n = 129 /\
  n <= log_space_available flat /\
  n <= log_space_available wrapped /\
  _queue_tail flat + n < LOG_DMA_BUFFER_SIZE /\
  _queue_tail wrapped + n >= LOG_DMA_BUFFER_SIZE /\
  (forall ring cb, sizeof cb = LOG_ITEM_MAX_SIZE ->
   memcpy ring (_queue_tail flat) cb 0 n = None) /\
  (forall ring cb ring', sizeof cb = LOG_ITEM_MAX_SIZE ->
   ~ two_copies ring (_queue_tail wrapped) cb n ring') /\
  (forall za, logmsg za flat 0 text = None) /\
  (forall za, logmsg za wrapped 0 text = None).
Proof.
  intros text n flat wrapped.
  split; [reflexivity|].
  split; [vm_compute; discriminate|]. split; [vm_compute; discriminate|].
  split; [reflexivity|]. split; [vm_compute; discriminate|].
  split; [|split; [|split]].
  - intros ring cb Hcb. apply memcpy_overrun. rewrite Hcb.
    change n with 129. unfold_consts. lia.
  - intros ring cb ring' Hcb (ring1 & _ & H2).
    rewrite memcpy_overrun in H2; [discriminate|].
    rewrite Hcb. change n with 129. change (_queue_tail wrapped) with 4000.
    unfold_consts. lia.
  - intros [|]; vm_compute; reflexivity.
  - intros [|]; vm_compute; reflexivity.
Qed.

(** C8 (the code departs from the claim).  The state after [log_init]
    satisfies the invariant, and the item of 129 bytes fits the space
    available, so [logmsg] goes on to enqueue it; the store of the line
    feed at index 128 of the compose buffer is outside the array, the
    operation has no defined result, and neither has any sequence of
    operations that starts with it: no state is left of which the
    invariant could hold. *)
Theorem perform_logmsg_overruns_compose_buffer :
  let text := replicate 124 "a"%char in
  let st := fst (log_init (mkState (replicate 4096 NUL) (replicate 128 NUL)
                                   7 9 3 HAL_UART_STATE_READY false)) in
  state_ok st /\
  item_length 0 text = 129 /\
  item_length 0 text <= log_space_available st /\
  (forall cb, sizeof cb = LOG_ITEM_MAX_SIZE ->
   store cb (item_length 0 text - 1) LF = None) /\
  (forall za, perform za st (op_logmsg 0 text) = None) /\
  (forall za ops, perform_all za st (op_logmsg 0 text :: ops) = None).
Proof.
  intros text st.
  assert (Hop : forall za, perform za st (op_logmsg 0 text) = None)
    by (intros [|]; vm_compute; reflexivity).
  split; [apply log_init_ok; split; reflexivity|].
  split; [reflexivity|]. split; [vm_compute; discriminate|].
  split; [|split; [exact Hop|]].
  - intros cb Hcb. change (item_length 0 text - 1) with 128.
    unfold store. rewrite Hcb. reflexivity.
  - intros za ops. cbn [perform_all]. rewrite Hop. reflexivity.
Qed.

(** C10 (the code departs from the claim).  The item of 129 bytes from
    the empty queue at tail 3967 ends exactly at the end of the ring
    and fits the space available.  [logmsg] takes the wrapping branch
    with [len_1 = 129], and the first copy, which is to move all the
    bytes of the item, takes 129 bytes out of the 128 of the compose
    buffer: the call has no defined result and no well-formed state
    follows. *)
Theorem logmsg_exact_fit_overruns_compose_buffer :
  let text := replicate 124 "a"%char in
  let st := mkState (replicate 4096 NUL) (replicate 128 NUL) 3967 3967 0
                    HAL_UART_STATE_READY false in
  let n := item_length 0 text in
  let len_1 := uint16_t (LOG_DMA_BUFFER_SIZE - _queue_tail st) in
  n = 129 /\
  _queue_tail st + n = LOG_DMA_BUFFER_SIZE /\
  n <= log_space_available st /\
  (_queue_tail st + n >=? LOG_DMA_BUFFER_SIZE) = true /\
  len_1 = n /\
  (forall ring cb, sizeof cb = LOG_ITEM_MAX_SIZE ->
   memcpy ring (_queue_tail st) cb 0 len_1 = None) /\
  (forall za, logmsg za st 0 text = None).
Proof.
  intros text st n len_1.
  split; [reflexivity|]. split; [reflexivity|].
  split; [vm_compute; discriminate|].
  split; [reflexivity|]. split; [reflexivity|]. split.
  - intros ring cb Hcb. apply memcpy_overrun. rewrite Hcb.
    change len_1 with 129. unfold_consts. lia.
  - intros [|]; vm_compute; reflexivity.
Qed.
